(** * News summarizer pipeline: ingestion, condensation, stylization

    A shallow embedding of the Python sources
    - [src/news_summarizer/data_collection/collector.py] ([NewsCollector]),
    - [src/news_summarizer/summarization/summarizer.py] ([ArticleSummarizer]),
    - [src/news_summarizer/humor/humorizer.py] ([HumorGenerator]),
    - [src/news_summarizer/utils/config.py] ([Config]),
    - [src/news_summarizer/utils/formatter.py] ([NewsletterFormatter]),
    - [src/news_summarizer/main.py] (the stages and [main]),
    and the properties of the pipeline proved about it.

    Conventions of the embedding:
    - a Python [str] is the list of its Unicode code points ([list N]);
    - a Python [int] is a [Z]; a [datetime] is a [Z] counting the
      microseconds of its wall-clock reading together with its being
      timezone-aware or naive; [timedelta(days=n)] and the subtraction of
      datetimes raise [OverflowError] outside their ranges, and an aware
      and a naive datetime do not compare ([TypeError]);
    - code that talks to the outside world (HTTP, the article parser, the
      clock, the models, the chat API) runs in a state-and-exception monad
      whose state is the log of the external calls made so far; what the
      outside world answers is an arbitrary function of that log;
    - the exceptions modelled are the subclasses of Python's [Exception]
      (what [except Exception] catches). *)

From Stdlib Require Import String Ascii PrimFloat.
From stdpp Require Import base list gmap.

Local Open Scope Z_scope.

(** ** Python strings *)

Module Py.

(** A string literal of the source (the literals used are ASCII). *)
Definition lit (s : string) : list N :=
  N_of_ascii <$> list_ascii_of_string s.

(** [s.startswith(p)] *)
Fixpoint startswith (p s : list N) : bool :=
  match p, s with
  | [], _ => true
  | _ :: _, [] => false
  | a :: p', b :: s' => (a =? b)%N && startswith p' s'
  end.

(** [s.startswith((p1, p2, ...))] *)
Definition startswith_any (ps : list (list N)) (s : list N) : bool :=
  existsb (fun p => startswith p s) ps.

(** [needle in s] *)
Fixpoint contains (needle s : list N) : bool :=
  startswith needle s ||
  match s with
  | [] => false
  | _ :: s' => contains needle s'
  end.

(** [s.split(sep)] for a one-character separator: every occurrence of the
    separator cuts, empty pieces are kept. *)
Fixpoint split (sep : N) (s : list N) : list (list N) :=
  match s with
  | [] => [[]]
  | c :: s' =>
      if (c =? sep)%N then [] :: split sep s'
      else match split sep s' with
           | w :: ws => (c :: w) :: ws
           | [] => [[c]]
           end
  end.

(** [sep.join(parts)] *)
Fixpoint join (sep : list N) (parts : list (list N)) : list N :=
  match parts with
  | [] => []
  | p :: ps =>
      match ps with
      | [] => p
      | _ :: _ => p ++ sep ++ join sep ps
      end
  end.

(** [s.lstrip(chars)] and [s.rstrip(chars)] *)
Fixpoint lstrip (chars : list N) (s : list N) : list N :=
  match s with
  | [] => []
  | c :: s' => if bool_decide (c ∈ chars) then lstrip chars s' else s
  end.

Definition rstrip (chars : list N) (s : list N) : list N :=
  reverse (lstrip chars (reverse s)).

(** The code points on which [str.split()] and [str.strip()] cut
    ([Py_UNICODE_ISSPACE]). *)
Definition isspace (c : N) : bool :=
  ((9 <=? c) && (c <=? 13) || (28 <=? c) && (c <=? 32)
   || (c =? 133) || (c =? 160) || (c =? 5760)
   || (8192 <=? c) && (c <=? 8202)
   || (c =? 8232) || (c =? 8233) || (c =? 8239) || (c =? 8287)
   || (c =? 12288))%N.

(** [s.split()]: the maximal runs of non-whitespace, in order. *)
Fixpoint split_ws (s : list N) : list (list N) :=
  match s with
  | [] => []
  | c :: s' =>
      if isspace c then split_ws s'
      else match s' with
           | [] => [[c]]
           | d :: _ =>
               if isspace d then [c] :: split_ws s'
               else match split_ws s' with
                    | w :: ws => (c :: w) :: ws
                    | [] => [[c]]
                    end
           end
  end.

(** A word: a non-empty string without whitespace. *)
Definition is_word (w : list N) : Prop :=
  w ≠ [] ∧ Forall (fun c => isspace c = false) w.

(** [s.strip()] *)
Fixpoint lstrip_ws (s : list N) : list N :=
  match s with
  | [] => []
  | c :: s' => if isspace c then lstrip_ws s' else s
  end.

Definition strip (s : list N) : list N :=
  reverse (lstrip_ws (reverse (lstrip_ws s))).

(** The newline character of a literal. *)
Definition nl : list N := [10%N].

(** [xs[:k]]: a negative bound counts from the end. *)
Definition slice_to {A} (k : Z) (xs : list A) : list A :=
  if k <? 0 then take (Z.to_nat (Z.of_nat (length xs) + k)) xs
  else take (Z.to_nat k) xs.

End Py.

Import Py.

(** ** Link discovery: [NewsCollector._extract_article_links] *)

Module Links.

(** The test that makes the loop [continue]:
    [not href or href.startswith("#") or "javascript:" in href]. *)
Definition skipped (href : list N) : bool :=
  bool_decide (href = []) || startswith (lit "#") href
  || contains (lit "javascript:") href.

(** ["/".join(base_url.split("/")[:3])] *)
Definition domain (base_url : list N) : list N :=
  join (lit "/") (slice_to 3 (split 47%N base_url)).

(** The block "Make relative URLs absolute". *)
Definition make_absolute (base_url href : list N) : list N :=
  if startswith (lit "/") href then
    domain base_url ++ href
  else if negb (startswith_any [lit "http://"; lit "https://"] href) then
    rstrip (lit "/") base_url ++ lit "/" ++ lstrip (lit "/") href
  else href.

(** One iteration of the first loop, on the list [links] built so far. *)
Definition collect_step (base_url : list N) (links : list (list N))
    (href : list N) : list (list N) :=
  if skipped href then links
  else links ++ [make_absolute base_url href].

(** One iteration of the loop "Remove duplicates while preserving order". *)
Definition unique_step (unique_links : list (list N)) (link : list N)
    : list (list N) :=
  if bool_decide (link ∈ unique_links) then unique_links
  else unique_links ++ [link].

(** [_extract_article_links(soup, base_url)].  The page is given by
    [hrefs], the [href] attribute values of
    [soup.find_all("a", href=True)] in document order. *)
Definition _extract_article_links (hrefs : list (list N))
    (base_url : list N) : list (list N) :=
  let links := fold_left (collect_step base_url) hrefs [] in
  fold_left unique_step links [].

(** The absolute URLs discovered on a page, in page order and with
    their repetitions: what the first loop leaves in [links]. *)
Definition resolved_links (hrefs : list (list N)) (base_url : list N)
    : list (list N) :=
  make_absolute base_url <$> filter (fun href => skipped href = false) hrefs.

(** The classes of links in the words of the specification: an in-page
    fragment starts with [#]; a script pseudo-URL is a URL whose scheme is
    [javascript]; an absolute URL starts with a scheme (a letter, then
    letters, digits, [+], [-] or [.], up to a colon). *)
Definition is_fragment (href : list N) : Prop := ∃ r, href = lit "#" ++ r.

Definition is_script_pseudo_url (href : list N) : Prop :=
  ∃ r, href = lit "javascript:" ++ r.

Definition is_alpha (c : N) : bool :=
  ((65 <=? c) && (c <=? 90) || (97 <=? c) && (c <=? 122))%N.

Definition is_scheme_char (c : N) : bool :=
  (is_alpha c || (48 <=? c) && (c <=? 57)
   || (c =? 43) || (c =? 45) || (c =? 46))%N.

Fixpoint scheme_ends (s : list N) : bool :=
  match s with
  | [] => false
  | c :: s' => (c =? 58)%N || is_scheme_char c && scheme_ends s'
  end.

Definition is_absolute_url (href : list N) : bool :=
  match href with
  | [] => false
  | c :: s => is_alpha c && scheme_ends s
  end.

(** The contract of the link discoverer in its own words: each distinct
    string once, at the place of its first occurrence. *)
Fixpoint first_occurrences (l : list (list N)) : list (list N) :=
  match l with
  | [] => []
  | x :: l' => x :: filter (fun y => y ≠ x) (first_occurrences l')
  end.

End Links.

Import Links.

(** ** Effects: external calls, exceptions, and the monad *)

Module Eff.

(** The exception classes the sources name or can meet, all below
    Python's [Exception]. *)
Inductive exn : Type :=
| RequestException      (* requests.RequestException (connection, timeout, ...) *)
| HTTPError             (* requests.HTTPError, a RequestException *)
| ArticleException      (* newspaper.article.ArticleException *)
| IndexError
| KeyError
| AttributeError
| TypeError
| OverflowError
| OtherException.       (* any other subclass of Exception *)

(** [except requests.RequestException], [except ArticleException],
    [except Exception]. *)
Definition is_RequestException (e : exn) : bool :=
  match e with RequestException | HTTPError => true | _ => false end.

Definition is_ArticleException (e : exn) : bool :=
  match e with ArticleException => true | _ => false end.

Definition is_Exception (e : exn) : bool := true.

Inductive outcome (A : Type) : Type :=
| Returns (a : A)
| Raises (e : exn).
Arguments Returns {A} a.
Arguments Raises {A} e.

(** A computation over a state [S] that returns or raises. *)
Definition M (S A : Type) : Type := S -> outcome A * S.

Definition ret {S A} (a : A) : M S A := fun s => (Returns a, s).

Definition raise {S A} (e : exn) : M S A := fun s => (Raises e, s).

Definition bind {S A B} (m : M S A) (k : A -> M S B) : M S B :=
  fun s =>
    match m s with
    | (Returns a, s') => k a s'
    | (Raises e, s') => (Raises e, s')
    end.

(** [try: body  except C1: h1  except C2: h2 ...]: the first clause whose
    class matches the raised exception runs; without one the exception
    propagates. *)
Definition try_except {S A} (body : M S A)
    (handlers : list ((exn -> bool) * (exn -> M S A))) : M S A :=
  fun s =>
    match body s with
    | (Returns a, s') => (Returns a, s')
    | (Raises e, s') =>
        match List.find (fun h => fst h e) handlers with
        | Some h => snd h e s'
        | None => (Raises e, s')
        end
    end.

(** A computation without effect on the state that returns or raises. *)
Definition lift {S A} (o : outcome A) : M S A := fun s => (o, s).

(** An external call: the answer is what the outside world gives after
    the calls logged so far, and the call is appended to the log. *)
Definition external {C A} (c : C) (answer : list C -> outcome A)
    : M (list C) A :=
  fun log => (answer log, log ++ [c]).

Declare Scope py_scope.
Delimit Scope py_scope with py.
Notation "'let!' x ':=' m 'in' k" := (bind m (fun x => k))
  (at level 10, x pattern, m at level 100, k at level 200) : py_scope.

End Eff.

Import Eff.
Local Open Scope py_scope.

(** ** Ingestion: [NewsCollector] *)

Module Collector.

(** The external calls of the collector. *)
Inductive call : Type :=
| CallGet (url : list N)          (* requests.get(url, headers=..., timeout=10) *)
| CallDownload (url : list N)     (* Article(url); article.download() *)
| CallParse (url : list N)        (* article.parse() *)
| CallNow.                        (* datetime.now() *)

(** What the collector reads of an HTTP response: the status, and the
    [href] values of the [<a href=...>] tags of [response.text] in document
    order ([BeautifulSoup(response.text, "html.parser")] followed by
    [find_all("a", href=True)]). *)
Record Response : Type := {
  status_code : Z;
  anchors : list (list N)
}.

(** A [datetime]: the microseconds from the epoch to its wall-clock
    reading, and whether it is timezone-aware (it has a [tzinfo] that
    gives an offset).  The article parser gives an aware [publish_date] for
    a date written with an offset and a naive one otherwise;
    [datetime.now()] is naive. *)
Record datetime : Type := {
  microseconds : Z;
  aware : bool
}.

Definition naive (t : Z) : datetime :=
  {| microseconds := t; aware := false |}.

(** What the collector reads of a parsed [newspaper.Article]. *)
Record Parsed : Type := {
  parsed_title : list N;
  parsed_text : list N;
  publish_date : option datetime
}.

(** The outside world: the answer to each call, given the calls made
    before it; the clock gives the microseconds of the naive
    [datetime.now()]. *)
Record World : Type := {
  requests_get : list call -> list N -> outcome Response;
  article_download : list call -> list N -> outcome unit;
  article_parse : list call -> list N -> outcome Parsed;
  datetime_now : list call -> Z
}.

(** A source descriptor [{"name": ..., "url": ...}]. *)
Record Source : Type := {
  source_name : list N;
  source_url : list N
}.

(** The dictionary built by [_extract_article_content]; a row of the
    returned [DataFrame]. *)
Record Article : Type := {
  title : list N;
  text : list N;
  url : list N;
  source : list N;
  date : datetime
}.

(** The attributes of a [NewsCollector] that its methods read. *)
Record NewsCollector : Type := {
  sources : list Source;
  max_articles_per_source : Z;
  days_to_look_back : Z
}.

(** The length of [n] days in microseconds. *)
Definition microseconds_of_days (n : Z) : Z := n * 86400000000.

(** [timedelta(days=n)], in microseconds: it raises [OverflowError] for
    more than 999999999 days either way. *)
Definition timedelta (n : Z) : outcome Z :=
  if bool_decide (-999999999 ≤ n ≤ 999999999)
  then Returns (microseconds_of_days n)
  else Raises OverflowError.

(** [datetime.min] (0001-01-01 00:00:00) and [datetime.max]
    (9999-12-31 23:59:59.999999), in microseconds from the epoch
    1970-01-01. *)
Definition datetime_min : Z := -62135596800000000.
Definition datetime_max : Z := 253402300799999999.

(** [d - delta] for a naive [d]: it raises [OverflowError] when the
    result is not a [datetime]. *)
Definition datetime_sub (t delta : Z) : outcome Z :=
  if bool_decide (datetime_min ≤ t - delta ≤ datetime_max)
  then Returns (t - delta)
  else Raises OverflowError.

(** [df["date"] >= cutoff_date] for a naive [cutoff_date]: the boolean
    column of the comparison, naive dates being compared as Python
    compares datetimes.  An aware date does not compare with a naive one:
    the comparison raises [TypeError] when the column holds one. *)
Definition date_ge (dates : list datetime) (cutoff_date : Z)
    : outcome (list bool) :=
  if forallb (fun d => negb (aware d)) dates
  then Returns ((fun d => bool_decide (cutoff_date ≤ microseconds d))
                  <$> dates)
  else Raises TypeError.

(** [df[mask]]: the rows at which the boolean column [mask] is true. *)
Fixpoint boolean_index {A} (df : list A) (mask : list bool) : list A :=
  match df, mask with
  | row :: df', keep :: mask' =>
      if keep then row :: boolean_index df' mask'
      else boolean_index df' mask'
  | _, _ => []
  end.

(** The URLs on which content extraction was attempted, read off a log:
    [_extract_article_content] starts by creating and downloading the
    [Article], so each of its runs leaves exactly one [CallDownload]. *)
Definition attempts (log : list call) : list (list N) :=
  omap (fun c => match c with CallDownload u => Some u | _ => None end) log.

(** [response.raise_for_status()] raises [HTTPError] on a 4xx or 5xx
    status. *)
Definition is_error_status (r : Response) : bool :=
  (400 <=? status_code r) && (status_code r <? 600).

Definition raise_for_status (r : Response) : M (list call) unit :=
  if is_error_status r then raise HTTPError else ret tt.

Section Methods.

Variable world : World.
Variable self : NewsCollector.

Definition now : M (list call) Z :=
  external CallNow (fun log => Returns (datetime_now world log)).

(** [_extract_article_content(url, source_name)] *)
Definition _extract_article_content (url source_name : list N)
    : M (list call) (option Article) :=
  try_except
    (let! _ := external (CallDownload url)
                 (fun log => article_download world log url) in
     let! article := external (CallParse url)
                       (fun log => article_parse world log url) in
     if bool_decide (parsed_title article = [])
        || bool_decide (parsed_text article = [])
     then ret None
     else
       let! d := match publish_date article with
                 | Some d => ret d
                 | None => let! t := now in ret (naive t)
                 end in
       ret (Some {| title := parsed_title article;
                    text := parsed_text article;
                    url := url;
                    source := source_name;
                    date := d |}))
    [(is_ArticleException, fun _ => ret None);
     (is_Exception, fun _ => ret None)].

(** The loop [for url in article_links] of [_collect_from_source], from
    the list [articles] built so far. *)
Fixpoint extract_loop (name : list N) (article_links : list (list N))
    (articles : list Article) : M (list call) (list Article) :=
  match article_links with
  | [] => ret articles
  | url :: rest =>
      let! articles' :=
        try_except
          (let! article_data := _extract_article_content url name in
           ret (match article_data with
                | Some a => articles ++ [a]
                | None => articles
                end))
          [(is_Exception, fun _ => ret articles)] in
      extract_loop name rest articles'
  end.

(** [_collect_from_source(source)].  Only the fetch and the status check
    can raise into the outer [try]; at that point [articles] is still
    empty, which is what the [RequestException] clause returns. *)
Definition _collect_from_source (src : Source)
    : M (list call) (list Article) :=
  try_except
    (let! response := external (CallGet (source_url src))
                        (fun log => requests_get world log (source_url src)) in
     let! _ := raise_for_status response in
     let article_links :=
       _extract_article_links (anchors response) (source_url src) in
     let article_links :=
       slice_to (max_articles_per_source self) article_links in
     extract_loop (source_name src) article_links [])
    [(is_RequestException, fun _ => ret [])].

(** The loop [for source in self.sources] of [collect_news], from the
    list [articles_data] built so far. *)
Fixpoint sources_loop (srcs : list Source) (articles_data : list Article)
    : M (list call) (list Article) :=
  match srcs with
  | [] => ret articles_data
  | src :: rest =>
      let! articles_data' :=
        try_except
          (let! source_articles := _collect_from_source src in
           ret (articles_data ++ source_articles))
          [(is_Exception, fun _ => ret articles_data)] in
      sources_loop rest articles_data'
  end.

(** [collect_news()]; the [DataFrame] is the list of its rows.  Every row
    has a [date], so the column test of the source always succeeds on a
    non-empty frame.  What follows the loop is outside every [try]: the
    cutoff and the comparison raise to the caller. *)
Definition collect_news : M (list call) (list Article) :=
  let! articles_data := sources_loop (sources self) [] in
  if bool_decide (articles_data = []) then ret []
  else
    let! t := now in
    let! delta := lift (timedelta (days_to_look_back self)) in
    let! cutoff_date := lift (datetime_sub t delta) in
    let! mask := lift (date_ge (date <$> articles_data) cutoff_date) in
    ret (boolean_index articles_data mask).

End Methods.

(** What one source contributes to a batch: records that carry the name
    of the source and pairwise distinct URLs. *)
Definition contribution (src : Source) (seg : list Article) : Prop :=
  NoDup (url <$> seg) ∧ Forall (fun a => source a = source_name src) seg.

End Collector.

(** ** Condensation: [ArticleSummarizer] *)

Module Summarizer.

(** The external calls of the summarizer. *)
Inductive call : Type :=
| CallTokenizer (text : list N)            (* self.tokenizer(text, ...) *)
| CallGenerate (input_ids : list (list Z)) (* self.model.generate(...) *)
| CallDecode (ids : list Z)                (* self.tokenizer.decode(...) *)
| CallPipeline (text : list N).            (* self.summarization_pipeline(...) *)

(** The model runtime.  The tokenizer call stands for
    [self.tokenizer(text, return_tensors="pt", max_length=1024,
    truncation=True).to(self.device)] read at ["input_ids"]; [generate] and
    the pipeline get [max_length] and [min_length]; the pipeline answers
    with a list of dictionaries. *)
Record World : Type := {
  tokenizer_call : list call -> list N -> outcome (list (list Z));
  model_generate :
    list call -> list (list Z) -> Z -> Z -> outcome (list (list Z));
  tokenizer_decode : list call -> list Z -> outcome (list N);
  pipeline_call :
    list call -> list N -> Z -> Z -> outcome (list (gmap (list N) (list N)))
}.

(** The attributes of an [ArticleSummarizer].  [model] and [tokenizer] say
    whether the attribute holds a loaded object (true) or [None];
    [summarization_pipeline] whether the attribute was set at all, which
    [_load_model] does only when loading failed. *)
Record ArticleSummarizer : Type := {
  min_length : Z;
  max_length : Z;
  model : bool;
  tokenizer : bool;
  summarization_pipeline : bool
}.

(** [max_input_length = 1024] *)
Definition max_input_length : Z := 1024.

(** The first statements of the [try] block of [summarize], which rebind
    [text] and cannot raise:
    [if len(text.split()) > max_input_length:
       text = " ".join(text.split()[:max_input_length])]. *)
Definition truncate_input (text : list N) : list N :=
  if max_input_length <? Z.of_nat (length (split_ws text))
  then join (lit " ") (slice_to max_input_length (split_ws text))
  else text.

Section Methods.

Variable world : World.
Variable self : ArticleSummarizer.

(** [_summarize_with_pegasus(text)] *)
Definition _summarize_with_pegasus (text : list N)
    : M (list call) (list N) :=
  let! input_ids := external (CallTokenizer text)
                      (fun log => tokenizer_call world log text) in
  let! summary_ids :=
    external (CallGenerate input_ids)
      (fun log => model_generate world log input_ids
                    (max_length self) (min_length self)) in
  match summary_ids with
  | [] => raise IndexError
  | ids :: _ =>
      external (CallDecode ids) (fun log => tokenizer_decode world log ids)
  end.

(** [_summarize_with_pipeline(text)] *)
Definition _summarize_with_pipeline (text : list N)
    : M (list call) (list N) :=
  if summarization_pipeline self then
    let! summary :=
      external (CallPipeline text)
        (fun log => pipeline_call world log text
                      (max_length self) (min_length self)) in
    match summary with
    | [] => raise IndexError
    | d :: _ =>
        match d !! lit "summary_text" with
        | Some v => ret v
        | None => raise KeyError
        end
    end
  else raise AttributeError.

(** The generation path [summarize] chooses:
    [if self.model and self.tokenizer: ... else: ...]. *)
Definition generation_path (text : list N) : M (list call) (list N) :=
  if model self && tokenizer self then _summarize_with_pegasus text
  else _summarize_with_pipeline text.

(** [summarize(text)] *)
Definition summarize (text : list N) : M (list call) (list N) :=
  if bool_decide (text = []) then ret []
  else
    let text := truncate_input text in
    try_except
      (generation_path text)
      [(is_Exception, fun _ => ret (slice_to 500 text ++ lit "..."))].

(** [batch_summarize(texts)]: [[self.summarize(text) for text in texts]] *)
Fixpoint batch_summarize (texts : list (list N))
    : M (list call) (list (list N)) :=
  match texts with
  | [] => ret []
  | text :: rest =>
      let! summary := summarize text in
      let! summaries := batch_summarize rest in
      ret (summary :: summaries)
  end.

End Methods.

End Summarizer.

(** ** Stylization: [HumorGenerator] *)

Module Humorizer.

(** The arguments of [openai.ChatCompletion.create]; a message is its
    role and its content. *)
Record Request : Type := {
  req_model : list N;
  req_messages : list (list N * list N);
  req_temperature : float;
  req_max_tokens : Z
}.

Inductive call : Type :=
| CallChatCompletion (r : Request).

(** The outside world: the module-level [openai.api_key], and the chat
    API, which answers with the contents of [response.choices[i].message]
    ([None] where there is no content). *)
Record World : Type := {
  api_key : option (list N);
  chat_completion_create :
    list call -> Request -> outcome (list (option (list N)))
}.

(** The attributes of a [HumorGenerator]. *)
Record HumorGenerator : Type := {
  model : list N;
  temperature : float;
  max_tokens : Z
}.

(** Article dictionaries are mutable objects: a list of articles is a
    list of references into a heap of dictionaries. *)
Record State : Type := {
  heap : gmap nat (gmap (list N) (list N));
  log : list call
}.

(** [not openai.api_key]: [None] and the empty string are falsy. *)
Definition no_api_key (key : option (list N)) : bool :=
  match key with
  | None => true
  | Some k => bool_decide (k = [])
  end.

(** [_create_prompt(title, summary)] *)
Definition _create_prompt (title summary : list N) : list N :=
  nl ++ lit "        Rewrite this AI news summary in a humorous, entertaining way:"
  ++ nl ++ lit "        "
  ++ nl ++ lit "        Title: " ++ title
  ++ nl ++ lit "        Summary: " ++ summary
  ++ nl ++ lit "        "
  ++ nl ++ lit "        Make it witty, include some puns related to AI, and maintain all the key facts."
  ++ nl ++ lit "        Format as a short, funny news segment that would make people laugh while still being informative."
  ++ nl ++ lit "        ".

(** The pass-through value [f"{title}\n\n{summary}"]. *)
Definition pass_through (title summary : list N) : list N :=
  title ++ nl ++ nl ++ summary.

Section Methods.

Variable world : World.
Variable self : HumorGenerator.

Definition chat (r : Request) : M State (list (option (list N))) :=
  fun st =>
    (chat_completion_create world (log st) r,
     {| heap := heap st; log := log st ++ [CallChatCompletion r] |}).

(** The arguments [add_humor] passes to [openai.ChatCompletion.create]. *)
Definition humor_request (prompt : list N) : Request :=
  {| req_model := model self;
     req_messages :=
       [(lit "system",
         lit "You are a witty tech journalist specializing in AI news with a great sense of humor.");
        (lit "user", prompt)];
     req_temperature := temperature self;
     req_max_tokens := max_tokens self |}.

(** [add_humor(title, summary)] *)
Definition add_humor (title summary : list N) : M State (list N) :=
  if no_api_key (api_key world) then ret (pass_through title summary)
  else
    try_except
      (let prompt := _create_prompt title summary in
       let! choices := chat (humor_request prompt) in
       (* response.choices[0].message.content.strip() *)
       match choices with
       | [] => raise IndexError
       | None :: _ => raise AttributeError
       | Some content :: _ => ret (strip content)
       end)
      [(is_Exception, fun _ => ret (pass_through title summary))].

(** Reading the dictionary behind a reference.  Python has no dangling
    reference; the model stops with an exception on one. *)
Definition deref (article : nat) : M State (gmap (list N) (list N)) :=
  fun st =>
    match heap st !! article with
    | Some d => (Returns d, st)
    | None => (Raises OtherException, st)
    end.

(** [article[key]] *)
Definition getitem (d : gmap (list N) (list N)) (key : list N)
    : M State (list N) :=
  match d !! key with
  | Some v => ret v
  | None => raise KeyError
  end.

(** [article[key] = value], in place. *)
Definition setitem (article : nat) (key value : list N) : M State unit :=
  fun st =>
    (Returns tt,
     {| heap := alter (insert key value) article (heap st); log := log st |}).

(** [key in article] *)
Definition has_key (key : list N) (d : gmap (list N) (list N)) : bool :=
  bool_decide (is_Some (d !! key)).

(** The loop [for article in articles] of [batch_add_humor]. *)
Fixpoint batch_loop (articles : list nat) : M State unit :=
  match articles with
  | [] => ret tt
  | article :: rest =>
      let! d := deref article in
      let! _ :=
        if has_key (lit "title") d && has_key (lit "summary") d then
          let! t := getitem d (lit "title") in
          let! s := getitem d (lit "summary") in
          let! h := add_humor t s in
          setitem article (lit "humorous_content") h
        else ret tt in
      batch_loop rest
  end.

(** [batch_add_humor(articles)]: the list passed in is returned. *)
Definition batch_add_humor (articles : list nat) : M State (list nat) :=
  let! _ := batch_loop articles in
  ret articles.

End Methods.

(** A generative request fails when the call raises (network or API
    error) or its answer is malformed: no choice, or a first choice
    without content. *)
Definition request_fails (answer : outcome (list (option (list N))))
    : Prop :=
  match answer with
  | Raises _ => True
  | Returns [] => True
  | Returns (None :: _) => True
  | Returns (Some _ :: _) => False
  end.

(** The frame of the loop of [batch_add_humor]: every dictionary stays
    allocated, and one that lacks a key the loop tests stays as it is. *)
Definition preserves (st st' : State) : Prop :=
  ∀ l d, heap st !! l = Some d →
    ∃ d', heap st' !! l = Some d'
          ∧ (has_key (lit "title") d && has_key (lit "summary") d = false →
             d' = d).

End Humorizer.

(** ** Concrete worlds and configurations *)

Module Scenarios.

Import Collector.

(** The collector of [tests/test_collector.py]. *)
Definition test_sources : list Source :=
  [ {| source_name := lit "Test Source 1";
       source_url := lit "https://example.com/news1" |};
    {| source_name := lit "Test Source 2";
       source_url := lit "https://example.com/news2" |} ].

Definition test_collector : NewsCollector :=
  {| sources := test_sources;
     max_articles_per_source := 2;
     days_to_look_back := 1 |}.

(** A clock that moves on by a millisecond with every external call. *)
Definition ticking_clock (log : list call) : Z :=
  1700000000000000 + 1000 * Z.of_nat (length log).

(** A web on which both landing pages link to the same story, which
    parses to a title and a body without a publish date. *)
Definition shared_story_world : World :=
  {| requests_get := fun _ _ =>
       Returns {| status_code := 200;
                  anchors := [lit "https://example.com/story"] |};
     article_download := fun _ _ => Returns tt;
     article_parse := fun _ _ =>
       Returns {| parsed_title := lit "Story";
                  parsed_text := lit "Body";
                  publish_date := None |};
     datetime_now := ticking_clock |}.

(** A web whose landing page links to three articles: one published two
    days before the moment the batch is filtered, one published at that
    moment, one without a publish date. *)
Definition filter_time : Z := 1700000000000000 + 1000 * 5.

Definition dated_world : World :=
  {| requests_get := fun _ _ =>
       Returns {| status_code := 200;
                  anchors := [lit "/old"; lit "/fresh"; lit "/undated"] |};
     article_download := fun _ _ => Returns tt;
     article_parse := fun _ u =>
       Returns {| parsed_title := lit "Title";
                  parsed_text := lit "Body";
                  publish_date :=
                    if bool_decide (u = lit "https://example.com/old")
                    then Some (naive (filter_time - microseconds_of_days 2))
                    else if bool_decide (u = lit "https://example.com/fresh")
                    then Some (naive (filter_time - microseconds_of_days 0))
                    else None |};
     datetime_now := ticking_clock |}.

Definition one_source_collector : NewsCollector :=
  {| sources := [ {| source_name := lit "Test Source 1";
                     source_url := lit "https://example.com/news1" |} ];
     max_articles_per_source := 2;
     days_to_look_back := 1 |}.



End Scenarios.

Module SummarizerScenarios.

Import Summarizer.

(** A runtime whose tokenizer raises on every call. *)
Definition failing_world : World :=
  {| tokenizer_call := fun _ _ => Raises OtherException;
     model_generate := fun _ _ _ _ => Returns [];
     tokenizer_decode := fun _ _ => Returns [];
     pipeline_call := fun _ _ _ _ => Raises OtherException |}.

(** A summarizer in the primed state, with the default lengths. *)
Definition primed : ArticleSummarizer :=
  {| min_length := 50; max_length := 150;
     model := true; tokenizer := true;
     summarization_pipeline := false |}.

(** A text of 1025 words. *)
Definition long_text : list N := concat (replicate 1025 (lit "ab ")).

End SummarizerScenarios.

Module HumorizerScenarios.

Import Humorizer.

Definition default_generator : HumorGenerator :=
  {| model := lit "gpt-4";
     temperature := 0x1.6666666666666p-1%float;   (* 0.7 *)
     max_tokens := 500 |}.

(** No credential configured. *)
Definition no_key_world : World :=
  {| api_key := None;
     chat_completion_create := fun _ _ => Returns [Some (lit "funny")] |}.

(** A credential, and an API that raises
    ([tests/test_humorizer.py::test_add_humor_api_error]). *)
Definition api_error_world : World :=
  {| api_key := Some (lit "test_api_key");
     chat_completion_create := fun _ _ => Raises OtherException |}.

(** A credential, and an API that answers. *)
Definition answering_world : World :=
  {| api_key := Some (lit "test_api_key");
     chat_completion_create := fun _ _ => Returns [Some (lit " funny ")] |}.

(** Two article dictionaries: a complete one and one without summary. *)
Definition complete_article : gmap (list N) (list N) :=
  <[lit "title" := lit "T"]> (<[lit "summary" := lit "S"]> ∅).

Definition unsummarized_article : gmap (list N) (list N) :=
  <[lit "title" := lit "U"]> ∅.

Definition two_articles : State :=
  {| heap := <[0%nat := complete_article]>
               (<[1%nat := unsummarized_article]> ∅);
     log := [] |}.

End HumorizerScenarios.

(** ** Further definitions for the properties of the collector *)

Module CollectorMore.

Import Collector.

(** A record as the collector builds them from one of the sources
    [srcs]: title, text and URL are non-empty and the source is the name
    of one of [srcs]. *)
Definition sound_record (srcs : list Source) (a : Article) : Prop :=
  title a ≠ [] ∧ text a ≠ [] ∧ url a ≠ []
  ∧ ∃ src, src ∈ srcs ∧ source a = source_name src.


(** What the run of [_collect_from_source] on one source gave: the
    records it returned, none when it raised, and the calls it made. *)
Record SourceRun : Type := {
  records : list Article;
  calls : list call
}.

(** The runs of [_collect_from_source] on the sources [srcs] in turn,
    each from the log the runs before it left, and the log after the
    last. *)
Fixpoint source_runs (world : World) (self : NewsCollector)
    (srcs : list Source) (log : list call) : list SourceRun * list call :=
  match srcs with
  | [] => ([], log)
  | src :: rest =>
      let (r, log1) := _collect_from_source world self src log in
      let (runs, log') := source_runs world self rest log1 in
      ({| records := match r with Returns arts => arts | Raises _ => [] end;
          calls := drop (length log) log1 |} :: runs, log')
  end.

(** The date test of [collect_news] at the clock reading [t]. *)
Definition recent (self : NewsCollector) (t : Z) (a : Article) : Prop :=
  t - microseconds_of_days (days_to_look_back self) ≤ microseconds (date a).

#[global] Instance recent_dec (self : NewsCollector) (t : Z) (a : Article)
    : Decision (recent self t a).
Proof. unfold recent. apply _. Defined.

(** The condition under which the cutoff and the comparison of
    [collect_news] do not raise, on the merged records [merged] at the
    clock reading [t]. *)
Definition filter_defined (self : NewsCollector) (t : Z)
    (merged : list Article) : Prop :=
  -999999999 ≤ days_to_look_back self ≤ 999999999
  ∧ datetime_min
    ≤ t - microseconds_of_days (days_to_look_back self)
    ≤ datetime_max
  ∧ Forall (fun a => aware (date a) = false) merged.

End CollectorMore.

Module MoreScenarios.

Import Collector.

(** A web that cannot be reached. *)
Definition offline_world : World :=
  {| requests_get := fun _ _ => Raises RequestException;
     article_download := fun _ _ => Raises ArticleException;
     article_parse := fun _ _ => Raises ArticleException;
     datetime_now := Scenarios.ticking_clock |}.


(** A web whose one story is dated with an offset, an hour before the
    clock of [Scenarios.ticking_clock] starts. *)
Definition aware_world : World :=
  {| requests_get := requests_get Scenarios.shared_story_world;
     article_download := article_download Scenarios.shared_story_world;
     article_parse := fun _ _ =>
       Returns {| parsed_title := lit "Story";
                  parsed_text := lit "Body";
                  publish_date :=
                    Some {| microseconds := 1700000000000000 - 3600000000;
                            aware := true |} |};
     datetime_now := Scenarios.ticking_clock |}.


(** The test collector with a negative cap, as [collector.main] would
    build it from [MAX_ARTICLES_PER_SOURCE=-1]. *)
Definition negative_cap_collector : NewsCollector :=
  {| sources := Scenarios.test_sources;
     max_articles_per_source := -1;
     days_to_look_back := 1 |}.

Definition source1 : Source :=
  {| source_name := lit "Test Source 1";
     source_url := lit "https://example.com/news1" |}.

End MoreScenarios.

(** ** Construction of the summarizer: [ArticleSummarizer.__init__] *)

Module SummarizerInit.

Import Summarizer.

(** The external calls of the constructor. *)
Inductive call : Type :=
| CallCudaAvailable                              (* torch.cuda.is_available() *)
| CallLoadTokenizer (model_name : list N)        (* PegasusTokenizer.from_pretrained *)
| CallLoadModel (model_name : list N) (cuda : bool)
      (* PegasusForConditionalGeneration.from_pretrained(...).to(device) *)
| CallMakePipeline (device : Z).                 (* pipeline("summarization", device=...) *)

Record World : Type := {
  cuda_is_available : list call -> bool;
  tokenizer_from_pretrained : list call -> list N -> outcome unit;
  model_from_pretrained : list call -> list N -> bool -> outcome unit;
  pipeline_factory : list call -> Z -> outcome unit
}.

Section Methods.

Variable world : World.

(** [_load_model()], on the instance under construction; [cuda] says
    whether [self.device] is ["cuda"].  A loaded tokenizer or model is a
    truthy object. *)
Definition _load_model (model_name : list N) (cuda : bool)
    (self : ArticleSummarizer) : M (list call) ArticleSummarizer :=
  try_except
    (let! _ := external (CallLoadTokenizer model_name)
                 (fun log => tokenizer_from_pretrained world log model_name) in
     let self := {| min_length := min_length self;
                    max_length := max_length self;
                    model := model self;
                    tokenizer := true;
                    summarization_pipeline := summarization_pipeline self |} in
     let! _ := external (CallLoadModel model_name cuda)
                 (fun log => model_from_pretrained world log model_name cuda) in
     ret {| min_length := min_length self;
            max_length := max_length self;
            model := true;
            tokenizer := tokenizer self;
            summarization_pipeline := summarization_pipeline self |})
    [(is_Exception, fun _ =>
        let device := if cuda then 0 else -1 in
        let! _ := external (CallMakePipeline device)
                    (fun log => pipeline_factory world log device) in
        ret {| min_length := min_length self;
               max_length := max_length self;
               model := false;
               tokenizer := false;
               summarization_pipeline := true |})].

(** [ArticleSummarizer(model_name, min_length, max_length, use_gpu)] *)
Definition __init__ (model_name : list N) (min_len max_len : Z)
    (use_gpu : bool) : M (list call) ArticleSummarizer :=
  let! available := external CallCudaAvailable
                      (fun log => Returns (cuda_is_available world log)) in
  let cuda := available && use_gpu in
  _load_model model_name cuda
    {| min_length := min_len; max_length := max_len;
       model := false; tokenizer := false;
       summarization_pipeline := false |}.

End Methods.

(** The two states of a constructed summarizer. *)
Definition is_primed (s : ArticleSummarizer) : Prop :=
  model s = true ∧ tokenizer s = true ∧ summarization_pipeline s = false.

Definition is_degraded (s : ArticleSummarizer) : Prop :=
  model s = false ∧ tokenizer s = false ∧ summarization_pipeline s = true.

(** A runtime without the model files but with a working pipeline. *)
Definition no_model_world : World :=
  {| cuda_is_available := fun _ => false;
     tokenizer_from_pretrained := fun _ _ => Returns tt;
     model_from_pretrained := fun _ _ _ => Raises OtherException;
     pipeline_factory := fun _ _ => Returns tt |}.

End SummarizerInit.

(** ** Further definitions for the properties of the humor generator *)

Module HumorizerMore.

Import Humorizer.

(** The test of the loop of [batch_add_humor], on a dictionary and on the
    dictionary behind a reference. *)
Definition complete (d : gmap (list N) (list N)) : bool :=
  has_key (lit "title") d && has_key (lit "summary") d.

Definition complete_at (st : State) (article : nat) : bool :=
  match heap st !! article with
  | Some d => complete d
  | None => false
  end.

(** [d'] is [d] with a ["humorous_content"] set, which without a
    credential is the pass-through of its title and summary. *)
Definition stylized (world : World) (d d' : gmap (list N) (list N)) : Prop :=
  ∃ h, d' = <[lit "humorous_content" := h]> d
       ∧ (no_api_key (api_key world) = true →
          ∀ t s, d !! lit "title" = Some t → d !! lit "summary" = Some s →
                 h = pass_through t s).

(** The number of requests a batch makes: one per entry of the list
    whose dictionary is complete, none without a credential. *)
Definition expected_requests (world : World) (st : State)
    (articles : list nat) : nat :=
  if no_api_key (api_key world) then 0%nat
  else length (filter (fun l => complete_at st l = true) articles).

End HumorizerMore.

(** ** Configuration: [utils/config.py] *)

Module Config.

(** The configuration dictionary built by [_load_config]: its ten keys
    and the types of their values.  A missing [OPENAI_API_KEY] is
    [None]. *)
Record Settings : Type := {
  openai_api_key : option (list N);
  max_articles_per_source : Z;
  days_to_look_back : Z;
  summary_min_length : Z;
  summary_max_length : Z;
  summarization_model : list N;
  humor_temperature : float;
  humor_model : list N;
  output_format : list N;
  output_directory : list N
}.

(** The four keys of the loop "Validate numeric values". *)
Inductive numeric_key : Type :=
| MaxArticlesPerSource
| DaysToLookBack
| SummaryMinLength
| SummaryMaxLength.

(** [self.config[key]] and [self.config[key] = v] on these keys. *)
Definition get_numeric (c : Settings) (key : numeric_key) : Z :=
  match key with
  | MaxArticlesPerSource => max_articles_per_source c
  | DaysToLookBack => days_to_look_back c
  | SummaryMinLength => summary_min_length c
  | SummaryMaxLength => summary_max_length c
  end.

Definition set_numeric (c : Settings) (key : numeric_key) (v : Z)
    : Settings :=
  {| openai_api_key := openai_api_key c;
     max_articles_per_source :=
       match key with MaxArticlesPerSource => v
                 | _ => max_articles_per_source c end;
     days_to_look_back :=
       match key with DaysToLookBack => v | _ => days_to_look_back c end;
     summary_min_length :=
       match key with SummaryMinLength => v | _ => summary_min_length c end;
     summary_max_length :=
       match key with SummaryMaxLength => v | _ => summary_max_length c end;
     summarization_model := summarization_model c;
     humor_temperature := humor_temperature c;
     humor_model := humor_model c;
     output_format := output_format c;
     output_directory := output_directory c |}.

(** The defaults of the [if]/[elif] chain. *)
Definition default_numeric (key : numeric_key) : Z :=
  match key with
  | MaxArticlesPerSource => 5
  | DaysToLookBack => 3
  | SummaryMinLength => 50
  | SummaryMaxLength => 150
  end.

(** One iteration of the loop: [if self.config[key] <= 0: ...]. *)
Definition validate_numeric (c : Settings) (key : numeric_key) : Settings :=
  if get_numeric c key <=? 0 then set_numeric c key (default_numeric key)
  else c.

(** The float [0.7]. *)
Definition default_temperature : float := 0x1.6666666666666p-1%float.

(** [0.0 <= t <= 1.0] on floats. *)
Definition temperature_in_range (t : float) : bool :=
  PrimFloat.leb 0%float t && PrimFloat.leb t 1%float.

(** [_validate_config()], on the dictionary. *)
Definition _validate_config (c : Settings) : Settings :=
  let c := fold_left validate_numeric
             [MaxArticlesPerSource; DaysToLookBack;
              SummaryMinLength; SummaryMaxLength] c in
  let c :=
    if negb (temperature_in_range (humor_temperature c)) then
      {| openai_api_key := openai_api_key c;
         max_articles_per_source := max_articles_per_source c;
         days_to_look_back := days_to_look_back c;
         summary_min_length := summary_min_length c;
         summary_max_length := summary_max_length c;
         summarization_model := summarization_model c;
         humor_temperature := default_temperature;
         humor_model := humor_model c;
         output_format := output_format c;
         output_directory := output_directory c |}
    else c in
  if bool_decide (output_format c ∉ [lit "markdown"; lit "html"]) then
    {| openai_api_key := openai_api_key c;
       max_articles_per_source := max_articles_per_source c;
       days_to_look_back := days_to_look_back c;
       summary_min_length := summary_min_length c;
       summary_max_length := summary_max_length c;
       summarization_model := summarization_model c;
       humor_temperature := humor_temperature c;
       humor_model := humor_model c;
       output_format := lit "markdown";
       output_directory := output_directory c |}
  else c.

(** A Python value of the dictionary. *)
Inductive value : Type :=
| VNone
| VStr (s : list N)
| VInt (n : Z)
| VFloat (x : float).

(** [self.config.get(key)] as an option: [None] when the key is not one
    of the ten. *)
Definition lookup (c : Settings) (key : list N) : option value :=
  if bool_decide (key = lit "openai_api_key") then
    Some (match openai_api_key c with Some k => VStr k | None => VNone end)
  else if bool_decide (key = lit "max_articles_per_source") then
    Some (VInt (max_articles_per_source c))
  else if bool_decide (key = lit "days_to_look_back") then
    Some (VInt (days_to_look_back c))
  else if bool_decide (key = lit "summary_min_length") then
    Some (VInt (summary_min_length c))
  else if bool_decide (key = lit "summary_max_length") then
    Some (VInt (summary_max_length c))
  else if bool_decide (key = lit "summarization_model") then
    Some (VStr (summarization_model c))
  else if bool_decide (key = lit "humor_temperature") then
    Some (VFloat (humor_temperature c))
  else if bool_decide (key = lit "humor_model") then
    Some (VStr (humor_model c))
  else if bool_decide (key = lit "output_format") then
    Some (VStr (output_format c))
  else if bool_decide (key = lit "output_directory") then
    Some (VStr (output_directory c))
  else None.

(** [Config.get(key, default)] *)
Definition get (c : Settings) (key : list N) (default : value) : value :=
  match lookup c key with
  | Some v => v
  | None => default
  end.

(** The keys of the dictionary. *)
Definition keys : list (list N) :=
  [lit "openai_api_key"; lit "max_articles_per_source";
   lit "days_to_look_back"; lit "summary_min_length";
   lit "summary_max_length"; lit "summarization_model";
   lit "humor_temperature"; lit "humor_model"; lit "output_format";
   lit "output_directory"].

(** What [_validate_config] establishes. *)
Definition valid (c : Settings) : Prop :=
  0 < max_articles_per_source c ∧ 0 < days_to_look_back c
  ∧ 0 < summary_min_length c ∧ 0 < summary_max_length c
  ∧ temperature_in_range (humor_temperature c) = true
  ∧ (output_format c = lit "markdown" ∨ output_format c = lit "html").

Section Load.

(** Python's [int(s)] and [float(s)] on a string, [None] where they
    raise [ValueError]. *)
Variable py_int : list N -> option Z.
Variable py_float : list N -> option float.

(** [os.getenv(name, default)] on the environment [environ]. *)
Definition getenv (environ : gmap (list N) (list N)) (name default : list N)
    : list N :=
  match environ !! name with
  | Some v => v
  | None => default
  end.

(** [int(os.getenv(name, default))] and [float(os.getenv(name, default))];
    [ValueError] is one of the other exceptions. *)
Definition int_env (environ : gmap (list N) (list N)) (name default : list N)
    : outcome Z :=
  match py_int (getenv environ name default) with
  | Some n => Returns n
  | None => Raises OtherException
  end.

Definition float_env (environ : gmap (list N) (list N))
    (name default : list N) : outcome float :=
  match py_float (getenv environ name default) with
  | Some x => Returns x
  | None => Raises OtherException
  end.

(** [_load_config()]: the dictionary display is evaluated in order, so
    the first value that does not parse raises. *)
Definition _load_config (environ : gmap (list N) (list N))
    : outcome Settings :=
  match int_env environ (lit "MAX_ARTICLES_PER_SOURCE") (lit "5") with
  | Raises e => Raises e
  | Returns max_articles =>
  match int_env environ (lit "DAYS_TO_LOOK_BACK") (lit "3") with
  | Raises e => Raises e
  | Returns days =>
  match int_env environ (lit "SUMMARY_MIN_LENGTH") (lit "50") with
  | Raises e => Raises e
  | Returns min_len =>
  match int_env environ (lit "SUMMARY_MAX_LENGTH") (lit "150") with
  | Raises e => Raises e
  | Returns max_len =>
  match float_env environ (lit "HUMOR_TEMPERATURE") (lit "0.7") with
  | Raises e => Raises e
  | Returns temperature =>
      Returns
        {| openai_api_key := environ !! lit "OPENAI_API_KEY";
           max_articles_per_source := max_articles;
           days_to_look_back := days;
           summary_min_length := min_len;
           summary_max_length := max_len;
           summarization_model :=
             getenv environ (lit "SUMMARIZATION_MODEL")
               (lit "google/pegasus-cnn_dailymail");
           humor_temperature := temperature;
           humor_model := getenv environ (lit "HUMOR_MODEL") (lit "gpt-4");
           output_format := getenv environ (lit "OUTPUT_FORMAT")
                              (lit "markdown");
           output_directory := getenv environ (lit "OUTPUT_DIRECTORY")
                                 (lit "./output") |}
  end end end end end.

(** [Config(env_file)], on the environment as [load_dotenv] leaves it:
    load, then validate. *)
Definition __init__ (environ : gmap (list N) (list N)) : outcome Settings :=
  match _load_config environ with
  | Returns c => Returns (_validate_config c)
  | Raises e => Raises e
  end.

End Load.

(** The settings of [tests/test_config.py::test_load_config]. *)
Definition test_settings : Settings :=
  {| openai_api_key := Some (lit "test_api_key");
     max_articles_per_source := 10;
     days_to_look_back := 5;
     summary_min_length := 30;
     summary_max_length := 100;
     summarization_model := lit "test/model";
     humor_temperature := 0.5%float;
     humor_model := lit "test-model";
     output_format := lit "html";
     output_directory := lit "./test_output" |}.

(** Settings with everything out of range. *)
Definition bad_settings : Settings :=
  {| openai_api_key := None;
     max_articles_per_source := -1;
     days_to_look_back := 0;
     summary_min_length := -50;
     summary_max_length := 0;
     summarization_model := lit "test/model";
     humor_temperature := 2%float;
     humor_model := lit "test-model";
     output_format := lit "invalid";
     output_directory := lit "./test_output" |}.

End Config.

(** ** More of Python's strings and paths *)

Module PyMore.

(** The double quote of a literal. *)
Definition dq : list N := [34%N].

(** [s.replace(old, new)] for a one-character [old]. *)
Fixpoint replace_char (old : N) (new : list N) (s : list N) : list N :=
  match s with
  | [] => []
  | c :: s' =>
      (if (c =? old)%N then new else [c]) ++ replace_char old new s'
  end.

(** [s.endswith(suffix)] *)
Definition endswith (suffix s : list N) : bool :=
  startswith (reverse suffix) (reverse s).

(** [os.path.join(path, b)] of [posixpath]. *)
Definition path_join (path b : list N) : list N :=
  if startswith (lit "/") b then b
  else if bool_decide (path = []) || endswith (lit "/") path then path ++ b
  else path ++ lit "/" ++ b.

End PyMore.

Import PyMore.

(** ** Output: [NewsletterFormatter] *)

Module Formatter.

(** The external calls of the formatter. *)
Inductive call : Type :=
| CallStrftime (format : list N)       (* datetime.now().strftime(format) *)
| CallWrite (filepath content : list N).
      (* with open(filepath, "w", encoding="utf-8") as f: f.write(content) *)

Record World : Type := {
  strftime : list call -> list N -> list N;
  write_file : list call -> list N -> list N -> outcome unit
}.

(** The attributes of a [NewsletterFormatter], as [__init__] stored
    them. *)
Record NewsletterFormatter : Type := {
  output_format : list N;
  output_directory : list N
}.

(** The template of [_format_html] up to the first date. *)
Definition html_head_open : list N :=
  lit "<!DOCTYPE html>" ++ nl ++ lit "        <html>" ++ nl
  ++ lit "        <head>" ++ nl ++ lit "            <meta charset=" ++ dq
  ++ lit "UTF-8" ++ dq ++ lit ">" ++ nl ++ lit "            <meta name="
  ++ dq ++ lit "viewport" ++ dq ++ lit " content=" ++ dq
  ++ lit "width=device-width, initial-scale=1.0" ++ dq ++ lit ">" ++ nl
  ++ lit "            <title>AI News with a Twist - ".

(** From the first date to the second. *)
Definition html_head_style : list N :=
  lit "</title>" ++ nl ++ lit "            <style>" ++ nl
  ++ lit "                body {" ++ nl
  ++ lit "                    font-family: Arial, sans-serif;" ++ nl
  ++ lit "                    line-height: 1.6;" ++ nl
  ++ lit "                    max-width: 800px;" ++ nl
  ++ lit "                    margin: 0 auto;" ++ nl
  ++ lit "                    padding: 20px;" ++ nl
  ++ lit "                }" ++ nl ++ lit "                h1 {" ++ nl
  ++ lit "                    color: #2c3e50;" ++ nl
  ++ lit "                    text-align: center;" ++ nl
  ++ lit "                }" ++ nl ++ lit "                h2 {" ++ nl
  ++ lit "                    color: #3498db;" ++ nl
  ++ lit "                }" ++ nl ++ lit "                .article {" ++ nl
  ++ lit "                    margin-bottom: 30px;" ++ nl
  ++ lit "                    padding-bottom: 20px;" ++ nl
  ++ lit "                    border-bottom: 1px solid #eee;" ++ nl
  ++ lit "                }" ++ nl ++ lit "                .source {" ++ nl
  ++ lit "                    font-style: italic;" ++ nl
  ++ lit "                    color: #7f8c8d;" ++ nl
  ++ lit "                }" ++ nl ++ lit "                .footer {" ++ nl
  ++ lit "                    text-align: center;" ++ nl
  ++ lit "                    margin-top: 30px;" ++ nl
  ++ lit "                    font-size: 0.8em;" ++ nl
  ++ lit "                    color: #7f8c8d;" ++ nl
  ++ lit "                }" ++ nl ++ lit "            </style>" ++ nl
  ++ lit "        </head>" ++ nl ++ lit "        <body>" ++ nl
  ++ lit "            <h1>AI News with a Twist - ".

(** After the second date. *)
Definition html_head_close : list N :=
  lit "</h1>" ++ nl ++ lit "        ".

(** The block of an article up to its title. *)
Definition html_article_open : list N :=
  nl ++ lit "                <div class=" ++ dq ++ lit "article" ++ dq
  ++ lit ">" ++ nl ++ lit "                    <h2>".

(** From the title to the content. *)
Definition html_article_content : list N :=
  lit "</h2>" ++ nl ++ lit "                    <div class=" ++ dq
  ++ lit "content" ++ dq ++ lit ">" ++ nl ++ lit "                        ".

(** After the content. *)
Definition html_article_close : list N :=
  nl ++ lit "                    </div>" ++ nl ++ lit "                ".

(** The source paragraph up to the URL. *)
Definition html_source_open : list N :=
  nl ++ lit "                    <p class=" ++ dq ++ lit "source" ++ dq
  ++ lit ">" ++ nl ++ lit "                        Source: <a href=" ++ dq.

(** From the URL to the source name. *)
Definition html_source_middle : list N :=
  dq ++ lit " target=" ++ dq ++ lit "_blank" ++ dq ++ lit ">".

(** After the source name. *)
Definition html_source_close : list N :=
  lit "</a>" ++ nl ++ lit "                    </p>" ++ nl
  ++ lit "                    ".

(** The footer up to the time stamp. *)
Definition html_footer_open : list N :=
  nl ++ lit "            <div class=" ++ dq ++ lit "footer" ++ dq ++ lit ">"
  ++ nl ++ lit "                Generated on ".

(** The footer after the time stamp. *)
Definition html_footer_close : list N :=
  lit " by AI News Summarizer" ++ nl ++ lit "            </div>" ++ nl
  ++ lit "        </body>" ++ nl ++ lit "        </html>" ++ nl
  ++ lit "        ".

(** [key in article], [article[key]], [article.get(key, default)]. *)
Definition has_key (key : list N) (article : gmap (list N) (list N))
    : bool :=
  bool_decide (is_Some (article !! key)).

Definition getitem (article : gmap (list N) (list N)) (key : list N)
    : M (list call) (list N) :=
  match article !! key with
  | Some v => ret v
  | None => raise KeyError
  end.

Definition get_default (article : gmap (list N) (list N))
    (key default : list N) : list N :=
  match article !! key with
  | Some v => v
  | None => default
  end.

Section Methods.

Variable world : World.
Variable self : NewsletterFormatter.

Definition now_strftime (format : list N) : M (list call) (list N) :=
  external (CallStrftime format)
    (fun log => Returns (strftime world log format)).

(** One iteration of the loop of [_format_markdown], on the text built
    so far. *)
Definition markdown_step (newsletter : list N)
    (article : gmap (list N) (list N)) : M (list call) (list N) :=
  if has_key (lit "humorous_content") article then
    let newsletter :=
      newsletter ++ lit "## "
      ++ get_default article (lit "title") (lit "Untitled Article")
      ++ nl ++ nl in
    let! content := getitem article (lit "humorous_content") in
    let newsletter := newsletter ++ content ++ nl ++ nl in
    let! newsletter :=
      if has_key (lit "url") article && has_key (lit "source") article then
        let! source := getitem article (lit "source") in
        let! url := getitem article (lit "url") in
        ret (newsletter ++ lit "*Source: [" ++ source ++ lit "](" ++ url
             ++ lit ")*" ++ nl ++ nl)
      else ret newsletter in
    ret (newsletter ++ lit "---" ++ nl ++ nl)
  else ret newsletter.

Fixpoint markdown_loop (articles : list (gmap (list N) (list N)))
    (newsletter : list N) : M (list call) (list N) :=
  match articles with
  | [] => ret newsletter
  | article :: rest =>
      let! newsletter := markdown_step newsletter article in
      markdown_loop rest newsletter
  end.

(** [_format_markdown(articles)] *)
Definition _format_markdown (articles : list (gmap (list N) (list N)))
    : M (list call) (list N) :=
  let! current_date := now_strftime (lit "%Y-%m-%d") in
  let newsletter :=
    lit "# AI News with a Twist - " ++ current_date ++ nl ++ nl in
  let! newsletter := markdown_loop articles newsletter in
  let! stamp := now_strftime (lit "%Y-%m-%d %H:%M:%S") in
  ret (newsletter ++ nl ++ nl ++ lit "*Generated on " ++ stamp
       ++ lit " by AI News Summarizer*").

(** One iteration of the loop of [_format_html]. *)
Definition html_step (html : list N) (article : gmap (list N) (list N))
    : M (list call) (list N) :=
  if has_key (lit "humorous_content") article then
    let! humorous_content := getitem article (lit "humorous_content") in
    let content := replace_char 10%N (lit "<br>") humorous_content in
    let html :=
      html ++ html_article_open
      ++ get_default article (lit "title") (lit "Untitled Article")
      ++ html_article_content ++ content ++ html_article_close in
    let! html :=
      if has_key (lit "url") article && has_key (lit "source") article then
        let! url := getitem article (lit "url") in
        let! source := getitem article (lit "source") in
        ret (html ++ html_source_open ++ url ++ html_source_middle
             ++ source ++ html_source_close)
      else ret html in
    ret (html ++ lit "</div>")
  else ret html.

Fixpoint html_loop (articles : list (gmap (list N) (list N)))
    (html : list N) : M (list call) (list N) :=
  match articles with
  | [] => ret html
  | article :: rest =>
      let! html := html_step html article in
      html_loop rest html
  end.

(** [_format_html(articles)] *)
Definition _format_html (articles : list (gmap (list N) (list N)))
    : M (list call) (list N) :=
  let! current_date := now_strftime (lit "%Y-%m-%d") in
  let html :=
    html_head_open ++ current_date ++ html_head_style ++ current_date
    ++ html_head_close in
  let! html := html_loop articles html in
  let! stamp := now_strftime (lit "%Y-%m-%d %H:%M:%S") in
  ret (html ++ html_footer_open ++ stamp ++ html_footer_close).

(** [format_newsletter(articles)] *)
Definition format_newsletter (articles : list (gmap (list N) (list N)))
    : M (list call) (list N) :=
  if bool_decide (output_format self = lit "markdown") then
    _format_markdown articles
  else if bool_decide (output_format self = lit "html") then
    _format_html articles
  else _format_markdown articles.

(** [save_newsletter(content)] *)
Definition save_newsletter (content : list N) : M (list call) (list N) :=
  let! current_date := now_strftime (lit "%Y-%m-%d") in
  let extension :=
    if bool_decide (output_format self = lit "markdown") then lit ".md"
    else lit ".html" in
  let filename := lit "ai_news_" ++ current_date ++ extension in
  let filepath := path_join (output_directory self) filename in
  try_except
    (let! _ := external (CallWrite filepath content)
                 (fun log => write_file world log filepath content) in
     ret filepath)
    [(is_Exception, fun _ => ret [])].

End Methods.

(** What an article contributes to the markdown newsletter. *)
Definition markdown_entry (article : gmap (list N) (list N)) : list N :=
  match article !! lit "humorous_content" with
  | None => []
  | Some content =>
      lit "## " ++ get_default article (lit "title") (lit "Untitled Article")
      ++ nl ++ nl ++ content ++ nl ++ nl
      ++ match article !! lit "url", article !! lit "source" with
         | Some url, Some source =>
             lit "*Source: [" ++ source ++ lit "](" ++ url ++ lit ")*"
             ++ nl ++ nl
         | _, _ => []
         end
      ++ lit "---" ++ nl ++ nl
  end.

(** What an article contributes to the HTML newsletter. *)
Definition html_entry (article : gmap (list N) (list N)) : list N :=
  match article !! lit "humorous_content" with
  | None => []
  | Some content =>
      html_article_open
      ++ get_default article (lit "title") (lit "Untitled Article")
      ++ html_article_content ++ replace_char 10%N (lit "<br>") content
      ++ html_article_close
      ++ match article !! lit "url", article !! lit "source" with
         | Some url, Some source =>
             html_source_open ++ url ++ html_source_middle ++ source
             ++ html_source_close
         | _, _ => []
         end
      ++ lit "</div>"
  end.

(** The articles and the formatters of [tests/test_formatter.py], and a
    world whose clock reads noon of 2023-01-01 and whose disk works. *)
Definition test_article_1 : gmap (list N) (list N) :=
  <[lit "title" := lit "Test Article 1"]>
  (<[lit "humorous_content" := lit "This is a humorous summary of article 1."]>
  (<[lit "url" := lit "https://example.com/article1"]>
  (<[lit "source" := lit "Test Source 1"]> ∅))).

Definition untitled_article : gmap (list N) (list N) :=
  <[lit "humorous_content" := lit "Two" ++ nl ++ lit "lines"]> ∅.

Definition plain_article : gmap (list N) (list N) :=
  <[lit "title" := lit "No content"]> ∅.

Definition test_world : World :=
  {| strftime := fun _ format =>
       if bool_decide (format = lit "%Y-%m-%d") then lit "2023-01-01"
       else lit "2023-01-01 12:00:00";
     write_file := fun _ _ _ => Returns tt |}.

Definition read_only_world : World :=
  {| strftime := strftime test_world;
     write_file := fun _ _ _ => Raises OtherException |}.

Definition md_formatter : NewsletterFormatter :=
  {| output_format := lit "markdown"; output_directory := lit "/tmp/out" |}.

Definition text_formatter : NewsletterFormatter :=
  {| output_format := lit "text"; output_directory := lit "./output" |}.

End Formatter.

(** ** The pipeline: [news_summarizer/main.py] *)

Module Main.

(** [AI_NEWS_SOURCES], the default sources of a [NewsCollector]. *)
Definition AI_NEWS_SOURCES : list Collector.Source :=
  [ {| Collector.source_name := lit "Analytics Insight";
       Collector.source_url :=
         lit "https://www.analyticsinsight.net/category/artificial-intelligence/" |};
    {| Collector.source_name := lit "AI Magazine";
       Collector.source_url := lit "https://aimagazine.com/latest-news" |};
    {| Collector.source_name := lit "DevX";
       Collector.source_url := lit "https://www.devx.com/category/ai/" |};
    {| Collector.source_name := lit "MIT News";
       Collector.source_url :=
         lit "https://news.mit.edu/topic/artificial-intelligence2" |};
    {| Collector.source_name := lit "Science Daily";
       Collector.source_url :=
         lit "https://www.sciencedaily.com/news/computers_math/artificial_intelligence/" |};
    {| Collector.source_name := lit "Google AI Blog";
       Collector.source_url := lit "https://ai.google/latest-news/" |};
    {| Collector.source_name := lit "TechCrunch AI";
       Collector.source_url :=
         lit "https://techcrunch.com/category/artificial-intelligence/" |} ].

(** The outside world of a run: one world per component, the file system
    call of the formatter's constructor ([os.makedirs(directory,
    exist_ok=True)]), Python's [int] and [float] on strings, and the text
    of a time stamp (the [date] of a record is a [Timestamp], which no
    stage reads after ingestion). *)
Record Worlds : Type := {
  collector_world : Collector.World;
  init_world : SummarizerInit.World;
  summarizer_world : Summarizer.World;
  humor_world : Humorizer.World;
  formatter_world : Formatter.World;
  makedirs : list (list N) -> list N -> outcome unit;
  py_int : list N -> option Z;
  py_float : list N -> option float;
  timestamp_text : Collector.datetime -> list N
}.

(** The state of a run: the log of each component. *)
Record Run : Type := {
  collector_log : list Collector.call;
  init_log : list SummarizerInit.call;
  summarizer_log : list Summarizer.call;
  humor_state : Humorizer.State;
  formatter_log : list Formatter.call;
  makedirs_log : list (list N)
}.

(** Running a component on its own part of the state. *)
Definition zoom {S T A} (get : S -> T) (set : T -> S -> S) (m : M T A)
    : M S A :=
  fun s => let (r, t) := m (get s) in (r, set t s).

Definition set_collector_log (l : list Collector.call) (st : Run) : Run :=
  {| collector_log := l; init_log := init_log st;
     summarizer_log := summarizer_log st; humor_state := humor_state st;
     formatter_log := formatter_log st; makedirs_log := makedirs_log st |}.

Definition set_init_log (l : list SummarizerInit.call) (st : Run) : Run :=
  {| collector_log := collector_log st; init_log := l;
     summarizer_log := summarizer_log st; humor_state := humor_state st;
     formatter_log := formatter_log st; makedirs_log := makedirs_log st |}.

Definition set_summarizer_log (l : list Summarizer.call) (st : Run) : Run :=
  {| collector_log := collector_log st; init_log := init_log st;
     summarizer_log := l; humor_state := humor_state st;
     formatter_log := formatter_log st; makedirs_log := makedirs_log st |}.

Definition set_humor_state (h : Humorizer.State) (st : Run) : Run :=
  {| collector_log := collector_log st; init_log := init_log st;
     summarizer_log := summarizer_log st; humor_state := h;
     formatter_log := formatter_log st; makedirs_log := makedirs_log st |}.

Definition set_formatter_log (l : list Formatter.call) (st : Run) : Run :=
  {| collector_log := collector_log st; init_log := init_log st;
     summarizer_log := summarizer_log st; humor_state := humor_state st;
     formatter_log := l; makedirs_log := makedirs_log st |}.

Definition set_makedirs_log (l : list (list N)) (st : Run) : Run :=
  {| collector_log := collector_log st; init_log := init_log st;
     summarizer_log := summarizer_log st; humor_state := humor_state st;
     formatter_log := formatter_log st; makedirs_log := l |}.

(** A row of the frame after summarization and after stylization. *)
Record Summarized : Type := {
  s_article : Collector.Article;
  s_summary : list N
}.

Record Stylized : Type := {
  h_article : Collector.Article;
  h_summary : list N;
  h_humorous_content : list N
}.

(** [str.lower()] on ASCII; the formats a validated configuration holds
    are ASCII. *)
Definition ascii_lower (s : list N) : list N :=
  (fun c => if (65 <=? c)%N && (c <=? 90)%N then (c + 32)%N else c) <$> s.

Section Pipeline.

Variable w : Worlds.

(** [collect_news(config)] *)
Definition collect_news (config : Config.Settings)
    : M Run (list Collector.Article) :=
  let collector :=
    {| Collector.sources := AI_NEWS_SOURCES;
       Collector.max_articles_per_source :=
         Config.max_articles_per_source config;
       Collector.days_to_look_back := Config.days_to_look_back config |} in
  zoom collector_log set_collector_log
    (Collector.collect_news (collector_world w) collector).

(** [summarize_articles(articles_df, config)]; the column assignment
    pairs each row with the summary of its text. *)
Definition summarize_articles (articles_df : list Collector.Article)
    (config : Config.Settings) : M Run (list Summarized) :=
  if bool_decide (articles_df = []) then ret []
  else
    let! summarizer :=
      zoom init_log set_init_log
        (SummarizerInit.__init__ (init_world w)
           (Config.summarization_model config)
           (Config.summary_min_length config)
           (Config.summary_max_length config) true) in
    let! summaries :=
      zoom summarizer_log set_summarizer_log
        (Summarizer.batch_summarize (summarizer_world w) summarizer
           (Collector.text <$> articles_df)) in
    ret (zip_with (fun a s => {| s_article := a; s_summary := s |})
           articles_df summaries).

(** The row-wise [apply] of [add_humor]. *)
Fixpoint humor_rows (generator : Humorizer.HumorGenerator)
    (rows : list Summarized) : M Humorizer.State (list Stylized) :=
  match rows with
  | [] => ret []
  | row :: rest =>
      let! h := Humorizer.add_humor (humor_world w) generator
                  (Collector.title (s_article row)) (s_summary row) in
      let! others := humor_rows generator rest in
      ret ({| h_article := s_article row; h_summary := s_summary row;
              h_humorous_content := h |} :: others)
  end.

(** [add_humor(articles_df, config)] *)
Definition add_humor (articles_df : list Summarized)
    (config : Config.Settings) : M Run (list Stylized) :=
  if bool_decide (articles_df = []) then ret []
  else
    let generator :=
      {| Humorizer.model := Config.humor_model config;
         Humorizer.temperature := Config.humor_temperature config;
         Humorizer.max_tokens := 500 |} in
    zoom humor_state set_humor_state (humor_rows generator articles_df).

(** A row of [articles_df.to_dict("records")]. *)
Definition to_dict (row : Stylized) : gmap (list N) (list N) :=
  <[lit "title" := Collector.title (h_article row)]>
  (<[lit "text" := Collector.text (h_article row)]>
  (<[lit "url" := Collector.url (h_article row)]>
  (<[lit "source" := Collector.source (h_article row)]>
  (<[lit "date" := timestamp_text w (Collector.date (h_article row))]>
  (<[lit "summary" := h_summary row]>
  (<[lit "humorous_content" := h_humorous_content row]> ∅)))))).

(** [NewsletterFormatter(output_format, output_directory)] *)
Definition new_formatter (output_format output_directory : list N)
    : M Run Formatter.NewsletterFormatter :=
  let! _ := zoom makedirs_log set_makedirs_log
              (external output_directory
                 (fun log => makedirs w log output_directory)) in
  ret {| Formatter.output_format := ascii_lower output_format;
         Formatter.output_directory := output_directory |}.

(** [format_and_save(articles_df, config)]: [None] for an empty frame,
    otherwise what [save_newsletter] returns. *)
Definition format_and_save (articles_df : list Stylized)
    (config : Config.Settings) : M Run (option (list N)) :=
  if bool_decide (articles_df = []) then ret None
  else
    let! formatter := new_formatter (Config.output_format config)
                        (Config.output_directory config) in
    let articles_list := to_dict <$> articles_df in
    let! newsletter_content :=
      zoom formatter_log set_formatter_log
        (Formatter.format_newsletter (formatter_world w) formatter
           articles_list) in
    let! filepath :=
      zoom formatter_log set_formatter_log
        (Formatter.save_newsletter (formatter_world w) formatter
           newsletter_content) in
    ret (Some filepath).

(** [load_config()], on the environment as [load_dotenv] leaves it. *)
Definition load_config (environ : gmap (list N) (list N))
    : M Run Config.Settings :=
  fun st => (Config.__init__ (py_int w) (py_float w) environ, st).

(** [main()]: the exit status. *)
Definition main (environ : gmap (list N) (list N)) : M Run Z :=
  try_except
    (let! config := load_config environ in
     let! articles_df := collect_news config in
     if bool_decide (articles_df = []) then ret 1
     else
       let! articles_df := summarize_articles articles_df config in
       let! articles_df := add_humor articles_df config in
       let! filepath := format_and_save articles_df config in
       match filepath with
       | Some path => if bool_decide (path = []) then ret 1 else ret 0
       | None => ret 1
       end)
    [(is_Exception, fun _ => ret 1)].

End Pipeline.

(** A run without anything before it. *)
Definition fresh : Run :=
  {| collector_log := []; init_log := []; summarizer_log := [];
     humor_state := {| Humorizer.heap := ∅; Humorizer.log := [] |};
     formatter_log := []; makedirs_log := [] |}.

(** [int] on a non-empty string of ASCII digits, and [float] on the
    default temperature; on other strings these two raise. *)
Definition digits_int (s : list N) : option Z :=
  match s with
  | [] => None
  | _ :: _ =>
      if forallb (fun c => (48 <=? c)%N && (c <=? 57)%N) s
      then Some (fold_left (fun acc c => 10 * acc + Z.of_N (c - 48)) s 0)
      else None
  end.

Definition default_float (s : list N) : option float :=
  if bool_decide (s = lit "0.7") then Some Config.default_temperature
  else None.

(** A machine without network, model files or credential, with a working
    summarization pipeline factory and a working disk. *)
Definition offline : Worlds :=
  {| collector_world := MoreScenarios.offline_world;
     init_world := SummarizerInit.no_model_world;
     summarizer_world := SummarizerScenarios.failing_world;
     humor_world := HumorizerScenarios.no_key_world;
     formatter_world := Formatter.test_world;
     makedirs := fun _ _ => Returns tt;
     py_int := digits_int;
     py_float := default_float;
     timestamp_text := fun _ => lit "2023-01-01 12:00:00" |}.

(** The same machine on a web where every landing page links to one
    story. *)
Definition online : Worlds :=
  {| collector_world := Scenarios.shared_story_world;
     init_world := init_world offline;
     summarizer_world := summarizer_world offline;
     humor_world := humor_world offline;
     formatter_world := formatter_world offline;
     makedirs := makedirs offline;
     py_int := py_int offline;
     py_float := py_float offline;
     timestamp_text := timestamp_text offline |}.

(** A row of the frame, and an environment whose article cap is not a
    number. *)
Definition story_row : Stylized :=
  {| h_article := {| Collector.title := lit "Story";
                     Collector.text := lit "Body";
                     Collector.url := lit "https://example.com/story";
                     Collector.source := lit "DevX";
                     Collector.date := Collector.naive 1700000000000000 |};
     h_summary := lit "Body...";
     h_humorous_content := lit "Story" ++ nl ++ nl ++ lit "Body..." |}.

Definition bad_environ : gmap (list N) (list N) :=
  {[ lit "MAX_ARTICLES_PER_SOURCE" := lit "five" ]}.

End Main.

(** * Properties *)

(** ** Strings *)

Section StringFacts.

Lemma startswith_spec (p s : list N) :
  startswith p s = true ↔ ∃ r, s = p ++ r.
Proof.
  revert s. induction p as [|a p IH]; intros s; simpl.
  - split; [intros _; by exists s | done].
  - destruct s as [|b s].
    + split; [done | intros [r Hr]; discriminate].
    + rewrite andb_true_iff, N.eqb_eq, IH. split.
      * intros [-> [r ->]]. by exists r.
      * intros [r Hr]. injection Hr as -> ->. eauto.
Qed.

Lemma contains_spec (needle s : list N) :
  contains needle s = true ↔ ∃ a b, s = a ++ needle ++ b.
Proof.
  induction s as [|c s IH]; simpl.
  - rewrite orb_false_r, startswith_spec. split.
    + intros [r Hr]. by exists [], r.
    + intros (a & b & Hab). destruct a; [by exists b | discriminate].
  - rewrite orb_true_iff, startswith_spec, IH. split.
    + intros [[r Hr] | (a & b & ->)].
      * by exists [], r.
      * by exists (c :: a), b.
    + intros (a & b & Hab). destruct a as [|c' a].
      * left. by exists b.
      * right. injection Hab as -> ->. by exists a, b.
Qed.

Lemma split_no_sep (sep : N) (s : list N) :
  sep ∉ s → split sep s = [s].
Proof.
  induction s as [|c s IH]; intros Hs; simpl; [done |].
  apply not_elem_of_cons in Hs as [Hc Hs].
  destruct (N.eqb_spec c sep) as [-> | _]; [done |].
  by rewrite IH.
Qed.

Lemma split_app_sep (sep : N) (a b : list N) :
  sep ∉ a → split sep (a ++ sep :: b) = a :: split sep b.
Proof.
  induction a as [|c a IH]; intros Ha; simpl.
  - by rewrite N.eqb_refl.
  - apply not_elem_of_cons in Ha as [Hc Ha].
    destruct (N.eqb_spec c sep) as [-> | _]; [done |].
    by rewrite IH.
Qed.

Lemma lstrip_not_head (chars s : list N) :
  (∀ c r, s = c :: r → c ∉ chars) → lstrip chars s = s.
Proof.
  destruct s as [|c s]; intros H; simpl; [done |].
  rewrite bool_decide_eq_false_2; [done | by eapply H].
Qed.

Lemma lstrip_spec (chars s : list N) :
  ∃ pre, s = pre ++ lstrip chars s ∧ Forall (fun c => c ∈ chars) pre
         ∧ ∀ c r, lstrip chars s = c :: r → c ∉ chars.
Proof.
  induction s as [|c s (pre & Hs & Hpre & Hhd)]; simpl.
  - exists []. by split_and!.
  - case_bool_decide as Hc.
    + exists (c :: pre). split_and!; [by rewrite Hs at 1 | by constructor | done].
    + exists []. split_and!; [done | done |]. by intros ? ? [= <- <-].
Qed.

Lemma rstrip_spec (chars s : list N) :
  ∃ suf, s = rstrip chars s ++ suf ∧ Forall (fun c => c ∈ chars) suf
         ∧ ∀ c r, rstrip chars s = r ++ [c] → c ∉ chars.
Proof.
  unfold rstrip.
  destruct (lstrip_spec chars (reverse s)) as (pre & Hs & Hpre & Hhd).
  exists (reverse pre). split_and!.
  - rewrite <- reverse_app, <- Hs. by rewrite reverse_involutive.
  - by apply Forall_reverse.
  - intros c r Hr. apply (Hhd c (reverse r)).
    apply (f_equal reverse) in Hr.
    by rewrite reverse_involutive, reverse_app in Hr.
Qed.

Lemma slice_to_nonneg {A} (k : Z) (xs : list A) :
  0 ≤ k → slice_to k xs = take (Z.to_nat k) xs.
Proof. intros Hk. unfold slice_to. by rewrite (proj2 (Z.ltb_ge k 0) Hk). Qed.

(** One step of [split_ws]. *)
Lemma split_ws_cons (c : N) (s : list N) :
  split_ws (c :: s)
  = if isspace c then split_ws s
    else match s with
         | [] => [[c]]
         | d :: _ =>
             if isspace d then [c] :: split_ws s
             else match split_ws s with
                  | w :: ws => (c :: w) :: ws
                  | [] => [[c]]
                  end
         end.
Proof. done. Qed.

(** [split()] after [" ".join] gives back the words joined. *)
Lemma split_ws_word_space (w rest : list N) :
  is_word w → split_ws (w ++ 32%N :: rest) = w :: split_ws rest.
Proof.
  intros [Hne Hw]. induction w as [|c w IH]; [done |].
  apply Forall_cons in Hw as [Hc Hw].
  destruct w as [|d w].
  - simpl. by rewrite Hc.
  - specialize (IH ltac:(done) Hw).
    assert (isspace d = false) as Hd by (by apply Forall_cons in Hw as [? _]).
    change ((c :: d :: w) ++ 32%N :: rest)
      with (c :: ((d :: w) ++ 32%N :: rest)).
    rewrite split_ws_cons, Hc, IH. cbn [app]. by rewrite Hd.
Qed.

Lemma split_ws_word (w : list N) : is_word w → split_ws w = [w].
Proof.
  intros [Hne Hw]. induction w as [|c w IH]; [done |].
  apply Forall_cons in Hw as [Hc Hw].
  destruct w as [|d w].
  - simpl. by rewrite Hc.
  - specialize (IH ltac:(done) Hw).
    assert (isspace d = false) as Hd by (by apply Forall_cons in Hw as [? _]).
    by rewrite split_ws_cons, Hc, Hd, IH.
Qed.

Lemma split_ws_join (ws : list (list N)) :
  Forall is_word ws → split_ws (join (lit " ") ws) = ws.
Proof.
  induction 1 as [|w ws Hw Hws IH]; [done |].
  destruct ws as [|w' ws].
  - simpl. by apply split_ws_word.
  - change (join (lit " ") (w :: w' :: ws))
      with (w ++ 32%N :: join (lit " ") (w' :: ws)).
    by rewrite split_ws_word_space, IH.
Qed.

Lemma split_ws_words (s : list N) : Forall is_word (split_ws s).
Proof.
  induction s as [|c s IH]; [constructor |].
  rewrite split_ws_cons. destruct (isspace c) eqn:Hc; [done |].
  destruct s as [|d s].
  - constructor; [| constructor]. split; [done |]. by constructor.
  - destruct (isspace d) eqn:Hd.
    + constructor; [| done]. split; [done |]. by constructor.
    + destruct (split_ws (d :: s)) as [|w ws].
      * constructor; [| constructor]. split; [done |]. by constructor.
      * apply Forall_cons in IH as [[_ Hw] Hws].
        constructor; [| done]. split; [done |]. by constructor.
Qed.

End StringFacts.

(** ** Link discovery *)

Section LinkFacts.

Implicit Types (l acc : list (list N)) (u v x : list N).

(** The first loop builds the resolved links in page order. *)
Lemma collect_loop_spec (base_url : list N) (hrefs links : list (list N)) :
  fold_left (collect_step base_url) hrefs links
  = links ++ resolved_links hrefs base_url.
Proof.
  unfold resolved_links.
  revert links. induction hrefs as [|href hrefs IH]; intros links; simpl.
  - by rewrite app_nil_r.
  - rewrite IH. unfold collect_step. rewrite filter_cons.
    destruct (skipped href) eqn:Hskip.
    + by rewrite decide_False by done.
    + rewrite decide_True by done. by rewrite fmap_cons, <- app_assoc.
Qed.

(** The second loop appends to [acc] the first occurrences not yet in it. *)
Lemma unique_loop_spec l acc :
  fold_left unique_step l acc
  = acc ++ filter (fun y => y ∉ acc) (first_occurrences l).
Proof.
  revert acc. induction l as [|x l IH]; intros acc; simpl.
  - by rewrite app_nil_r.
  - rewrite IH. unfold unique_step. rewrite filter_cons.
    rewrite list_filter_filter. case_bool_decide as Hx.
    + destruct (decide (x ∉ acc)) as [Hn | _]; [done |]. f_equal.
      apply list_filter_iff. intros y. split; [| tauto].
      intros Hy. split; [done |]. by intros ->.
    + destruct (decide (x ∉ acc)) as [_ | Hn]; [| done].
      rewrite <- app_assoc. simpl. do 2 f_equal.
      apply list_filter_iff. intros y.
      rewrite elem_of_app, list_elem_of_singleton. tauto.
Qed.

Lemma filter_all (P : list N → Prop) `{!∀ y, Decision (P y)} l :
  (∀ y, P y) → filter P l = l.
Proof.
  intros HP. induction l as [|x l IH]; [done |].
  by rewrite filter_cons_True, IH.
Qed.

Lemma extract_article_links_spec (hrefs : list (list N)) (base_url : list N) :
  _extract_article_links hrefs base_url
  = first_occurrences (resolved_links hrefs base_url).
Proof.
  unfold _extract_article_links.
  rewrite collect_loop_spec, unique_loop_spec. simpl.
  apply filter_all. intros y. apply not_elem_of_nil.
Qed.

Lemma elem_of_first_occurrences l u :
  u ∈ first_occurrences l ↔ u ∈ l.
Proof.
  induction l as [|x l IH]; simpl; [done |].
  rewrite !elem_of_cons, list_elem_of_filter, IH.
  destruct (decide (u = x)); tauto.
Qed.

Lemma NoDup_first_occurrences l : NoDup (first_occurrences l).
Proof.
  induction l as [|x l IH]; simpl; [constructor |].
  constructor; [| by apply NoDup_filter].
  rewrite list_elem_of_filter. tauto.
Qed.

(** A cut of a filtered list comes from a cut of the list. *)
Lemma filter_eq_app_cons_inv (P : list N → Prop) `{!∀ y, Decision (P y)}
    l a u b :
  filter P l = a ++ u :: b →
  ∃ a' b', l = a' ++ u :: b' ∧ filter P a' = a ∧ filter P b' = b ∧ P u.
Proof.
  revert a. induction l as [|x l IH]; intros a Hf.
  - destruct a; discriminate.
  - rewrite filter_cons in Hf. destruct (decide (P x)) as [HP | HP].
    + destruct a as [|x' a]; simpl in Hf; injection Hf as -> Hf.
      * exists [], l. by split_and!.
      * destruct (IH _ Hf) as (a' & b' & -> & <- & <- & Hu).
        exists (x' :: a'), b'. split_and!; try done.
        by rewrite filter_cons, decide_True.
    + destruct (IH _ Hf) as (a' & b' & -> & <- & <- & Hu).
      exists (x :: a'), b'. split_and!; try done.
      by rewrite filter_cons, decide_False.
Qed.

(** Order of first appearance: when [u] stands before [v] in the result,
    [u] occurs in [l] at a place before which neither [u] nor [v] occurs. *)
Lemma first_occurrences_order l o1 o2 o3 u v :
  first_occurrences l = o1 ++ u :: o2 ++ v :: o3 →
  ∃ r1 r2, l = r1 ++ u :: r2 ∧ (u ∉ r1) ∧ (v ∉ r1).
Proof.
  revert o1 o2 o3. induction l as [|x l IH]; intros o1 o2 o3 Hfo; simpl in Hfo.
  - destruct o1; discriminate.
  - destruct o1 as [|x' o1]; simpl in Hfo; injection Hfo as -> Hfo.
    + exists [], l. split_and!; [done | apply not_elem_of_nil..].
    + pose proof Hfo as Hfo'.
      apply filter_eq_app_cons_inv in Hfo as (a' & b' & Hl & _ & Hb & Hu).
      apply filter_eq_app_cons_inv in Hb as (a'' & b'' & -> & _ & _ & Hv).
      destruct (IH _ _ _ Hl) as (r1 & r2 & -> & Hu1 & Hv1).
      exists (x' :: r1), r2. split_and!; [done | |];
        apply not_elem_of_cons; by split.
Qed.

Lemma elem_of_extract_article_links (hrefs : list (list N))
    (base_url u : list N) :
  u ∈ _extract_article_links hrefs base_url
  ↔ ∃ href, href ∈ hrefs ∧ skipped href = false
            ∧ u = make_absolute base_url href.
Proof.
  rewrite extract_article_links_spec, elem_of_first_occurrences.
  unfold resolved_links. rewrite list_elem_of_fmap.
  split.
  - intros (href & -> & [Hskip Hin]%list_elem_of_filter). by exists href.
  - intros (href & Hin & Hskip & ->). exists href. split; [done |].
    by apply list_elem_of_filter.
Qed.

Lemma skipped_spec (href : list N) :
  skipped href = true
  ↔ href = [] ∨ (∃ r, href = lit "#" ++ r)
    ∨ (∃ a b, href = a ++ lit "javascript:" ++ b).
Proof.
  unfold skipped.
  rewrite !orb_true_iff, bool_decide_eq_true, startswith_spec, contains_spec.
  tauto.
Qed.

(** [domain] gives scheme and host of a base URL [scheme://host] that
    ends there or goes on with a path. *)
Lemma domain_scheme_host (scheme host rest : list N) :
  47%N ∉ scheme → 47%N ∉ host → (rest = [] ∨ ∃ r, rest = 47%N :: r) →
  domain (scheme ++ lit "://" ++ host ++ rest) = scheme ++ lit "://" ++ host.
Proof.
  intros Hs Hh Hrest. unfold domain.
  change (lit "://") with [58%N; 47%N; 47%N].
  change (lit "/") with [47%N].
  assert (scheme ++ [58%N; 47%N; 47%N] ++ host ++ rest
          = (scheme ++ [58%N]) ++ 47%N :: ([] ++ 47%N :: (host ++ rest)))
    as -> by (by rewrite <- app_assoc).
  rewrite split_app_sep.
  2:{ rewrite elem_of_app, list_elem_of_singleton. intros [? | ?]; done. }
  rewrite (split_app_sep 47%N [] (host ++ rest)) by apply not_elem_of_nil.
  assert (∃ tl, split 47%N (host ++ rest) = host :: tl) as [tl ->].
  { destruct Hrest as [-> | [r ->]].
    - exists []. rewrite app_nil_r. by apply split_no_sep.
    - eexists. by apply split_app_sep. }
  rewrite slice_to_nonneg by lia. simpl.
  by rewrite <- !app_assoc.
Qed.

Lemma make_absolute_root (base_url href r : list N) :
  href = lit "/" ++ r → make_absolute base_url href = domain base_url ++ href.
Proof.
  intros ->. unfold make_absolute.
  by rewrite (proj2 (startswith_spec _ _)) by eauto.
Qed.

Lemma make_absolute_http (base_url href : list N) :
  (∃ r, href = lit "http://" ++ r) ∨ (∃ r, href = lit "https://" ++ r) →
  make_absolute base_url href = href.
Proof.
  intros Hhttp. unfold make_absolute.
  assert (startswith (lit "/") href = false) as ->.
  { by destruct Hhttp as [[r ->] | [r ->]]. }
  assert (startswith_any [lit "http://"; lit "https://"] href = true) as ->;
    [| done].
  unfold startswith_any. cbn [existsb].
  rewrite !orb_true_iff, !startswith_spec. tauto.
Qed.

Lemma make_absolute_other (base_url href : list N) :
  (∀ r, href ≠ lit "/" ++ r) →
  (∀ r, href ≠ lit "http://" ++ r) →
  (∀ r, href ≠ lit "https://" ++ r) →
  make_absolute base_url href = rstrip (lit "/") base_url ++ lit "/" ++ href.
Proof.
  intros Hroot Hhttp Hhttps. unfold make_absolute.
  assert (startswith (lit "/") href = false) as ->.
  { apply not_true_is_false. rewrite startswith_spec.
    intros [r Hr]. by apply (Hroot r). }
  assert (startswith_any [lit "http://"; lit "https://"] href = false) as ->.
  { apply not_true_is_false. unfold startswith_any. cbn [existsb].
    rewrite !orb_true_iff, !startswith_spec.
    intros [[r Hr] | [[r Hr] | Hf]];
      [by apply (Hhttp r) | by apply (Hhttps r) | done]. }
  simpl. rewrite lstrip_not_head; [done |].
  intros c r -> Hc. apply list_elem_of_singleton in Hc as ->.
  by apply (Hroot r).
Qed.

End LinkFacts.

(** The page of [tests/test_collector.py::test_extract_article_links]. *)
Example test_extract_article_links :
  _extract_article_links
    [lit "https://example.com/article1"; lit "/article2"; lit "article3";
     lit "#"; lit "javascript:void(0)"]
    (lit "https://example.com")
  = [lit "https://example.com/article1"; lit "https://example.com/article2";
     lit "https://example.com/article3"].
Proof. vm_compute. reflexivity. Qed.

(** Links written differently that resolve to the same string are kept
    once, at the first place; a string that differs by a trailing slash is
    another URL. *)
Example extract_article_links_variants :
  _extract_article_links
    [lit "article"; lit "/article"; lit "https://example.com/article/";
     lit "https://example.com/article"; lit "article"]
    (lit "https://example.com/")
  = [lit "https://example.com/article"; lit "https://example.com/article/"].
Proof. vm_compute. reflexivity. Qed.

(** C4, as amended. The output of the link discoverer holds each
    distinct resolved link exactly once, in order of first appearance: it
    has no repetition, it has the same members as the list of resolved
    links, it is that list cut down to first occurrences, and when [u]
    stands before [v] in the output, the resolved links reach [u] before
    any occurrence of [u] or [v].  A link that is not skipped is resolved
    to the first three [/]-separated pieces of the base URL followed by
    the link when it starts with [/], to itself when it starts with
    [http://] or [https://], and otherwise to the base URL without its
    trailing slashes, one [/], and the link without its leading slashes.
    Resolved links are compared as strings and not normalised: two that
    differ, be it only by a trailing slash, are both in the output. *)
Theorem extract_article_links_dedup (hrefs : list (list N)) (base_url : list N) :
  let out := _extract_article_links hrefs base_url in
  let skip := fun href =>
    bool_decide (href = []) || startswith (lit "#") href
    || contains (lit "javascript:") href in
  let resolve := fun href =>
    if startswith (lit "/") href
    then join (lit "/") (slice_to 3 (split 47%N base_url)) ++ href
    else if startswith (lit "http://") href
            || startswith (lit "https://") href
    then href
    else rstrip (lit "/") base_url ++ lit "/" ++ lstrip (lit "/") href in
  let resolved := resolve <$> filter (fun href => skip href = false) hrefs in
  NoDup out
  ∧ (∀ u, u ∈ out ↔ u ∈ resolved)
  ∧ out = first_occurrences resolved
  ∧ (∀ o1 o2 o3 u v, out = o1 ++ u :: o2 ++ v :: o3 →
       ∃ r1 r2, resolved = r1 ++ u :: r2 ∧ (u ∉ r1) ∧ (v ∉ r1))
  ∧ (∀ u v, u ∈ resolved → v ∈ resolved → u ≠ v →
       ∃ o1 o2 o3, out = o1 ++ u :: o2 ++ v :: o3
                   ∨ out = o1 ++ v :: o2 ++ u :: o3)
  ∧ (∀ u, u ∈ resolved → u ++ lit "/" ∈ resolved →
       u ∈ out ∧ u ++ lit "/" ∈ out ∧ u ≠ u ++ lit "/").
Proof.
  intros out skip resolve resolved.
  assert (resolved = resolved_links hrefs base_url) as Hres.
  { subst resolved resolve skip. unfold resolved_links.
    change (fun href : list N =>
              bool_decide (href = []) || startswith (lit "#") href
              || contains (lit "javascript:") href = false)
      with (fun href : list N => skipped href = false).
    apply list_fmap_ext. intros _ href _.
    unfold make_absolute, domain, startswith_any. cbn [existsb].
    rewrite orb_false_r.
    by destruct (startswith (lit "/") href),
         (startswith (lit "http://") href || startswith (lit "https://") href). }
  clearbody resolved. subst resolved out. clear skip resolve.
  rewrite extract_article_links_spec.
  set (resolved := resolved_links hrefs base_url).
  split_and!.
  - apply NoDup_first_occurrences.
  - intros u. apply elem_of_first_occurrences.
  - done.
  - intros o1 o2 o3 u v. apply first_occurrences_order.
  - intros u v Hu Hv Hne.
    apply elem_of_first_occurrences, list_elem_of_split in Hu
      as (l1 & l2 & Hout).
    pose proof (NoDup_first_occurrences resolved) as Hnodup.
    apply elem_of_first_occurrences in Hv. rewrite Hout in Hv, Hnodup.
    apply elem_of_app in Hv as [Hv | Hv].
    + apply list_elem_of_split in Hv as (a & b & ->).
      exists a, b, l2. right. by rewrite Hout, <- app_assoc.
    + apply elem_of_cons in Hv as [-> | Hv]; [done |].
      apply list_elem_of_split in Hv as (a & b & ->).
      exists l1, a, b. left. by rewrite Hout.
  - intros u Hu Hslash. split_and!.
    + by apply elem_of_first_occurrences.
    + by apply elem_of_first_occurrences.
    + intros Heq. apply (f_equal length) in Heq.
      rewrite length_app in Heq. simpl in Heq. lia.
Qed.

Lemma extract_article_links_dedup_witness :
  lit "https://example.com/article"
  ∈ _extract_article_links [lit "/article"; lit "/article/"; lit "/article"]
      (lit "https://example.com/news")
  ∧ lit "https://example.com/article/"
    ∈ _extract_article_links [lit "/article"; lit "/article/"; lit "/article"]
        (lit "https://example.com/news").
Proof.
  destruct (extract_article_links_dedup
              [lit "/article"; lit "/article/"; lit "/article"]
              (lit "https://example.com/news"))
    as (_ & _ & _ & _ & _ & Hslash).
  cbn zeta in Hslash.
  destruct (Hslash (lit "https://example.com/article")) as (Hu & Hv & _).
  - by apply (bool_decide_unpack _).
  - by apply (bool_decide_unpack _).
  - split; [exact Hu | exact Hv].
Defined.

(** C4 as stated does not hold: trailing-slash variants of one URL are
    different strings, and the output holds both. *)
Lemma extract_article_links_trailing_slash :
  _extract_article_links
    [lit "https://example.com"; lit "https://example.com/"]
    (lit "https://example.com")
  = [lit "https://example.com"; lit "https://example.com/"]
  ∧ _extract_article_links
      [lit "/article"; lit "/article/"; lit "/article"]
      (lit "https://example.com/news")
    = [lit "https://example.com/article"; lit "https://example.com/article/"].
Proof. split; vm_compute; reflexivity. Qed.

(** C8, as amended. A hyperlink target is rejected exactly when it is
    empty, starts with [#], or contains the text [javascript:] anywhere.
    An accepted link with a leading [/] is output as [domain base_url]
    followed by the link, and [domain base_url] is the scheme and host of
    a base URL of the form [scheme://host] or [scheme://host/...].  An
    accepted link that starts with [http://] or [https://] is output
    unchanged.  Every other accepted link is output as the base URL
    without its trailing slashes, one [/], and the link.  The output of
    the link discoverer consists of the accepted links so resolved. *)
Theorem link_policy (base_url href : list N) :
  (skipped href = true
   ↔ href = [] ∨ (∃ r, href = lit "#" ++ r)
     ∨ (∃ a b, href = a ++ lit "javascript:" ++ b))
  ∧ ((∃ r, href = lit "/" ++ r) →
     make_absolute base_url href = domain base_url ++ href)
  ∧ (∀ scheme host rest,
       base_url = scheme ++ lit "://" ++ host ++ rest →
       47%N ∉ scheme → 47%N ∉ host → (rest = [] ∨ ∃ r, rest = 47%N :: r) →
       domain base_url = scheme ++ lit "://" ++ host)
  ∧ ((∃ r, href = lit "http://" ++ r) ∨ (∃ r, href = lit "https://" ++ r) →
     make_absolute base_url href = href)
  ∧ ((∀ r, href ≠ lit "/" ++ r) → (∀ r, href ≠ lit "http://" ++ r) →
     (∀ r, href ≠ lit "https://" ++ r) →
     make_absolute base_url href
     = rstrip (lit "/") base_url ++ lit "/" ++ href)
  ∧ (∃ slashes, base_url = rstrip (lit "/") base_url ++ slashes
       ∧ Forall (fun c => c = 47%N) slashes
       ∧ ∀ r, rstrip (lit "/") base_url ≠ r ++ lit "/")
  ∧ (∀ hrefs u,
       u ∈ _extract_article_links hrefs base_url
       ↔ ∃ h, h ∈ hrefs ∧ skipped h = false ∧ u = make_absolute base_url h).
Proof.
  split_and!.
  - apply skipped_spec.
  - intros [r Hr]. by eapply make_absolute_root.
  - intros scheme host rest -> Hs Hh Hrest. by apply domain_scheme_host.
  - apply make_absolute_http.
  - apply make_absolute_other.
  - destruct (rstrip_spec (lit "/") base_url) as (suf & Hb & Hsuf & Hlast).
    exists suf. split_and!; [done | |].
    + eapply Forall_impl; [exact Hsuf |].
      intros c Hc. by apply list_elem_of_singleton in Hc.
    + intros r Hr. apply (Hlast 47%N r Hr). by apply list_elem_of_singleton.
  - intros hrefs u. apply elem_of_extract_article_links.
Qed.

Lemma link_policy_witness :
  skipped (lit "javascript:void(0)") = true
  ∧ make_absolute (lit "https://example.com/news/") (lit "/article2")
    = lit "https://example.com/article2"
  ∧ make_absolute (lit "https://example.com/news/") (lit "article3")
    = lit "https://example.com/news/article3".
Proof.
  pose proof (link_policy (lit "https://example.com/news/")
                (lit "javascript:void(0)")) as (Hskip & _).
  pose proof (link_policy (lit "https://example.com/news/")
                (lit "/article2")) as (_ & Hroot & Hdom & _).
  pose proof (link_policy (lit "https://example.com/news/")
                (lit "article3")) as (_ & _ & _ & _ & Hrel & _).
  split_and!.
  - apply Hskip. right. right. by exists [], (lit "void(0)").
  - rewrite Hroot by (by exists (lit "article2")).
    rewrite (Hdom (lit "https") (lit "example.com") (lit "/news/")).
    + reflexivity.
    + reflexivity.
    + by apply (bool_decide_unpack _).
    + by apply (bool_decide_unpack _).
    + right. by exists (lit "news/").
  - rewrite Hrel; [reflexivity | intros r Hr; discriminate..].
Defined.

(** C8 as stated does not hold: a root-relative link whose path contains
    [javascript:] is rejected though it is neither empty, nor a fragment,
    nor a script pseudo-URL; and a [mailto:] link, which is absolute, is
    accepted but not passed through unchanged. *)
Lemma link_policy_counterexample :
  ¬ (skipped (lit "/docs/javascript:void")  = true
     ↔ lit "/docs/javascript:void" = []
       ∨ is_fragment (lit "/docs/javascript:void")
       ∨ is_script_pseudo_url (lit "/docs/javascript:void"))
  ∧ (skipped (lit "mailto:news@example.com") = false
     ∧ is_absolute_url (lit "mailto:news@example.com") = true
     ∧ make_absolute (lit "https://example.com") (lit "mailto:news@example.com")
       = lit "https://example.com/mailto:news@example.com").
Proof.
  split; [| by split_and!].
  intros [Hrej _].
  destruct (Hrej eq_refl) as [Hnil | [[r Hr] | [r Hr]]]; discriminate.
Qed.



(** ** Ingestion *)

Section CollectorFacts.

Import Collector CollectorMore.

Variable world : World.

(** Unfolding the monad on a goal or a hypothesis. *)
Ltac run :=
  unfold bind, try_except, external, ret, raise, now; cbn [List.find fst snd].

Lemma attempts_app (l1 l2 : list call) :
  attempts (l1 ++ l2) = attempts l1 ++ attempts l2.
Proof. unfold attempts. apply omap_app. Qed.

(** What one run of [_extract_article_content] does, by cases on what the
    outside world answers. *)
Lemma extract_article_content_cases (u name : list N) (log : list call) :
  let log1 := log ++ [CallDownload u] in
  let log2 := log1 ++ [CallParse u] in
  match article_download world log u with
  | Raises _ =>
      _extract_article_content world u name log = (Returns None, log1)
  | Returns _ =>
      match article_parse world log1 u with
      | Raises _ =>
          _extract_article_content world u name log = (Returns None, log2)
      | Returns p =>
          if bool_decide (parsed_title p = [])
             || bool_decide (parsed_text p = [])
          then _extract_article_content world u name log
               = (Returns None, log2)
          else
            match publish_date p with
            | Some d =>
                _extract_article_content world u name log
                = (Returns (Some {| title := parsed_title p;
                                    text := parsed_text p;
                                    url := u; source := name;
                                    date := d |}), log2)
            | None =>
                _extract_article_content world u name log
                = (Returns (Some {| title := parsed_title p;
                                    text := parsed_text p;
                                    url := u; source := name;
                                    date := naive (datetime_now world log2) |}),
                   log2 ++ [CallNow])
            end
      end
  end.
Proof.
  unfold _extract_article_content. run.
  destruct (article_download world log u) as [[] | e]; simpl.
  - destruct (article_parse world (log ++ [CallDownload u]) u) as [p | e];
      simpl.
    + destruct (bool_decide (parsed_title p = [])
                || bool_decide (parsed_text p = [])); run; [done |].
      by destruct (publish_date p).
    + by destruct e.
  - by destruct e.
Qed.

(** Each run of [_extract_article_content] returns, logs one attempt,
    and a record it returns carries the URL and the source name given. *)
Lemma extract_article_content_log (u name : list N) (log : list call) :
  ∃ r new,
    _extract_article_content world u name log = (Returns r, log ++ new)
    ∧ attempts new = [u]
    ∧ ∀ a, r = Some a → url a = u ∧ source a = name.
Proof.
  pose proof (extract_article_content_cases u name log) as Hcases.
  cbn zeta in Hcases. rewrite <- !app_assoc in Hcases. simpl in Hcases.
  destruct (article_download world log u) as [[] | e].
  2:{ eexists _, _. by split_and!. }
  destruct (article_parse world (log ++ [CallDownload u]) u) as [p | e].
  2:{ eexists _, _. by split_and!. }
  destruct (bool_decide (parsed_title p = [])
            || bool_decide (parsed_text p = [])).
  { eexists _, _. by split_and!. }
  destruct (publish_date p) as [d |].
  - eexists _, _. split_and!; [exact Hcases | done |]. by intros a [= <-].
  - eexists _, _. split_and!; [exact Hcases | done |]. by intros a [= <-].
Qed.

(** The loop over the links of a source attempts every link once, in
    order, and appends records whose URLs are a subsequence of the links. *)
Lemma extract_loop_spec (name : list N) (links : list (list N))
    (articles : list Article) (log : list call) :
  ∃ arts new,
    extract_loop world name links articles log
    = (Returns (articles ++ arts), log ++ new)
    ∧ attempts new = links
    ∧ sublist (url <$> arts) links
    ∧ Forall (fun a => source a = name) arts.
Proof.
  revert articles log.
  induction links as [|u links IH]; intros articles log; simpl.
  - exists [], []. rewrite !app_nil_r. by split_and!.
  - destruct (extract_article_content_log u name log)
      as (r & new1 & Hrun & Hatt1 & Hrec).
    run. rewrite Hrun.
    destruct r as [a |].
    + destruct (IH (articles ++ [a]) (log ++ new1))
        as (arts & new2 & Hloop & Hatt2 & Hsub & Hsrc).
      destruct (Hrec a eq_refl) as [Hurl Hname].
      exists (a :: arts), (new1 ++ new2).
      rewrite Hloop, attempts_app, Hatt1, Hatt2, <- !app_assoc.
      split_and!; [done | done | |].
      * rewrite fmap_cons, Hurl. by apply sublist_skip.
      * by constructor.
    + destruct (IH articles (log ++ new1))
        as (arts & new2 & Hloop & Hatt2 & Hsub & Hsrc).
      exists arts, (new1 ++ new2).
      rewrite Hloop, attempts_app, Hatt1, Hatt2, <- !app_assoc.
      split_and!; [done | done | | done].
      by apply sublist_cons.
Qed.

(** What one run of [_collect_from_source] does, by cases on the answer
    to the fetch. *)
Lemma collect_from_source_cases (self : NewsCollector) (src : Source)
    (log : list call) :
  let log1 := log ++ [CallGet (source_url src)] in
  match requests_get world log (source_url src) with
  | Raises e =>
      _collect_from_source world self src log
      = (if is_RequestException e then Returns [] else Raises e, log1)
  | Returns response =>
      if is_error_status response then
        _collect_from_source world self src log = (Returns [], log1)
      else
        let article_links :=
          slice_to (max_articles_per_source self)
            (_extract_article_links (anchors response) (source_url src)) in
        ∃ arts new,
          _collect_from_source world self src log
          = (Returns arts, log1 ++ new)
          ∧ attempts new = article_links
          ∧ sublist (url <$> arts) article_links
          ∧ Forall (fun a => source a = source_name src) arts
  end.
Proof.
  unfold _collect_from_source, raise_for_status. run.
  destruct (requests_get world log (source_url src)) as [response | e].
  - destruct (is_error_status response); run; [done |].
    match goal with
    | |- context [extract_loop world ?n ?ls [] ?lg] =>
        destruct (extract_loop_spec n ls [] lg)
          as (arts & new & Hloop & Hatt & Hsub & Hsrc)
    end.
    exists arts, new. rewrite Hloop. by split_and!.
  - by destruct e.
Qed.

Lemma NoDup_slice_to {A} (k : Z) (xs : list A) :
  NoDup xs → NoDup (slice_to k xs).
Proof.
  intros Hxs. unfold slice_to.
  destruct (k <? 0); eapply sublist_NoDup; eauto using sublist_take.
Qed.

(** A source either raises or contributes records with distinct URLs. *)
Lemma collect_from_source_contribution (self : NewsCollector) (src : Source)
    (log : list call) :
  ∃ log',
    (∃ e, _collect_from_source world self src log = (Raises e, log'))
    ∨ (∃ arts, _collect_from_source world self src log = (Returns arts, log')
               ∧ contribution src arts).
Proof.
  pose proof (collect_from_source_cases self src log) as Hcases.
  cbn zeta in Hcases.
  destruct (requests_get world log (source_url src)) as [response | e].
  - destruct (is_error_status response).
    + eexists. right. exists []. split; [done |].
      split; [constructor | done].
    + destruct Hcases as (arts & new & Hrun & _ & Hsub & Hsrc).
      eexists. right. exists arts. split; [done |]. split; [| done].
      eapply sublist_NoDup; [| exact Hsub].
      apply NoDup_slice_to.
      rewrite extract_article_links_spec. apply NoDup_first_occurrences.
  - destruct (is_RequestException e).
    + eexists. right. exists []. split; [done |].
      split; [constructor | done].
    + eexists. left. by exists e.
Qed.

(** The loop over the sources returns, and appends one contribution per
    source, in source order. *)
Lemma sources_loop_spec (self : NewsCollector) (srcs : list Source)
    (articles_data : list Article) (log : list call) :
  ∃ segs log',
    sources_loop world self srcs articles_data log
    = (Returns (articles_data ++ concat segs), log')
    ∧ Forall2 contribution srcs segs.
Proof.
  revert articles_data log.
  induction srcs as [|src srcs IH]; intros articles_data log; simpl.
  - exists [], log. simpl. rewrite app_nil_r. by split.
  - run.
    destruct (collect_from_source_contribution self src log)
      as (log1 & [[e Hrun] | (arts & Hrun & Hcontrib)]); rewrite Hrun;
      unfold is_Exception; simpl.
    + destruct (IH articles_data log1) as (segs & log' & Hloop & Hsegs).
      exists ([] :: segs), log'. rewrite Hloop. split; [done |].
      constructor; [| done]. split; [constructor | done].
    + destruct (IH (articles_data ++ arts) log1)
        as (segs & log' & Hloop & Hsegs).
      exists (arts :: segs), log'. rewrite Hloop. simpl.
      rewrite <- app_assoc. split; [done |]. by constructor.
Qed.

(** C7. [_extract_article_content] never raises: it returns a record or
    [None].  It returns [None] exactly when the download raises, parsing
    raises, the title is empty or the body text is empty.  A returned
    record carries the parsed title and text, both non-empty, the URL and
    source name it was called with, and as its date the extracted publish
    date when there is one and otherwise the clock read at that moment;
    the date is a timestamp in either case. *)
Theorem extract_article_content_exact (u name : list N) (log : list call) :
  let log1 := log ++ [CallDownload u] in
  let log2 := log1 ++ [CallParse u] in
  ∃ r log',
    _extract_article_content world u name log = (Returns r, log')
    ∧ (r = None ↔
         (∃ e, article_download world log u = Raises e)
         ∨ (∃ e, article_download world log u = Returns tt
                 ∧ article_parse world log1 u = Raises e)
         ∨ (∃ p, article_download world log u = Returns tt
                 ∧ article_parse world log1 u = Returns p
                 ∧ (parsed_title p = [] ∨ parsed_text p = [])))
    ∧ (∀ a, r = Some a →
         title a ≠ [] ∧ text a ≠ [] ∧ url a = u ∧ source a = name
         ∧ ∃ p, article_parse world log1 u = Returns p
                ∧ title a = parsed_title p ∧ text a = parsed_text p
                ∧ date a = match publish_date p with
                           | Some d => d
                           | None => naive (datetime_now world log2)
                           end).
Proof.
  intros log1 log2.
  pose proof (extract_article_content_cases u name log) as Hcases.
  cbn zeta in Hcases. fold log1 in Hcases. fold log2 in Hcases.
  destruct (article_download world log u) as [[] | e] eqn:Hdl.
  2:{ eexists _, _. split; [exact Hcases |]. split; [| done].
      split; [intros _; left; by exists e | done]. }
  destruct (article_parse world log1 u) as [p | e] eqn:Hparse.
  2:{ eexists _, _. split; [exact Hcases |]. split; [| done].
      split; [intros _; right; left; by exists e | done]. }
  destruct (bool_decide (parsed_title p = [])
            || bool_decide (parsed_text p = [])) eqn:Hempty.
  - eexists _, _. split; [exact Hcases |]. split; [| done].
    split; [intros _ | done]. right. right. exists p. split_and!; [done.. |].
    apply orb_true_iff in Hempty as [H | H]; apply bool_decide_eq_true in H;
      tauto.
  - apply orb_false_iff in Hempty as [Ht Hx].
    apply bool_decide_eq_false in Ht, Hx.
    destruct (publish_date p) as [d |] eqn:Hdate.
    + eexists _, _. split; [exact Hcases |]. split.
      * split; [done |].
        intros [[e He] | [[e [_ He]] | (p' & _ & Hp' & Hor)]];
          [done | done |].
        injection Hp' as <-. tauto.
      * intros a [= <-]. simpl. split_and!; [done.. |].
        exists p. by rewrite Hdate.
    + eexists _, _. split; [exact Hcases |]. split.
      * split; [done |].
        intros [[e He] | [[e [_ He]] | (p' & _ & Hp' & Hor)]];
          [done | done |].
        injection Hp' as <-. tauto.
      * intros a [= <-]. simpl. split_and!; [done.. |].
        exists p. by rewrite Hdate.
Qed.

Lemma filter_concat {A} (P : A → Prop) `{!∀ x, Decision (P x)}
    (ls : list (list A)) :
  filter P (concat ls) = concat (filter P <$> ls).
Proof.
  induction ls as [|l ls IH]; [done |].
  simpl. by rewrite filter_app, IH.
Qed.

Lemma contribution_filter (P : Article → Prop) `{!∀ x, Decision (P x)}
    (src : Source) (seg : list Article) :
  contribution src seg → contribution src (filter P seg).
Proof.
  intros [Hnodup Hsrc]. split.
  - eapply sublist_NoDup; [exact Hnodup |].
    apply fmap_sublist, sublist_filter.
  - apply Forall_forall. intros a [_ Ha]%list_elem_of_filter.
    by eapply Forall_forall in Hsrc.
Qed.

(** The loop over the sources merges the runs of the sources. *)
Lemma sources_loop_runs (self : NewsCollector) (srcs : list Source)
    (articles_data : list Article) (log : list call) :
  sources_loop world self srcs articles_data log
  = (Returns (articles_data
              ++ concat (records <$> (source_runs world self srcs log).1)),
     (source_runs world self srcs log).2).
Proof.
  revert articles_data log.
  induction srcs as [|src srcs IH]; intros articles_data log; simpl.
  - by rewrite app_nil_r.
  - run.
    destruct (_collect_from_source world self src log) as [[arts | e] log1];
      unfold is_Exception; cbn [List.find fst snd]; rewrite IH;
      destruct (source_runs world self srcs log1) as [runs log']; simpl.
    + by rewrite <- app_assoc.
    + done.
Qed.

Lemma source_runs_contribution (self : NewsCollector) (srcs : list Source)
    (log : list call) :
  Forall2 contribution srcs
    (records <$> (source_runs world self srcs log).1).
Proof.
  revert log. induction srcs as [|src srcs IH]; intros log; simpl.
  - constructor.
  - destruct (collect_from_source_contribution self src log)
      as (log1 & [[e Hrun] | (arts & Hrun & Hcontrib)]); rewrite Hrun;
      specialize (IH log1);
      destruct (source_runs world self srcs log1) as [runs log']; simpl.
    + constructor; [| done]. split; [constructor | done].
    + by constructor.
Qed.

Lemma boolean_index_recent (self : NewsCollector) (t : Z)
    (arts : list Article) :
  boolean_index arts
    ((fun d => bool_decide
                 (t - microseconds_of_days (days_to_look_back self)
                  ≤ microseconds d)) <$> (date <$> arts))
  = filter (recent self t) arts.
Proof.
  induction arts as [|a arts IH]; [done |].
  cbn [fmap list_fmap boolean_index]. rewrite filter_cons.
  rewrite IH.
  destruct (decide (recent self t a)) as [Hr | Hr]; unfold recent in Hr.
  - by rewrite bool_decide_eq_true_2.
  - by rewrite bool_decide_eq_false_2.
Qed.

Lemma all_naive_spec (arts : list Article) :
  forallb (fun d => negb (aware d)) (date <$> arts) = true
  ↔ Forall (fun a => aware (date a) = false) arts.
Proof.
  induction arts as [|a arts IH]; simpl.
  - split; [constructor | done].
  - rewrite andb_true_iff, IH, Forall_cons, negb_true_iff. tauto.
Qed.

(** What [collect_news] does with the merged records [merged], once the
    sources are done and the clock reads [t]. *)
Lemma collect_news_cases (self : NewsCollector) (log : list call) :
  let runs := (source_runs world self (sources self) log).1 in
  let log1 := (source_runs world self (sources self) log).2 in
  let merged := concat (records <$> runs) in
  let t := datetime_now world log1 in
  let N := days_to_look_back self in
  let in_range :=
    (-999999999 ≤ N ≤ 999999999)
    ∧ datetime_min ≤ t - microseconds_of_days N ≤ datetime_max in
  (merged = [] → collect_news world self log = (Returns [], log1))
  ∧ (merged ≠ [] → filter_defined self t merged →
     collect_news world self log
     = (Returns (filter (recent self t) merged), log1 ++ [CallNow]))
  ∧ (merged ≠ [] → ¬ in_range →
     collect_news world self log = (Raises OverflowError, log1 ++ [CallNow]))
  ∧ (merged ≠ [] → in_range →
     ¬ Forall (fun a => aware (date a) = false) merged →
     collect_news world self log = (Raises TypeError, log1 ++ [CallNow])).
Proof.
  cbn zeta.
  pose proof (sources_loop_runs self (sources self) [] log) as Hloop.
  destruct (source_runs world self (sources self) log) as [runs log1].
  cbn [fst snd app] in *.
  set (merged := concat (records <$> runs)) in *.
  split_and!.
  - intros Hnil. unfold collect_news. unfold bind at 1. rewrite Hloop.
    by rewrite bool_decide_eq_true_2.
  - intros Hne (HN & Hcut & Hnaive).
    unfold collect_news. unfold bind at 1. rewrite Hloop.
    rewrite bool_decide_eq_false_2 by done.
    unfold now, timedelta, datetime_sub, date_ge, lift. run.
    rewrite bool_decide_eq_true_2 by done. cbn iota.
    rewrite bool_decide_eq_true_2 by done. cbn iota.
    rewrite (proj2 (all_naive_spec merged)) by done.
    by rewrite boolean_index_recent.
  - intros Hne Hrange.
    unfold collect_news. unfold bind at 1. rewrite Hloop.
    rewrite bool_decide_eq_false_2 by done.
    unfold now, timedelta, datetime_sub, lift. run.
    case_bool_decide as HN; [| done]. cbn iota.
    case_bool_decide as Hcut; [| done]. tauto.
  - intros Hne [HN Hcut] Haware.
    unfold collect_news. unfold bind at 1. rewrite Hloop.
    rewrite bool_decide_eq_false_2 by done.
    unfold now, timedelta, datetime_sub, date_ge, lift. run.
    rewrite bool_decide_eq_true_2 by done. cbn iota.
    rewrite bool_decide_eq_true_2 by done. cbn iota.
    destruct (forallb _ _) eqn:Hall; [| done].
    by apply all_naive_spec in Hall.
Qed.

(** A batch that [collect_news] returns is the merged records cut down
    by the date test. *)
Lemma collect_news_returns (self : NewsCollector) (log : list call)
    (batch : list Article) (log' : list call) :
  let runs := (source_runs world self (sources self) log).1 in
  let log1 := (source_runs world self (sources self) log).2 in
  let merged := concat (records <$> runs) in
  let t := datetime_now world log1 in
  collect_news world self log = (Returns batch, log') →
  batch = filter (recent self t) merged
  ∧ (merged = [] ∨ filter_defined self t merged)
  ∧ (log' = log1 ∨ log' = log1 ++ [CallNow]).
Proof.
  cbn zeta. intros Hrun.
  destruct (collect_news_cases self log)
    as (Hempty & Hdefined & Hoverflow & Haware).
  set (merged := concat (records <$> _)) in *.
  set (t := datetime_now world _) in *.
  destruct (decide (merged = [])) as [Hnil | Hne].
  { rewrite (Hempty Hnil) in Hrun. injection Hrun as <- <-.
    rewrite Hnil. split_and!; [done | by left | by left]. }
  destruct (decide (-999999999 ≤ days_to_look_back self ≤ 999999999
                    ∧ datetime_min
                      ≤ t - microseconds_of_days (days_to_look_back self)
                      ≤ datetime_max)) as [Hrange | Hrange].
  2:{ by rewrite (Hoverflow Hne Hrange) in Hrun. }
  destruct (decide (Forall (fun a => aware (date a) = false) merged))
    as [Hnaive | Hnaive].
  2:{ by rewrite (Haware Hne Hrange Hnaive) in Hrun. }
  assert (filter_defined self t merged) as Hdef.
  { destruct Hrange as [HN Hcut]. exact (conj HN (conj Hcut Hnaive)). }
  rewrite (Hdefined Hne Hdef) in Hrun. injection Hrun as <- <-.
  split_and!; [done | by right | by right].
Qed.

(** C1, as amended. A batch returned by [collect_news] is the
    concatenation, in the order of the sources, of one run of records per
    source; the records of a run carry the name of their source and
    pairwise distinct URLs.  The run of a source holds the records that
    [_collect_from_source] returned for that source and that pass the date
    test: records of different sources are not compared with each other. *)
Theorem collect_news_urls_distinct_per_source (self : NewsCollector)
    (log : list call) (batch : list Article) (log' : list call) :
  collect_news world self log = (Returns batch, log') →
  ∃ runs log1 segs,
    source_runs world self (sources self) log = (runs, log1)
    ∧ segs = (fun run => filter (recent self (datetime_now world log1))
                           (records run)) <$> runs
    ∧ batch = concat segs
    ∧ Forall2 contribution (sources self) segs.
Proof.
  intros Hrun.
  destruct (collect_news_returns self log batch log' Hrun) as (Hbatch & _).
  pose proof (source_runs_contribution self (sources self) log) as Hsegs.
  destruct (source_runs world self (sources self) log) as [runs log1].
  cbn [fst snd] in *.
  eexists runs, log1, _. split_and!; [done | done | |].
  - by rewrite Hbatch, filter_concat, <- list_fmap_compose.
  - rewrite Forall2_fmap_r in Hsegs |- *.
    eapply Forall2_impl; [exact Hsegs |].
    intros src run Hc. by apply contribution_filter.
Qed.

(** C5. With a cap [K >= 0] and a landing page that yields more than [K]
    links, [_collect_from_source] makes exactly [K] extraction attempts,
    on the first [K] links in their order. *)
Theorem cap_enforcement (self : NewsCollector) (src : Source)
    (log : list call) (response : Response) :
  0 ≤ max_articles_per_source self →
  requests_get world log (source_url src) = Returns response →
  is_error_status response = false →
  max_articles_per_source self
  < Z.of_nat (length (_extract_article_links (anchors response)
                        (source_url src))) →
  ∃ arts new,
    _collect_from_source world self src log
    = (Returns arts, log ++ CallGet (source_url src) :: new)
    ∧ attempts new
      = take (Z.to_nat (max_articles_per_source self))
          (_extract_article_links (anchors response) (source_url src))
    ∧ Z.of_nat (length (attempts new)) = max_articles_per_source self.
Proof.
  intros HK Hget Hstatus Hmore.
  pose proof (collect_from_source_cases self src log) as Hcases.
  cbn zeta in Hcases. rewrite Hget, Hstatus in Hcases.
  destruct Hcases as (arts & new & Hrun & Hatt & _).
  rewrite slice_to_nonneg in Hatt by done.
  exists arts, new. rewrite <- app_assoc in Hrun. split_and!; [done.. |].
  rewrite Hatt, length_take. lia.
Qed.


End CollectorFacts.

Section CollectorScenarios.

Import Collector CollectorMore Scenarios MoreScenarios.

(** C1 as stated does not hold: when the landing pages of two sources
    link to the same story, the batch holds that URL twice, once per
    source. *)
Lemma collect_news_duplicate_url :
  ∃ batch log',
    collect_news shared_story_world test_collector [] = (Returns batch, log')
    ∧ url <$> batch
      = [lit "https://example.com/story"; lit "https://example.com/story"]
    ∧ source <$> batch = [lit "Test Source 1"; lit "Test Source 2"]
    ∧ ¬ NoDup (url <$> batch).
Proof.
  eexists _, _. split; [vm_compute; reflexivity |].
  split; [reflexivity |]. split; [reflexivity |].
  intros Hnodup. apply NoDup_cons in Hnodup as [Hnotin _].
  apply Hnotin. by apply list_elem_of_singleton.
Qed.

Lemma cap_enforcement_witness :
  ∃ arts new,
    _collect_from_source dated_world one_source_collector
      {| source_name := lit "Test Source 1";
         source_url := lit "https://example.com/news1" |} []
    = (Returns arts, CallGet (lit "https://example.com/news1") :: new)
    ∧ attempts new
      = [lit "https://example.com/old"; lit "https://example.com/fresh"]
    ∧ Z.of_nat (length (attempts new)) = 2.
Proof.
  apply (cap_enforcement dated_world one_source_collector
           {| source_name := lit "Test Source 1";
              source_url := lit "https://example.com/news1" |} []
           {| status_code := 200;
              anchors := [lit "/old"; lit "/fresh"; lit "/undated"] |}).
  - simpl. lia.
  - reflexivity.
  - reflexivity.
  - vm_compute. reflexivity.
Defined.

Lemma collect_news_urls_distinct_per_source_witness :
  ∃ batch log' runs log1,
    collect_news shared_story_world test_collector [] = (Returns batch, log')
    ∧ source_runs shared_story_world test_collector test_sources []
      = (runs, log1)
    ∧ batch
      = concat ((fun run => filter (recent test_collector
                                      (ticking_clock log1)) (records run))
                  <$> runs)
    ∧ length runs = 2%nat.
Proof.
  assert (∃ batch log',
            collect_news shared_story_world test_collector []
            = (Returns batch, log')) as (batch & log' & Hrun).
  { eexists _, _. vm_compute. reflexivity. }
  destruct (collect_news_urls_distinct_per_source shared_story_world
              test_collector [] batch log' Hrun)
    as (runs & log1 & segs & Hruns & -> & Hbatch & Hsegs).
  exists batch, log', runs, log1. split_and!; [done | done | done |].
  apply Forall2_length in Hsegs. rewrite length_fmap in Hsegs.
  by rewrite <- Hsegs.
Defined.



(** A story dated with an offset makes the comparison raise. *)
Example collect_news_aware_date :
  ∃ log', collect_news aware_world one_source_collector []
          = (Raises TypeError, log').
Proof. eexists. vm_compute. reflexivity. Qed.

Lemma extract_article_content_exact_witness :
  ∃ a log',
    _extract_article_content shared_story_world
      (lit "https://example.com/story") (lit "Test Source 1") []
    = (Returns (Some a), log')
    ∧ title a ≠ [] ∧ text a ≠ []
    ∧ date a
      = naive (ticking_clock [CallDownload (lit "https://example.com/story");
                              CallParse (lit "https://example.com/story")]).
Proof.
  destruct (extract_article_content_exact shared_story_world
              (lit "https://example.com/story") (lit "Test Source 1") [])
    as (r & log' & Hrun & _ & Hsome).
  destruct r as [a |]; [| vm_compute in Hrun; discriminate].
  destruct (Hsome a eq_refl) as (Ht & Hx & _ & _ & p & Hp & _ & _ & Hdate).
  exists a, log'. split_and!; [exact Hrun | exact Ht | exact Hx |].
  rewrite Hdate. simpl in Hp. injection Hp as <-. reflexivity.
Defined.

End CollectorScenarios.

(** ** Condensation *)

Section SummarizerFacts.

Import Summarizer.

Variable world : World.
Variable self : ArticleSummarizer.

Lemma slice_to_500 (text : list N) : slice_to 500 text = take 500 text.
Proof. by rewrite slice_to_nonneg. Qed.

(** [summarize] on a non-empty text, by cases on the generation path. *)
Lemma summarize_cases (text : list N) (log : list Summarizer.call) :
  text ≠ [] →
  match generation_path world self (truncate_input text) log with
  | (Returns summary, log') =>
      summarize world self text log = (Returns summary, log')
  | (Raises _, log') =>
      summarize world self text log
      = (Returns (take 500 (truncate_input text) ++ lit "..."), log')
  end.
Proof.
  intros Htext. unfold summarize.
  rewrite bool_decide_eq_false_2 by done.
  unfold try_except.
  destruct (generation_path world self (truncate_input text) log)
    as [[summary | e] log']; [done |].
  cbn [List.find fst snd is_Exception]. unfold ret. by rewrite slice_to_500.
Qed.

(** [summarize] returns on every text. *)
Lemma summarize_returns (text : list N) (log : list Summarizer.call) :
  ∃ summary log', summarize world self text log = (Returns summary, log').
Proof.
  destruct (decide (text = [])) as [-> | Htext]; [by eexists _, _ |].
  pose proof (summarize_cases text log Htext) as Hcases.
  destruct (generation_path world self (truncate_input text) log)
    as [[summary | e] log']; by eexists _, _.
Qed.

(** The truncation leaves at most 1024 words, and a text of at most 1024
    words as it is. *)
Lemma truncate_input_word_count (text : list N) :
  (length (split_ws (truncate_input text)) ≤ 1024)%nat
  ∧ ((length (split_ws text) ≤ 1024)%nat → truncate_input text = text)
  ∧ split_ws (truncate_input text) = take 1024 (split_ws text).
Proof.
  unfold truncate_input, max_input_length.
  destruct (Z.ltb_spec 1024 (Z.of_nat (length (split_ws text)))) as [Hgt | Hle].
  - rewrite slice_to_nonneg by lia.
    change (Z.to_nat 1024) with 1024%nat.
    rewrite split_ws_join by (apply Forall_take, split_ws_words).
    rewrite length_take. split_and!; [lia | lia | done].
  - split_and!; [lia | done |]. by rewrite take_ge by lia.
Qed.


End SummarizerFacts.

Section SummarizerScenarioFacts.

Import Summarizer SummarizerScenarios.


(** A text of 1025 words is cut to its first 1024 words before the
    fallback takes its first 500 characters. *)
Example long_text_is_cut_first :
  length (split_ws long_text) = 1025%nat
  ∧ length (split_ws (truncate_input long_text)) = 1024%nat
  ∧ fst (summarize failing_world primed long_text [])
    = Returns (take 500 (concat (replicate 1024 (lit "ab "))) ++ lit "...").
Proof. vm_compute. by split_and!. Qed.

(** [tests/test_summarizer.py::test_empty_text] *)
Example summarize_empty_text :
  summarize failing_world primed [] [] = (Returns [], []).
Proof. reflexivity. Qed.

End SummarizerScenarioFacts.

(** ** Stylization *)

Section HumorizerFacts.

Import Humorizer.

Variable world : World.
Variable self : HumorGenerator.

(** [add_humor], by cases on the credential and on the answer of the
    chat API.  The heap of article dictionaries is never touched. *)
Lemma add_humor_cases (title summary : list N) (st : State) :
  let request := humor_request self (_create_prompt title summary) in
  let st' := {| heap := heap st;
                log := log st ++ [CallChatCompletion request] |} in
  if no_api_key (api_key world) then
    add_humor world self title summary st
    = (Returns (pass_through title summary), st)
  else
    match chat_completion_create world (log st) request with
    | Returns (Some content :: _) =>
        add_humor world self title summary st = (Returns (strip content), st')
    | _ =>
        add_humor world self title summary st
        = (Returns (pass_through title summary), st')
    end.
Proof.
  unfold add_humor.
  destruct (no_api_key (api_key world)); [done |].
  unfold try_except, bind, chat. cbn zeta.
  destruct (chat_completion_create world (log st) _) as [choices | e];
    [| done].
  by destruct choices as [|[content |] choices].
Qed.

Lemma add_humor_returns (title summary : list N) (st : State) :
  ∃ v log',
    add_humor world self title summary st
    = (Returns v, {| heap := heap st; log := log' |}).
Proof.
  pose proof (add_humor_cases title summary st) as Hcases.
  cbn zeta in Hcases.
  destruct (no_api_key (api_key world)).
  { exists (pass_through title summary), (log st). by destruct st. }
  destruct (chat_completion_create world (log st) _)
    as [[|[content |] choices] | e]; by eexists _, _.
Qed.

(** C3. Without a credential (none, or an empty one) [add_humor] returns
    the title, a blank line and the summary, and makes no request.  With a
    credential, a request that fails (the call raises, or the answer has
    no choice or no content) gives the same value.  [add_humor] returns on
    every input. *)
Theorem add_humor_pass_through (title summary : list N) (st : State) :
  (api_key world = None ∨ api_key world = Some [] →
   add_humor world self title summary st
   = (Returns (title ++ nl ++ nl ++ summary), st))
  ∧ (request_fails
       (chat_completion_create world (log st)
          (humor_request self (_create_prompt title summary))) →
     fst (add_humor world self title summary st)
     = Returns (title ++ nl ++ nl ++ summary))
  ∧ (∃ v st', add_humor world self title summary st = (Returns v, st')).
Proof.
  pose proof (add_humor_cases title summary st) as Hcases.
  cbn zeta in Hcases. split_and!.
  - intros Hkey.
    assert (no_api_key (api_key world) = true) as Hno
        by (by destruct Hkey as [-> | ->]).
    by rewrite Hno in Hcases.
  - intros Hfail. destruct (no_api_key (api_key world)).
    { by rewrite Hcases. }
    destruct (chat_completion_create world (log st) _)
      as [[|[content |] choices] | e]; by rewrite Hcases.
  - destruct (add_humor_returns title summary st) as (v & log' & Hrun).
    by eexists _, _.
Qed.

Lemma preserves_refl (st : State) : preserves st st.
Proof. intros l d Hd. by exists d. Qed.

Lemma preserves_trans (st1 st2 st3 : State) :
  preserves st1 st2 → preserves st2 st3 → preserves st1 st3.
Proof.
  intros H12 H23 l d Hd.
  destruct (H12 l d Hd) as (d2 & Hd2 & Hsame2).
  destruct (H23 l d2 Hd2) as (d3 & Hd3 & Hsame3).
  exists d3. split; [done |]. intros Hlack.
  rewrite <- (Hsame2 Hlack) in Hlack |- *. by apply Hsame3.
Qed.

Lemma getitem_has_key (d : gmap (list N) (list N)) (key : list N)
    (st : State) :
  has_key key d = true → ∃ v, getitem d key st = (Returns v, st).
Proof.
  unfold has_key, getitem. intros [v Hv]%bool_decide_eq_true.
  exists v. by rewrite Hv.
Qed.

Lemma batch_loop_spec (articles : list nat) (st : State) :
  (∀ l, l ∈ articles → is_Some (heap st !! l)) →
  ∃ st', batch_loop world self articles st = (Returns tt, st')
         ∧ preserves st st'.
Proof.
  revert st. induction articles as [|l articles IH]; intros st Halloc.
  - exists st. split; [done | apply preserves_refl].
  - destruct (Halloc l) as [d Hd]; [by left |].
    assert (∃ st1, (let! _ :=
                      if has_key (lit "title") d && has_key (lit "summary") d
                      then
                        let! t := getitem d (lit "title") in
                        let! s := getitem d (lit "summary") in
                        let! h := add_humor world self t s in
                        setitem l (lit "humorous_content") h
                      else ret tt in
                    batch_loop world self articles) st
                   = batch_loop world self articles st1
                   ∧ preserves st st1) as (st1 & Hstep & Hpres).
    { destruct (has_key (lit "title") d && has_key (lit "summary") d)
        eqn:Hkeys.
      - apply andb_true_iff in Hkeys as [Ht Hs].
        destruct (getitem_has_key d _ st Ht) as [t Hgt].
        destruct (getitem_has_key d _ st Hs) as [s Hgs].
        destruct (add_humor_returns t s st) as (h & log' & Hh).
        eexists. unfold bind at 1 2 3 4. rewrite Hgt, Hgs, Hh.
        unfold setitem. cbn [heap log]. split; [reflexivity |].
        intros l' d' Hd'. cbn [heap]. destruct (decide (l' = l)) as [-> | Hne].
        + rewrite lookup_alter_eq, Hd. eexists. split; [done |].
          rewrite Hd in Hd'. injection Hd' as <-.
          rewrite Ht, Hs. discriminate.
        + rewrite lookup_alter_ne by done. by exists d'.
      - exists st. split; [done | apply preserves_refl]. }
    destruct (IH st1) as (st' & Hloop & Hpres').
    { intros l' Hl'. destruct (Halloc l') as [d' Hd']; [by right |].
      destruct (Hpres l' d' Hd') as (d1 & Hd1 & _). by exists d1. }
    exists st'. split; [| by eapply preserves_trans].
    cbn [batch_loop]. unfold bind at 1, deref. rewrite Hd.
    by rewrite Hstep.
Qed.

(** C9. [batch_add_humor] returns the list it was given, without raising,
    and the dictionary behind every reference that lacks the ["title"]
    key or the ["summary"] key is the same afterwards as before: in
    particular it has gained no ["humorous_content"]. *)
Theorem batch_add_humor_frame (articles : list nat) (st : State) :
  (∀ l, l ∈ articles → is_Some (heap st !! l)) →
  ∃ st',
    batch_add_humor world self articles st = (Returns articles, st')
    ∧ ∀ l d, l ∈ articles → heap st !! l = Some d →
        d !! lit "title" = None ∨ d !! lit "summary" = None →
        heap st' !! l = Some d
        ∧ (d !! lit "humorous_content" = None →
           ∀ d', heap st' !! l = Some d' →
                 d' !! lit "humorous_content" = None).
Proof.
  intros Halloc.
  destruct (batch_loop_spec articles st Halloc) as (st' & Hloop & Hpres).
  exists st'. split.
  { unfold batch_add_humor, bind. by rewrite Hloop. }
  intros l d _ Hd Hlack.
  destruct (Hpres l d Hd) as (d' & Hd' & Hsame).
  assert (d' = d) as ->.
  { apply Hsame. apply andb_false_iff. unfold has_key.
    destruct Hlack as [Hnone | Hnone]; [left | right];
      apply bool_decide_eq_false; rewrite Hnone; by intros [? ?]. }
  split; [done |]. intros Hnone d'' Hd''. by simplify_eq.
Qed.

End HumorizerFacts.

Section HumorizerScenarioFacts.

Import Humorizer HumorizerScenarios.

(** The pass-through of the specification: [transform("T", "S")] is
    ["T\n\nS"]. *)
Example add_humor_T_S (st : State) :
  add_humor no_key_world default_generator (lit "T") (lit "S") st
  = (Returns [84; 10; 10; 83]%N, st).
Proof. reflexivity. Qed.

(** With a credential and an answering API the stripped content comes
    back ([tests/test_humorizer.py::test_add_humor]). *)
Example add_humor_answer :
  fst (add_humor answering_world default_generator (lit "T") (lit "S")
         two_articles)
  = Returns (lit "funny").
Proof. reflexivity. Qed.

Lemma add_humor_pass_through_witness :
  add_humor no_key_world default_generator (lit "T") (lit "S") two_articles
  = (Returns (lit "T" ++ nl ++ nl ++ lit "S"), two_articles)
  ∧ fst (add_humor api_error_world default_generator (lit "T") (lit "S")
           two_articles)
    = Returns (lit "T" ++ nl ++ nl ++ lit "S").
Proof.
  split.
  - apply (add_humor_pass_through no_key_world default_generator
             (lit "T") (lit "S") two_articles).
    left. reflexivity.
  - apply (add_humor_pass_through api_error_world default_generator
             (lit "T") (lit "S") two_articles).
    exact I.
Defined.

Lemma batch_add_humor_frame_witness :
  ∃ st',
    batch_add_humor answering_world default_generator [0; 1]%nat two_articles
    = (Returns [0; 1]%nat, st')
    ∧ heap st' !! 1%nat = Some unsummarized_article.
Proof.
  destruct (batch_add_humor_frame answering_world default_generator
              [0; 1]%nat two_articles) as (st' & Hrun & Hframe).
  { intros l Hl. apply elem_of_cons in Hl as [-> | Hl].
    - exists complete_article. reflexivity.
    - apply list_elem_of_singleton in Hl as ->.
      exists unsummarized_article. reflexivity. }
  exists st'. split; [exact Hrun |].
  apply (Hframe 1%nat unsummarized_article).
  - apply list_elem_of_further, list_elem_of_here.
  - reflexivity.
  - right. reflexivity.
Defined.

(** The complete article of the same batch does get its content. *)
Example batch_add_humor_complete :
  ∃ st',
    batch_add_humor answering_world default_generator [0; 1]%nat two_articles
    = (Returns [0; 1]%nat, st')
    ∧ heap st' !! 0%nat
      = Some (<[lit "humorous_content" := lit "funny"]> complete_article).
Proof. eexists. split; [reflexivity |]. by vm_compute. Qed.

End HumorizerScenarioFacts.

(** * Further properties *)

(** ** Link discovery, continued *)

Section MoreLinkFacts.







Lemma lstrip_stops (chars a b : list N) (c : N) :
  c ∉ chars → ∃ a', lstrip chars (a ++ c :: b) = a' ++ c :: b.
Proof.
  intros Hc. induction a as [|x a [a' IH]]; simpl.
  - exists []. by rewrite bool_decide_eq_false_2.
  - case_bool_decide; [by exists a' | by exists (x :: a)].
Qed.

(** [rstrip] never removes a character that is not in [chars], nor
    anything before one. *)
Lemma rstrip_keeps_prefix (chars pre s : list N) (c : N) :
  c ∉ chars → ∃ r, rstrip chars (pre ++ c :: s) = pre ++ c :: r.
Proof.
  intros Hc. unfold rstrip.
  rewrite reverse_app, reverse_cons, <- app_assoc. simpl.
  destruct (lstrip_stops chars (reverse s) (reverse pre) c Hc) as [a' ->].
  exists (reverse a').
  rewrite reverse_app, reverse_cons, reverse_involutive.
  by rewrite <- app_assoc.
Qed.

Lemma make_absolute_nonempty (base_url href : list N) :
  href ≠ [] → make_absolute base_url href ≠ [].
Proof.
  intros Hne. unfold make_absolute.
  destruct (startswith (lit "/") href).
  { intros [_ ?]%app_eq_nil. done. }
  destruct (negb (startswith_any [lit "http://"; lit "https://"] href));
    [| done].
  intros [_ Hnil]%app_eq_nil. discriminate.
Qed.

(** X2. On a base URL of the form [http://host], [https://host] or one
    of these followed by a path, every link the discoverer returns starts
    with [http://] or [https://]. *)
Theorem extracted_links_are_http (hrefs : list (list N))
    (base_url scheme host rest u : list N) :
  base_url = scheme ++ lit "://" ++ host ++ rest →
  scheme = lit "http" ∨ scheme = lit "https" →
  host ≠ [] → 47%N ∉ host → (rest = [] ∨ ∃ r, rest = 47%N :: r) →
  u ∈ _extract_article_links hrefs base_url →
  (∃ r, u = lit "http://" ++ r) ∨ (∃ r, u = lit "https://" ++ r).
Proof.
  intros Hbase Hscheme Hhost Hslash Hrest Hu.
  apply elem_of_extract_article_links in Hu as (href & _ & _ & ->).
  assert (47%N ∉ scheme) as Hs.
  { destruct Hscheme as [-> | ->]; by apply (bool_decide_unpack _). }
  assert (∀ r, (∃ r', scheme ++ lit "://" ++ r = lit "http://" ++ r')
               ∨ (∃ r', scheme ++ lit "://" ++ r = lit "https://" ++ r'))
    as Hprefix.
  { intros r. destruct Hscheme as [-> | ->]; [left | right]; by exists r. }
  unfold make_absolute.
  destruct (startswith (lit "/") href) eqn:Hroot.
  { rewrite Hbase, domain_scheme_host by done.
    rewrite <- !app_assoc. apply Hprefix. }
  destruct (startswith_any [lit "http://"; lit "https://"] href) eqn:Hhttp;
    simpl.
  { unfold startswith_any in Hhttp. cbn [existsb] in Hhttp.
    rewrite !orb_true_iff, !startswith_spec in Hhttp.
    destruct Hhttp as [? | [? | ?]]; [by left | by right | done]. }
  destruct host as [|c host]; [done |].
  apply not_elem_of_cons in Hslash as [Hc _].
  destruct (rstrip_keeps_prefix (lit "/") (scheme ++ lit "://")
              (host ++ rest) c) as [r Hr].
  { intros ->%list_elem_of_singleton. done. }
  rewrite Hbase.
  replace (scheme ++ lit "://" ++ (c :: host) ++ rest)
    with ((scheme ++ lit "://") ++ c :: host ++ rest)
    by (by rewrite <- app_assoc).
  rewrite Hr, <- !app_assoc. apply Hprefix.
Qed.

Lemma extracted_links_are_http_witness :
  (∃ r, lit "https://example.com/news/article3" = lit "http://" ++ r)
  ∨ (∃ r, lit "https://example.com/news/article3" = lit "https://" ++ r).
Proof.
  apply (extracted_links_are_http [lit "#top"; lit "article3"]
           (lit "https://example.com/news/") (lit "https")
           (lit "example.com") (lit "/news/")).
  - reflexivity.
  - by right.
  - discriminate.
  - by apply (bool_decide_unpack _).
  - right. by exists (lit "news/").
  - vm_compute. apply list_elem_of_here.
Defined.

Lemma extracted_links_nonempty (hrefs : list (list N)) (base_url : list N) :
  [] ∉ _extract_article_links hrefs base_url.
Proof.
  rewrite extract_article_links_spec, elem_of_first_occurrences.
  unfold resolved_links.
  intros (href & Heq & [Hskip _]%list_elem_of_filter)%list_elem_of_fmap.
  symmetry in Heq. revert Heq. apply make_absolute_nonempty.
  intros ->. discriminate.
Qed.

Lemma filter_keeps_all {A} (P : A → Prop) `{!∀ y, Decision (P y)}
    (l : list A) :
  Forall P l → filter P l = l.
Proof.
  induction 1 as [|x l Hx Hl IH]; [done |].
  by rewrite filter_cons_True, IH.
Qed.

(** X3. The discoverer returns at most as many links as the page has
    anchors, and never the empty string.  When the accepted anchors
    resolve to pairwise distinct strings, the output is exactly these, in
    page order. *)
Theorem extracted_links_bounds (hrefs : list (list N)) (base_url : list N) :
  (length (_extract_article_links hrefs base_url) ≤ length hrefs)%nat
  ∧ ([] ∉ _extract_article_links hrefs base_url)
  ∧ (NoDup (resolved_links hrefs base_url) →
     _extract_article_links hrefs base_url = resolved_links hrefs base_url).
Proof.
  rewrite extract_article_links_spec.
  assert (∀ l, length (first_occurrences l) ≤ length l)%nat as Hlen.
  { induction l as [|x l IH]; simpl; [done |].
    pose proof (length_filter (fun y => y ≠ x) (first_occurrences l)). lia. }
  split_and!.
  - etrans; [apply Hlen |]. unfold resolved_links.
    rewrite length_fmap. apply length_filter.
  - rewrite <- extract_article_links_spec. apply extracted_links_nonempty.
  - induction 1 as [|x l Hx Hl IH]; simpl; [done |].
    rewrite IH. f_equal. apply filter_keeps_all.
    apply Forall_forall. by intros y Hy ->.
Qed.

Lemma extracted_links_bounds_witness :
  _extract_article_links [lit "/a"; lit "#"; lit "/b"]
    (lit "https://example.com")
  = [lit "https://example.com/a"; lit "https://example.com/b"].
Proof.
  apply (extracted_links_bounds [lit "/a"; lit "#"; lit "/b"]
           (lit "https://example.com")).
  by apply (bool_decide_unpack _).
Defined.

End MoreLinkFacts.

(** ** Ingestion, continued *)

Section MoreCollectorFacts.

Import Collector CollectorMore.

Variable world : World.

Ltac run :=
  unfold now; unfold bind, try_except, external, ret, raise;
  cbn [List.find fst snd].

(** One run of [_extract_article_content]: it returns, logs one attempt,
    and a record it returns has a non-empty title and text. *)
Lemma extract_article_content_strong (u name : list N) (log : list call) :
  ∃ r new,
    _extract_article_content world u name log = (Returns r, log ++ new)
    ∧ attempts new = [u]
    ∧ ∀ a, r = Some a →
        title a ≠ [] ∧ text a ≠ [] ∧ url a = u ∧ source a = name.
Proof.
  pose proof (extract_article_content_cases world u name log) as Hcases.
  cbn zeta in Hcases. rewrite <- !app_assoc in Hcases. simpl in Hcases.
  destruct (article_download world log u) as [[] | e].
  2:{ eexists _, _. by split_and!. }
  destruct (article_parse world (log ++ [CallDownload u]) u) as [p | e].
  2:{ eexists _, _. by split_and!. }
  destruct (bool_decide (parsed_title p = [])
            || bool_decide (parsed_text p = [])) eqn:Hempty.
  { eexists _, _. by split_and!. }
  apply orb_false_iff in Hempty as [Ht Hx].
  apply bool_decide_eq_false in Ht, Hx.
  destruct (publish_date p) as [d |].
  - eexists _, _. split_and!; [exact Hcases | done |]. by intros a [= <-].
  - eexists _, _. split_and!; [exact Hcases | done |]. by intros a [= <-].
Qed.

Lemma extract_loop_strong (name : list N) (links : list (list N))
    (articles : list Article) (log : list call) :
  ∃ arts new,
    extract_loop world name links articles log
    = (Returns (articles ++ arts), log ++ new)
    ∧ attempts new = links
    ∧ (length arts ≤ length links)%nat
    ∧ Forall (fun a => title a ≠ [] ∧ text a ≠ [] ∧ url a ∈ links
                       ∧ source a = name) arts.
Proof.
  revert articles log.
  induction links as [|u links IH]; intros articles log; simpl.
  - exists [], []. rewrite !app_nil_r. by split_and!.
  - destruct (extract_article_content_strong u name log)
      as (r & new1 & Hrun & Hatt1 & Hrec).
    run. rewrite Hrun.
    destruct r as [a |].
    + destruct (IH (articles ++ [a]) (log ++ new1))
        as (arts & new2 & Hloop & Hatt2 & Hlen & Hall).
      destruct (Hrec a eq_refl) as (Ht & Hx & Hurl & Hname).
      exists (a :: arts), (new1 ++ new2).
      rewrite Hloop, attempts_app, Hatt1, Hatt2, <- !app_assoc.
      split_and!; [done | done | simpl; lia |].
      constructor.
      * split_and!; [done | done | rewrite Hurl; by left | done].
      * eapply Forall_impl; [exact Hall |].
        intros b (? & ? & ? & ?). split_and!; [done | done | by right | done].
    + destruct (IH articles (log ++ new1))
        as (arts & new2 & Hloop & Hatt2 & Hlen & Hall).
      exists arts, (new1 ++ new2).
      rewrite Hloop, attempts_app, Hatt1, Hatt2, <- !app_assoc.
      split_and!; [done | done | simpl; lia |].
      eapply Forall_impl; [exact Hall |].
      intros b (? & ? & ? & ?). split_and!; [done | done | by right | done].
Qed.

(** One run of [_collect_from_source], with everything it guarantees:
    the fetch is logged first; the attempts are the capped links; the
    records are sound and no more than the attempts. *)
Lemma collect_from_source_strong (self : NewsCollector) (src : Source)
    (log : list call) :
  ∃ r new,
    _collect_from_source world self src log
    = (r, log ++ CallGet (source_url src) :: new)
    ∧ (0 ≤ max_articles_per_source self →
       (length (attempts new) ≤ Z.to_nat (max_articles_per_source self))%nat)
    ∧ ∀ arts, r = Returns arts →
        (length arts ≤ length (attempts new))%nat
        ∧ Forall (fun a => title a ≠ [] ∧ text a ≠ [] ∧ url a ≠ []
                           ∧ source a = source_name src) arts.
Proof.
  unfold _collect_from_source, raise_for_status. run.
  destruct (requests_get world log (source_url src)) as [response | e].
  2:{ destruct e; eexists _, []; cbn; (split_and!; [done | simpl; lia |]);
        intros arts [= <-]; by split. }
  destruct (is_error_status response); run.
  { eexists _, []. split_and!; [done | simpl; lia |].
    intros arts [= <-]. by split. }
  match goal with
  | |- context [extract_loop world ?n ?ls [] ?lg] =>
      destruct (extract_loop_strong n ls [] lg)
        as (arts & new & Hloop & Hatt & Hlen & Hall)
  end.
  rewrite Hloop. exists (Returns arts), new.
  rewrite <- app_assoc. split_and!; [done | |].
  - intros HK. rewrite Hatt, slice_to_nonneg, length_take by done. lia.
  - intros arts' [= <-]. rewrite Hatt. split; [done |].
    eapply Forall_impl; [exact Hall |].
    intros a (? & ? & Hurl & ?). split_and!; [done | done | | done].
    intros Hnil. rewrite Hnil in Hurl.
    unfold slice_to in Hurl.
    destruct (max_articles_per_source self <? 0);
      apply subseteq_take in Hurl;
      by apply extracted_links_nonempty in Hurl.
Qed.

Lemma sound_record_weaken (src : Source) (srcs : list Source)
    (a : Article) :
  sound_record srcs a → sound_record (src :: srcs) a.
Proof.
  intros (? & ? & ? & src' & ? & ?). split_and!; [done.. |].
  exists src'. split; [by right | done].
Qed.

(** The runs of the sources, with everything they guarantee: one run per
    source; the log grows by the calls of the runs; the records of a run
    are sound and no more than its attempts, which the cap bounds. *)
Lemma source_runs_strong (self : NewsCollector) (srcs : list Source)
    (log : list call) :
  let runs := (source_runs world self srcs log).1 in
  let log' := (source_runs world self srcs log).2 in
  length runs = length srcs
  ∧ log' = log ++ concat (calls <$> runs)
  ∧ Forall (fun run =>
              Forall (sound_record srcs) (records run)
              ∧ (length (records run) ≤ length (attempts (calls run)))%nat
              ∧ (0 ≤ max_articles_per_source self →
                 (length (attempts (calls run))
                  ≤ Z.to_nat (max_articles_per_source self))%nat)) runs.
Proof.
  cbn zeta. revert log.
  induction srcs as [|src srcs IH]; intros log; simpl.
  - rewrite app_nil_r. by split_and!.
  - destruct (collect_from_source_strong self src log)
      as (r & new1 & Hrun & Hcap & Hrecs).
    rewrite Hrun.
    destruct (IH (log ++ CallGet (source_url src) :: new1))
      as (Hlen & Hlog & Hall).
    destruct (source_runs world self srcs _) as [runs log'].
    cbn [fst snd] in *. rewrite drop_app_length.
    split_and!.
    + simpl. by rewrite Hlen.
    + rewrite Hlog. simpl. by rewrite <- !app_assoc.
    + constructor.
      * cbn [records calls].
        change (attempts (CallGet (source_url src) :: new1))
          with (attempts new1).
        destruct r as [arts | e].
        -- destruct (Hrecs arts eq_refl) as [Hle Hsound].
           split_and!; [| done | done].
           eapply Forall_impl; [exact Hsound |].
           intros a (? & ? & ? & ?). split_and!; [done.. |].
           exists src. split; [by left | done].
        -- split_and!; [done | simpl; lia | done].
      * eapply Forall_impl; [exact Hall |].
        intros run (Hsound & Hle & Hbound). split_and!; [| done | done].
        eapply Forall_impl; [exact Hsound |].
        intros a. apply sound_record_weaken.
Qed.

Lemma Forall_concat {A} (P : A → Prop) (ls : list (list A)) :
  Forall (Forall P) ls → Forall P (concat ls).
Proof.
  induction 1 as [|l ls Hl _ IH]; simpl; [constructor |].
  by apply Forall_app.
Qed.

(** X4. [collect_news] raises only in its date filter, after the
    sources are done and when they gave a record: [OverflowError] exactly
    when the look-back and the clock do not give a cutoff that is a
    [datetime], [TypeError] exactly when they do and a merged record has a
    timezone-aware date.  In every other case it returns, and every record
    of the batch has a non-empty title, text and URL and carries the name
    of a configured source. *)
Theorem collect_news_records_sound (self : NewsCollector) (log : list call) :
  ∃ merged log1,
    sources_loop world self (sources self) [] log = (Returns merged, log1)
    ∧ Forall (sound_record (sources self)) merged
    ∧ let t := datetime_now world log1 in
      let N := days_to_look_back self in
      let in_range :=
        (-999999999 ≤ N ≤ 999999999)
        ∧ datetime_min ≤ t - microseconds_of_days N ≤ datetime_max in
      let all_naive := Forall (fun a => aware (date a) = false) merged in
      match collect_news world self log with
      | (Returns batch, _) =>
          (merged = [] ∨ (in_range ∧ all_naive))
          ∧ Forall (sound_record (sources self)) batch
      | (Raises e, log') =>
          merged ≠ [] ∧ log' = log1 ++ [CallNow]
          ∧ ((e = OverflowError ∧ ¬ in_range)
             ∨ (e = TypeError ∧ in_range ∧ ¬ all_naive))
      end.
Proof.
  pose proof (sources_loop_runs world self (sources self) [] log) as Hloop.
  destruct (collect_news_cases world self log)
    as (Hempty & Hdefined & Hoverflow & Haware).
  destruct (source_runs_strong self (sources self) log) as (_ & _ & Hall).
  destruct (source_runs world self (sources self) log) as [runs log1].
  cbn [fst snd app] in *.
  set (merged := concat (records <$> runs)) in *.
  set (t := datetime_now world log1) in *.
  assert (Forall (sound_record (sources self)) merged) as Hsound.
  { apply Forall_concat, Forall_fmap.
    eapply Forall_impl; [exact Hall |]. by intros run (? & _). }
  exists merged, log1. split; [exact Hloop |]. split; [exact Hsound |].
  cbn zeta.
  destruct (decide (merged = [])) as [Hnil | Hne].
  { rewrite (Hempty Hnil). split; [by left | constructor]. }
  destruct (decide (-999999999 ≤ days_to_look_back self ≤ 999999999
                    ∧ datetime_min
                      ≤ t - microseconds_of_days (days_to_look_back self)
                      ≤ datetime_max)) as [Hrange | Hrange].
  2:{ rewrite (Hoverflow Hne Hrange). split_and!; [done | done |].
      by left. }
  destruct (decide (Forall (fun a => aware (date a) = false) merged))
    as [Hnaive | Hnaive].
  2:{ rewrite (Haware Hne Hrange Hnaive). split_and!; [done | done |].
      by right. }
  rewrite (Hdefined Hne).
  2:{ destruct Hrange as [HN Hcut]. exact (conj HN (conj Hcut Hnaive)). }
  split; [by right |].
  apply Forall_forall. intros a [_ Ha]%list_elem_of_filter.
  by eapply Forall_forall in Hsound.
Qed.

(** X5. With a cap [K >= 0], the run of each configured source makes at
    most [K] extraction attempts and returns at most [K] records; no
    attempt is made outside these runs, and a batch that [collect_news]
    returns holds at most [K] records of each run. *)
Theorem collect_news_size_bound (self : NewsCollector) (log : list call) :
  0 ≤ max_articles_per_source self →
  ∃ runs log1,
    source_runs world self (sources self) log = (runs, log1)
    ∧ length runs = length (sources self)
    ∧ log1 = log ++ concat (calls <$> runs)
    ∧ Forall (fun run =>
                Z.of_nat (length (attempts (calls run)))
                ≤ max_articles_per_source self
                ∧ Z.of_nat (length (records run))
                  ≤ max_articles_per_source self) runs
    ∧ ∀ batch log',
        collect_news world self log = (Returns batch, log') →
        (log' = log1 ∨ log' = log1 ++ [CallNow])
        ∧ ∃ segs,
            batch = concat segs
            ∧ Forall2 (fun run seg => sublist seg (records run)) runs segs
            ∧ Forall (fun seg => Z.of_nat (length seg)
                                 ≤ max_articles_per_source self) segs.
Proof.
  intros HK.
  destruct (source_runs_strong self (sources self) log)
    as (Hlen & Hlog & Hall).
  pose proof (collect_news_returns world self log) as Hreturns.
  cbn zeta in Hreturns.
  destruct (source_runs world self (sources self) log) as [runs log1].
  cbn [fst snd] in *.
  assert (Forall (fun run =>
                    Z.of_nat (length (attempts (calls run)))
                    ≤ max_articles_per_source self
                    ∧ Z.of_nat (length (records run))
                      ≤ max_articles_per_source self) runs) as Hbounds.
  { eapply Forall_impl; [exact Hall |].
    intros run (_ & Hle & Hcap). specialize (Hcap HK). lia. }
  exists runs, log1. split_and!; [done.. |].
  intros batch log' Hrun.
  destruct (Hreturns batch log' Hrun) as (Hbatch & _ & Hlog').
  split; [done |].
  exists ((fun run => filter (recent self (datetime_now world log1))
                        (records run)) <$> runs).
  split_and!.
  - by rewrite Hbatch, filter_concat, <- list_fmap_compose.
  - apply Forall2_fmap_r, Forall_Forall2_diag, Forall_forall.
    intros run _. apply sublist_filter.
  - apply Forall_fmap. eapply Forall_impl; [exact Hbounds |].
    intros run [_ Hle]. cbn.
    pose proof (length_filter (recent self (datetime_now world log1))
                  (records run)). lia.
Qed.

(** X6. [_collect_from_source] makes no extraction attempt when the
    fetch fails: on a [RequestException] and on a 4xx or 5xx status it
    returns the empty list; any other exception of the fetch is raised to
    the caller. *)
Theorem collect_from_source_fetch_failure (self : NewsCollector)
    (src : Source) (log : list call) :
  let log1 := log ++ [CallGet (source_url src)] in
  (∀ e, requests_get world log (source_url src) = Raises e →
        is_RequestException e = true →
        _collect_from_source world self src log = (Returns [], log1))
  ∧ (∀ response, requests_get world log (source_url src) = Returns response →
        is_error_status response = true →
        _collect_from_source world self src log = (Returns [], log1))
  ∧ (∀ e, requests_get world log (source_url src) = Raises e →
        is_RequestException e = false →
        _collect_from_source world self src log = (Raises e, log1)).
Proof.
  pose proof (collect_from_source_cases world self src log) as Hcases.
  cbn zeta in *. split_and!.
  - intros e He Hreq. by rewrite He, Hreq in Hcases.
  - intros response Hget Hstatus. by rewrite Hget, Hstatus in Hcases.
  - intros e He Hreq. by rewrite He, Hreq in Hcases.
Qed.




(** X8. The cap at its edges.  When the page yields no more links than
    the cap, every link is attempted, once and in page order.  With a
    negative cap [K] the slice drops the last [-K] links instead: all but
    these are attempted. *)
Theorem cap_edge_cases (self : NewsCollector) (src : Source)
    (log : list call) (response : Response) :
  requests_get world log (source_url src) = Returns response →
  is_error_status response = false →
  let links := _extract_article_links (anchors response) (source_url src) in
  ∃ arts new,
    _collect_from_source world self src log
    = (Returns arts, log ++ CallGet (source_url src) :: new)
    ∧ (Z.of_nat (length links) ≤ max_articles_per_source self →
       attempts new = links)
    ∧ (max_articles_per_source self < 0 →
       attempts new
       = take (length links - Z.to_nat (- max_articles_per_source self))
           links).
Proof.
  intros Hget Hstatus links.
  pose proof (collect_from_source_cases world self src log) as Hcases.
  cbn zeta in Hcases. rewrite Hget, Hstatus in Hcases.
  destruct Hcases as (arts & new & Hrun & Hatt & _).
  fold links in Hatt.
  exists arts, new. rewrite <- app_assoc in Hrun. split_and!; [done | |].
  - intros Hle. rewrite Hatt, slice_to_nonneg by lia.
    apply take_ge. lia.
  - intros Hneg. rewrite Hatt. unfold slice_to.
    rewrite (proj2 (Z.ltb_lt _ _) Hneg). f_equal. lia.
Qed.

End MoreCollectorFacts.

Section MoreCollectorScenarios.

Import Collector CollectorMore Scenarios MoreScenarios.

Lemma collect_news_size_bound_witness :
  ∃ runs log1,
    source_runs dated_world test_collector test_sources [] = (runs, log1)
    ∧ length runs = 2%nat
    ∧ Forall (fun run => Z.of_nat (length (attempts (calls run))) ≤ 2
                         ∧ Z.of_nat (length (records run)) ≤ 2) runs.
Proof.
  destruct (collect_news_size_bound dated_world test_collector [])
    as (runs & log1 & Hruns & Hlen & _ & Hbounds & _).
  - simpl. lia.
  - by exists runs, log1.
Defined.

Lemma collect_from_source_fetch_failure_witness :
  _collect_from_source offline_world test_collector source1 []
  = (Returns [], [CallGet (lit "https://example.com/news1")]).
Proof.
  apply (collect_from_source_fetch_failure offline_world test_collector
           source1 [])
    with (e := RequestException); reflexivity.
Defined.


Lemma cap_edge_cases_witness :
  ∃ arts new,
    _collect_from_source dated_world negative_cap_collector source1 []
    = (Returns arts, CallGet (lit "https://example.com/news1") :: new)
    ∧ attempts new
      = [lit "https://example.com/old"; lit "https://example.com/fresh"].
Proof.
  destruct (cap_edge_cases dated_world negative_cap_collector source1 []
              {| status_code := 200;
                 anchors := [lit "/old"; lit "/fresh"; lit "/undated"] |}
              eq_refl eq_refl) as (arts & new & Hrun & _ & Hneg).
  exists arts, new. split; [exact Hrun |].
  rewrite Hneg by (simpl; lia). reflexivity.
Defined.

End MoreCollectorScenarios.

(** ** Condensation, continued *)

Section MoreSummarizerFacts.

Import Summarizer.

Variable world : World.
Variable self : ArticleSummarizer.

(** The generation path logs what it calls, and every text it hands to
    the tokenizer or the pipeline is the text it was given. *)
Lemma generation_path_log (text : list N) (log : list call) :
  ∃ r new,
    generation_path world self text log = (r, log ++ new)
    ∧ ∀ t, CallTokenizer t ∈ new ∨ CallPipeline t ∈ new → t = text.
Proof.
  assert (∀ new : list call,
            Forall (fun c => match c with
                             | CallTokenizer t | CallPipeline t => t = text
                             | _ => True
                             end) new →
            ∀ t, CallTokenizer t ∈ new ∨ CallPipeline t ∈ new → t = text)
    as Hshape.
  { intros new Hnew t [Ht | Ht];
      by eapply Forall_forall in Hnew; [| exact Ht]. }
  unfold generation_path, _summarize_with_pegasus, _summarize_with_pipeline.
  unfold bind, external, raise, ret.
  destruct (model self && tokenizer self).
  - destruct (tokenizer_call world log text) as [input_ids | e].
    2:{ eexists _, [_]. split; [done |]. apply Hshape. by repeat constructor. }
    destruct (model_generate world _ input_ids _ _) as [[|ids summary_ids] | e].
    + eexists _, [_; _]. rewrite <- app_assoc. split; [done |].
      apply Hshape. by repeat constructor.
    + eexists _, [_; _; _]. rewrite <- !app_assoc. split; [done |].
      apply Hshape. by repeat constructor.
    + eexists _, [_; _]. rewrite <- app_assoc. split; [done |].
      apply Hshape. by repeat constructor.
  - destruct (summarization_pipeline self).
    2:{ eexists _, []. rewrite app_nil_r. split; [done |].
        apply Hshape. constructor. }
    destruct (pipeline_call world log text _ _) as [[|d summary] | e].
    + eexists _, [_]. split; [done |]. apply Hshape. by repeat constructor.
    + destruct (d !! lit "summary_text"); eexists _, [_]; (split; [done |]);
        apply Hshape; by repeat constructor.
    + eexists _, [_]. split; [done |]. apply Hshape. by repeat constructor.
Qed.

(** X9. [summarize] never hands more than 1024 words to the model: every
    text it passes to the tokenizer or to the pipeline is the input after
    truncation, which has at most 1024 words, and is the input itself when
    that has at most 1024 words. *)
Theorem summarize_input_cap (text : list N) (log : list call) :
  ∃ summary new,
    summarize world self text log = (Returns summary, log ++ new)
    ∧ ∀ t, CallTokenizer t ∈ new ∨ CallPipeline t ∈ new →
        t = truncate_input text
        ∧ (length (split_ws t) ≤ 1024)%nat
        ∧ ((length (split_ws text) ≤ 1024)%nat → t = text).
Proof.
  destruct (decide (text = [])) as [-> | Htext].
  { exists [], []. rewrite app_nil_r. split; [done |].
    intros t [Ht | Ht]; by apply elem_of_nil in Ht. }
  pose proof (summarize_cases world self text log Htext) as Hcases.
  destruct (generation_path_log (truncate_input text) log)
    as (r & new & Hpath & Hcalls).
  rewrite Hpath in Hcases.
  destruct (truncate_input_word_count text) as (Hcount & Hshort & _).
  assert (∀ t, CallTokenizer t ∈ new ∨ CallPipeline t ∈ new →
               t = truncate_input text
               ∧ (length (split_ws t) ≤ 1024)%nat
               ∧ ((length (split_ws text) ≤ 1024)%nat → t = text)) as Hcap.
  { intros t Ht. rewrite (Hcalls t Ht). by split_and!. }
  destruct r as [summary | e]; by eexists _, new.
Qed.

(** X10. [summarize] returns on every text, whatever the runtime does:
    the empty string for the empty text, without any call; the summary of
    the generation path when that returns; and otherwise a fallback of at
    most 503 characters. *)
Theorem summarize_total (text : list N) (log : list call) :
  ∃ summary log',
    summarize world self text log = (Returns summary, log')
    ∧ (text = [] → summary = [] ∧ log' = log)
    ∧ (text ≠ [] →
       ∀ v l, generation_path world self (truncate_input text) log
              = (Returns v, l) → summary = v ∧ log' = l)
    ∧ (text ≠ [] →
       ∀ e l, generation_path world self (truncate_input text) log
              = (Raises e, l) → (length summary ≤ 503)%nat ∧ log' = l).
Proof.
  destruct (decide (text = [])) as [-> | Htext].
  { exists [], log. by split_and!. }
  pose proof (summarize_cases world self text log Htext) as Hcases.
  destruct (generation_path world self (truncate_input text) log)
    as [[v | e] l] eqn:Hpath.
  - exists v, l. split_and!; [done | done | | done].
    intros _ v' l' [= <- <-]. done.
  - eexists _, l. split_and!; [exact Hcases | done | done |].
    intros _ e' l' [= <- <-]. split; [| done].
    rewrite length_app, length_take. change (length (lit "...")) with 3%nat.
    lia.
Qed.

(** X11. [batch_summarize] returns one summary per text, in order, and
    never raises: a text on which the model fails gets its fallback and
    the texts after it are still summarized; an empty text gives an empty
    summary. *)
Theorem batch_summarize_elementwise (texts : list (list N))
    (log : list call) :
  ∃ summaries log',
    batch_summarize world self texts log = (Returns summaries, log')
    ∧ Forall2 (fun text summary =>
                 ∃ l l', summarize world self text l = (Returns summary, l'))
        texts summaries
    ∧ (∀ i, texts !! i = Some [] → summaries !! i = Some []).
Proof.
  revert log. induction texts as [|text texts IH]; intros log.
  - exists [], log. by split_and!.
  - destruct (summarize_returns world self text log) as (v & l1 & Hv).
    destruct (IH l1) as (vs & l2 & Hvs & Hall & Hempty).
    exists (v :: vs), l2. split_and!.
    + cbn [batch_summarize]. unfold bind. by rewrite Hv, Hvs.
    + constructor; [by exists log, l1 | done].
    + intros [|i] Hi; [| by apply Hempty].
      injection Hi as ->. by injection Hv as <- _.
Qed.

End MoreSummarizerFacts.

Section SummarizerInitFacts.

Import Summarizer SummarizerInit.

Variable world : SummarizerInit.World.

(** X12. The constructor leaves the summarizer in one of two states: primed
    (model and tokenizer loaded, no pipeline) exactly when both loads
    return, degraded (neither, but a pipeline) when a load raises and the
    pipeline can be built.  It raises only when a load and the pipeline
    factory both raise.  The lengths are the ones given.  So a constructed
    summarizer that takes the pipeline path has a pipeline. *)
Theorem init_state (model_name : list N) (min_len max_len : Z)
    (use_gpu : bool) (log : list SummarizerInit.call) :
  let log1 := log ++ [CallCudaAvailable] in
  let cuda := cuda_is_available world log && use_gpu in
  let log2 := log1 ++ [CallLoadTokenizer model_name] in
  let loaded :=
    tokenizer_from_pretrained world log1 model_name = Returns tt
    ∧ model_from_pretrained world log2 model_name cuda = Returns tt in
  ∀ r log',
    __init__ world model_name min_len max_len use_gpu log = (r, log') →
    (∀ s, r = Returns s →
       min_length s = min_len ∧ max_length s = max_len
       ∧ (is_primed s ∨ is_degraded s)
       ∧ (is_primed s ↔ loaded)
       ∧ (model s && tokenizer s = false → summarization_pipeline s = true))
    ∧ (∀ e, r = Raises e →
         ¬ loaded
         ∧ ∃ l, pipeline_factory world l (if cuda then 0 else -1) = Raises e).
Proof.
  cbn zeta. intros r log'.
  unfold __init__, _load_model, try_except, bind, external, ret.
  cbn [List.find fst snd is_Exception].
  destruct (tokenizer_from_pretrained world _ model_name) as [[] | e1];
    cbn [List.find fst snd is_Exception].
  - destruct (model_from_pretrained world _ model_name _) as [[] | e2];
      cbn [List.find fst snd is_Exception].
    + intros [= <- <-]. split; [| done]. intros s [= <-].
      unfold is_primed, is_degraded. simpl. by split_and!; try tauto.
    + destruct (pipeline_factory world _ _) as [[] | e3] eqn:Hpipe;
        intros [= <- <-]; split; try done.
      * intros s [= <-]. unfold is_primed, is_degraded. simpl.
        split_and!; try done; [by right |].
        split; [by intros (? & _) | by intros [_ ?]].
      * intros e [= <-]. split; [by intros [_ ?] |]. by eexists.
  - destruct (pipeline_factory world _ _) as [[] | e3] eqn:Hpipe;
      intros [= <- <-]; split; try done.
    + intros s [= <-]. unfold is_primed, is_degraded. simpl.
      split_and!; try done; [by right |].
      split; [by intros (? & _) | by intros [? _]].
    + intros e [= <-]. split; [by intros [? _] |]. by eexists.
Qed.

End SummarizerInitFacts.

Section SummarizerInitScenarios.

Import Summarizer SummarizerInit.

Lemma init_state_witness :
  ∃ s log',
    __init__ no_model_world (lit "google/pegasus-cnn_dailymail") 50 150 true []
    = (Returns s, log')
    ∧ is_degraded s ∧ min_length s = 50 ∧ max_length s = 150.
Proof.
  destruct (__init__ no_model_world (lit "google/pegasus-cnn_dailymail")
              50 150 true []) as [r log'] eqn:Hrun.
  destruct (init_state no_model_world (lit "google/pegasus-cnn_dailymail")
              50 150 true [] r log' Hrun) as [Hok _].
  destruct r as [s | e]; [| vm_compute in Hrun; discriminate].
  destruct (Hok s eq_refl) as (Hmin & Hmax & Hstate & Hprimed & _).
  exists s, log'. split_and!; [done | | done | done].
  destruct Hstate as [Hp | Hd]; [| done].
  apply Hprimed in Hp as [_ Hp]. discriminate.
Defined.

End SummarizerInitScenarios.

Section MoreSummarizerScenarios.

Import Summarizer SummarizerScenarios.

Lemma summarize_input_cap_witness :
  ∃ summary new,
    summarize failing_world primed long_text [] = (Returns summary, new)
    ∧ ∀ t, CallTokenizer t ∈ new →
        (length (split_ws t) ≤ 1024)%nat.
Proof.
  destruct (summarize_input_cap failing_world primed long_text [])
    as (summary & new & Hrun & Hcap).
  exists summary, new. split; [exact Hrun |].
  intros t Ht. apply (Hcap t). by left.
Defined.

Lemma summarize_total_witness :
  ∃ summary log',
    summarize failing_world primed long_text [] = (Returns summary, log')
    ∧ (length summary ≤ 503)%nat.
Proof.
  destruct (summarize_total failing_world primed long_text [])
    as (summary & log' & Hrun & _ & _ & Hfallback).
  exists summary, log'. split; [exact Hrun |].
  eapply Hfallback; [by vm_compute |]. vm_compute. reflexivity.
Defined.

Lemma batch_summarize_elementwise_witness :
  ∃ summaries log',
    batch_summarize failing_world primed [lit "hello world"; []] []
    = (Returns summaries, log')
    ∧ summaries !! 1%nat = Some [].
Proof.
  destruct (batch_summarize_elementwise failing_world primed
              [lit "hello world"; []] [])
    as (summaries & log' & Hrun & _ & Hempty).
  exists summaries, log'. split; [exact Hrun |]. by apply Hempty.
Defined.

End MoreSummarizerScenarios.

(** ** Stylization, continued *)

Section MoreHumorizerFacts.

Import Humorizer HumorizerMore.

Variable world : World.
Variable self : HumorGenerator.

Lemma lookup_stylized (d d' : gmap (list N) (list N)) (key : list N) :
  stylized world d d' → key ≠ lit "humorous_content" → d' !! key = d !! key.
Proof. intros (h & -> & _) Hkey. by rewrite lookup_insert_ne. Qed.

Lemma complete_stylized (d d' : gmap (list N) (list N)) :
  stylized world d d' → complete d' = complete d.
Proof.
  intros Hs. unfold complete, has_key.
  by rewrite !(lookup_stylized d d') by done.
Qed.

Lemma stylized_trans (d1 d2 d3 : gmap (list N) (list N)) :
  stylized world d1 d2 → stylized world d2 d3 → stylized world d1 d3.
Proof.
  intros H12 (h & -> & Hh).
  pose proof (lookup_stylized d1 d2 (lit "title") H12) as Ht.
  pose proof (lookup_stylized d1 d2 (lit "summary") H12) as Hs.
  destruct H12 as (h' & -> & _).
  exists h. split; [by rewrite insert_insert_eq |].
  intros Hno t s Ht' Hs'. apply Hh; [done | |].
  - rewrite Ht by done. done.
  - rewrite Hs by done. done.
Qed.

(** What [add_humor] does to the state: the heap stays, the log grows by
    the one request made with a credential. *)
Lemma add_humor_effect (title summary : list N) (st : State) :
  ∃ v log',
    add_humor world self title summary st
    = (Returns v, {| heap := heap st; log := log' |})
    ∧ length log'
      = (length (log st) + if no_api_key (api_key world) then 0 else 1)%nat
    ∧ (no_api_key (api_key world) = true → v = pass_through title summary).
Proof.
  pose proof (add_humor_cases world self title summary st) as Hcases.
  cbn zeta in Hcases.
  destruct (no_api_key (api_key world)).
  { exists (pass_through title summary), (log st).
    split_and!; [by destruct st | lia | done]. }
  destruct (chat_completion_create world (log st) _)
    as [[|[content |] choices] | e];
    eexists _, _; (split_and!; [exact Hcases | | done]);
    rewrite length_app; simpl; lia.
Qed.

(** One iteration of the loop, on an allocated reference. *)
Lemma humor_step (l : nat) (d : gmap (list N) (list N)) (st : State)
    (k : M State unit) :
  heap st !! l = Some d →
  ∃ d' st1,
    (let! _ :=
       if has_key (lit "title") d && has_key (lit "summary") d then
         let! t := getitem d (lit "title") in
         let! s := getitem d (lit "summary") in
         let! h := add_humor world self t s in
         setitem l (lit "humorous_content") h
       else ret tt in
     k) st = k st1
    ∧ heap st1 !! l = Some d'
    ∧ (∀ l', l' ≠ l → heap st1 !! l' = heap st !! l')
    ∧ (if complete d then stylized world d d' else d' = d ∧ st1 = st)
    ∧ length (log st1)
      = (length (log st)
         + if complete d
           then (if no_api_key (api_key world) then 0 else 1)
           else 0)%nat.
Proof.
  intros Hd. unfold complete.
  destruct (has_key (lit "title") d && has_key (lit "summary") d) eqn:Hkeys.
  - apply andb_true_iff in Hkeys as [Ht Hs].
    unfold has_key in Ht, Hs.
    apply bool_decide_eq_true in Ht as [t Ht], Hs as [s Hs].
    destruct (add_humor_effect t s st) as (h & log' & Hh & Hlen & Hpass).
    eexists _, _. unfold bind at 1 2 3 4, getitem. rewrite Ht, Hs.
    unfold ret at 1 2. cbn beta iota. rewrite Hh.
    unfold setitem. cbn [heap log]. split_and!; [reflexivity | | | | done].
    + cbn [heap]. by rewrite lookup_alter_eq, Hd.
    + intros l' Hl'. cbn [heap]. by rewrite lookup_alter_ne.
    + exists h. split; [done |].
      intros Hno t' s' Ht' Hs'. rewrite Ht in Ht'. rewrite Hs in Hs'.
      injection Ht' as <-. injection Hs' as <-. by apply Hpass.
  - exists d, st. split_and!; try done; lia.
Qed.

Lemma batch_loop_strong (articles : list nat) (st : State) :
  (∀ l, l ∈ articles → is_Some (heap st !! l)) →
  ∃ st',
    batch_loop world self articles st = (Returns tt, st')
    ∧ (∀ l d, heap st !! l = Some d →
         ∃ d', heap st' !! l = Some d'
               ∧ (d' = d ∨ stylized world d d')
               ∧ (l ∈ articles → complete d = true → stylized world d d')
               ∧ (l ∉ articles → d' = d))
    ∧ (∀ l, heap st !! l = None → heap st' !! l = None)
    ∧ length (log st')
      = (length (log st) + expected_requests world st articles)%nat.
Proof.
  revert st. induction articles as [|l articles IH]; intros st Halloc.
  - exists st. split_and!; [done | | done |].
    + intros l d Hd. exists d. split_and!; [done | by left | | done].
      by intros ?%elem_of_nil.
    + unfold expected_requests. destruct (no_api_key _); simpl; lia.
  - destruct (Halloc l) as [d Hd]; [by left |].
    destruct (humor_step l d st (batch_loop world self articles) Hd)
      as (d1 & st1 & Hstep & Hd1 & Hother & Hkind & Hlen1).
    assert (∀ l' e, heap st !! l' = Some e →
              ∃ e1, heap st1 !! l' = Some e1
                    ∧ (e1 = e ∨ stylized world e e1)
                    ∧ (l' = l → complete e = true → stylized world e e1)
                    ∧ (l' ≠ l → e1 = e)) as Hfirst.
    { intros l' e He. destruct (decide (l' = l)) as [-> | Hne].
      - rewrite Hd in He. injection He as <-. exists d1.
        destruct (complete d).
        + by split_and!; [| right | |].
        + destruct Hkind as [-> _]. by split_and!; [| left | |].
      - exists e. rewrite Hother by done. by split_and!; [| left | |]. }
    assert (∀ l', complete_at st1 l' = complete_at st l') as Hsame.
    { intros l'. unfold complete_at.
      destruct (heap st !! l') as [e |] eqn:He.
      - destruct (Hfirst l' e He) as (e1 & -> & [-> | Hs] & _); [done |].
        by apply complete_stylized.
      - destruct (decide (l' = l)) as [-> | Hne]; [congruence |].
        by rewrite Hother, He. }
    destruct (IH st1) as (st' & Hloop & Hdicts & Hnone & Hlen).
    { intros l' Hl'. destruct (Halloc l') as [e He]; [by right |].
      destruct (Hfirst l' e He) as (e1 & He1 & _). by exists e1. }
    exists st'. split_and!.
    + cbn [batch_loop]. unfold bind at 1, deref. rewrite Hd.
      cbn beta iota. by rewrite Hstep.
    + intros l' e He.
      destruct (Hfirst l' e He) as (e1 & He1 & Hor1 & Hhere & Hnot).
      destruct (Hdicts l' e1 He1) as (e2 & He2 & Hor2 & Hin & Hnotin).
      exists e2. split_and!; [done | | |].
      * destruct Hor1 as [-> | H1]; [done |].
        destruct Hor2 as [-> | H2]; [by right |].
        right. by eapply stylized_trans.
      * intros Hl' Hc. apply elem_of_cons in Hl' as [-> | Hl'].
        -- specialize (Hhere eq_refl Hc).
           destruct Hor2 as [-> | H2]; [done |]. by eapply stylized_trans.
        -- destruct Hor1 as [-> | H1]; [by apply Hin |].
           eapply stylized_trans; [exact H1 |]. apply Hin; [done |].
           by rewrite (complete_stylized e e1).
      * intros Hl'. apply not_elem_of_cons in Hl' as [Hne Hl'].
        rewrite (Hnotin Hl'). by apply Hnot.
    + intros l' Hl'. apply Hnone.
      destruct (decide (l' = l)) as [-> | Hne]; [congruence |].
      by rewrite Hother.
    + rewrite Hlen, Hlen1. unfold expected_requests.
      destruct (no_api_key (api_key world)); [destruct (complete d); lia |].
      rewrite (list_filter_iff (fun l0 => complete_at st1 l0 = true)
                 (fun l0 => complete_at st l0 = true))
        by (intros l0; by rewrite Hsame).
      rewrite filter_cons.
      assert (complete_at st l = complete d) as Hcl
          by (unfold complete_at; by rewrite Hd).
      destruct (decide (complete_at st l = true)) as [Hc | Hc];
        rewrite Hcl in Hc.
      * rewrite Hc. simpl. lia.
      * apply not_true_is_false in Hc. rewrite Hc. lia.
Qed.

(** X13. After [batch_add_humor], every listed article that has a title
    and a summary is what it was plus a ["humorous_content"] (without a
    credential: its title, a blank line, its summary); no other key of it
    has changed.  A dictionary that is not in the list is untouched, and
    no dictionary appears or disappears. *)
Theorem batch_add_humor_stylizes (articles : list nat) (st : State) :
  (∀ l, l ∈ articles → is_Some (heap st !! l)) →
  ∃ st',
    batch_add_humor world self articles st = (Returns articles, st')
    ∧ (∀ l d, l ∈ articles → heap st !! l = Some d → complete d = true →
         ∃ d', heap st' !! l = Some d' ∧ stylized world d d'
               ∧ is_Some (d' !! lit "humorous_content")
               ∧ ∀ key, key ≠ lit "humorous_content" → d' !! key = d !! key)
    ∧ (∀ l, l ∉ articles → heap st' !! l = heap st !! l).
Proof.
  intros Halloc.
  destruct (batch_loop_strong articles st Halloc)
    as (st' & Hloop & Hdicts & Hnone & _).
  exists st'. split_and!.
  - unfold batch_add_humor, bind. by rewrite Hloop.
  - intros l d Hl Hd Hc.
    destruct (Hdicts l d Hd) as (d' & Hd' & _ & Hin & _).
    specialize (Hin Hl Hc). exists d'. split_and!; [done | done | |].
    + destruct Hin as (h & -> & _). rewrite lookup_insert_eq. by eexists.
    + intros key Hkey. by apply lookup_stylized.
  - intros l Hl. destruct (heap st !! l) as [d |] eqn:Hd.
    + destruct (Hdicts l d Hd) as (d' & Hd' & _ & _ & Hout).
      by rewrite Hd', (Hout Hl).
    + by apply Hnone.
Qed.

(** X14. With a credential, [batch_add_humor] makes exactly one request
    per entry of the list whose article has a title and a summary, an
    article listed twice being counted twice; without a credential it
    makes none. *)
Theorem batch_add_humor_requests (articles : list nat) (st : State) :
  (∀ l, l ∈ articles → is_Some (heap st !! l)) →
  ∃ st',
    batch_add_humor world self articles st = (Returns articles, st')
    ∧ length (log st')
      = (length (log st)
         + if no_api_key (api_key world) then 0
           else length (filter (fun l => complete_at st l = true) articles))%nat.
Proof.
  intros Halloc.
  destruct (batch_loop_strong articles st Halloc)
    as (st' & Hloop & _ & _ & Hlen).
  exists st'. split.
  - unfold batch_add_humor, bind. by rewrite Hloop.
  - rewrite Hlen. unfold expected_requests.
    by destruct (no_api_key (api_key world)).
Qed.

Lemma lstrip_ws_spec (s : list N) :
  ∃ pre, s = pre ++ lstrip_ws s
         ∧ Forall (fun c => isspace c = true) pre
         ∧ ∀ c r, lstrip_ws s = c :: r → isspace c = false.
Proof.
  induction s as [|c s (pre & Hs & Hpre & Hhd)]; simpl.
  - exists []. by split_and!.
  - destruct (isspace c) eqn:Hc.
    + exists (c :: pre). split_and!; [by rewrite Hs at 1 | by constructor | done].
    + exists []. split_and!; [done | done |]. by intros ? ? [= <- <-].
Qed.

(** [strip] removes whitespace at both ends and nothing else. *)
Lemma strip_spec (s : list N) :
  ∃ pre suf,
    s = pre ++ strip s ++ suf
    ∧ Forall (fun c => isspace c = true) pre
    ∧ Forall (fun c => isspace c = true) suf
    ∧ (∀ c r, strip s = c :: r → isspace c = false)
    ∧ (∀ c r, strip s = r ++ [c] → isspace c = false).
Proof.
  unfold strip.
  destruct (lstrip_ws_spec s) as (pre & Hs & Hpre & Hhd).
  destruct (lstrip_ws_spec (reverse (lstrip_ws s)))
    as (suf & Hm & Hsuf & Hlast).
  assert (lstrip_ws s
          = reverse (lstrip_ws (reverse (lstrip_ws s))) ++ reverse suf)
    as Hmid.
  { rewrite <- reverse_app, <- Hm. by rewrite reverse_involutive. }
  exists pre, (reverse suf). split_and!.
  - rewrite <- Hmid. exact Hs.
  - done.
  - by apply Forall_reverse.
  - intros c r Hr. apply (Hhd c (r ++ reverse suf)).
    rewrite Hmid at 1. by rewrite Hr.
  - intros c r Hr. apply (Hlast c (reverse r)).
    apply (f_equal reverse) in Hr.
    by rewrite reverse_involutive, reverse_app in Hr.
Qed.

(** X15. With a credential and an answer whose first choice has content,
    [add_humor] makes one request and returns that content without the
    whitespace at its two ends: what it returns is the content between a
    run of whitespace before and one after, and neither starts nor ends
    with whitespace.  Further choices are ignored. *)
Theorem add_humor_returns_stripped (title summary content : list N)
    (others : list (option (list N))) (st : State) :
  no_api_key (api_key world) = false →
  chat_completion_create world (log st)
    (humor_request self (_create_prompt title summary))
  = Returns (Some content :: others) →
  ∃ v pre suf,
    add_humor world self title summary st
    = (Returns v,
       {| heap := heap st;
          log := log st ++ [CallChatCompletion
                              (humor_request self
                                 (_create_prompt title summary))] |})
    ∧ content = pre ++ v ++ suf
    ∧ Forall (fun c => isspace c = true) pre
    ∧ Forall (fun c => isspace c = true) suf
    ∧ (∀ c r, v = c :: r → isspace c = false)
    ∧ (∀ c r, v = r ++ [c] → isspace c = false).
Proof.
  intros Hkey Hanswer.
  pose proof (add_humor_cases world self title summary st) as Hcases.
  cbn zeta in Hcases. rewrite Hkey, Hanswer in Hcases.
  destruct (strip_spec content) as (pre & suf & Hc & Hpre & Hsuf & Hhd & Hlast).
  exists (strip content), pre, suf. by split_and!.
Qed.

End MoreHumorizerFacts.

Section MoreHumorizerScenarios.

Import Humorizer HumorizerMore HumorizerScenarios.

Lemma two_articles_allocated (l : nat) :
  l ∈ [0; 1]%nat → is_Some (heap two_articles !! l).
Proof.
  intros Hl. apply elem_of_cons in Hl as [-> | Hl].
  - exists complete_article. reflexivity.
  - apply list_elem_of_singleton in Hl as ->.
    exists unsummarized_article. reflexivity.
Defined.

Lemma batch_add_humor_stylizes_witness :
  ∃ st' d',
    batch_add_humor no_key_world default_generator [0; 1]%nat two_articles
    = (Returns [0; 1]%nat, st')
    ∧ heap st' !! 0%nat = Some d'
    ∧ d' !! lit "title" = Some (lit "T")
    ∧ is_Some (d' !! lit "humorous_content").
Proof.
  destruct (batch_add_humor_stylizes no_key_world default_generator
              [0; 1]%nat two_articles two_articles_allocated)
    as (st' & Hrun & Hin & _).
  destruct (Hin 0%nat complete_article) as (d' & Hd' & _ & Hhc & Hkeys).
  - apply list_elem_of_here.
  - reflexivity.
  - reflexivity.
  - exists st', d'. split_and!; [exact Hrun | exact Hd' | | exact Hhc].
    rewrite Hkeys by discriminate. reflexivity.
Defined.

Lemma batch_add_humor_requests_witness :
  ∃ st',
    batch_add_humor answering_world default_generator [0; 1; 0]%nat
      two_articles
    = (Returns [0; 1; 0]%nat, st')
    ∧ length (log st') = 2%nat.
Proof.
  destruct (batch_add_humor_requests answering_world default_generator
              [0; 1; 0]%nat two_articles) as (st' & Hrun & Hlen).
  { intros l Hl. apply two_articles_allocated.
    apply elem_of_cons in Hl as [-> | Hl]; [apply list_elem_of_here |].
    apply elem_of_cons in Hl as [-> | Hl];
      [apply list_elem_of_further, list_elem_of_here |].
    apply list_elem_of_singleton in Hl as ->. apply list_elem_of_here. }
  exists st'. split; [exact Hrun |]. rewrite Hlen. reflexivity.
Defined.

Lemma add_humor_returns_stripped_witness :
  ∃ st',
    add_humor answering_world default_generator (lit "T") (lit "S")
      two_articles
    = (Returns (lit "funny"), st').
Proof.
  destruct (add_humor_returns_stripped answering_world default_generator
              (lit "T") (lit "S") (lit " funny ") [] two_articles
              eq_refl eq_refl)
    as (v & pre & suf & Hrun & Hc & _ & _ & Hhd & Hlast).
  eexists. rewrite Hrun. f_equal. f_equal.
  vm_compute in Hrun. by injection Hrun as <-.
Defined.

End MoreHumorizerScenarios.

(** ** Configuration *)

Section ConfigFacts.

Import Config.

(** The loop over the four numeric keys, key by key. *)
Lemma validate_numeric_loop (c : Settings) :
  let c' := fold_left validate_numeric
              [MaxArticlesPerSource; DaysToLookBack;
               SummaryMinLength; SummaryMaxLength] c in
  (∀ key, get_numeric c' key
          = if get_numeric c key <=? 0 then default_numeric key
            else get_numeric c key)
  ∧ openai_api_key c' = openai_api_key c
  ∧ summarization_model c' = summarization_model c
  ∧ humor_temperature c' = humor_temperature c
  ∧ humor_model c' = humor_model c
  ∧ output_format c' = output_format c
  ∧ output_directory c' = output_directory c.
Proof.
  cbn [fold_left]. unfold validate_numeric. cbn [get_numeric].
  destruct (max_articles_per_source c <=? 0) eqn:H1;
    cbn [set_numeric get_numeric days_to_look_back];
    destruct (days_to_look_back c <=? 0) eqn:H2;
    cbn [set_numeric get_numeric summary_min_length];
    destruct (summary_min_length c <=? 0) eqn:H3;
    cbn [set_numeric get_numeric summary_max_length];
    destruct (summary_max_length c <=? 0) eqn:H4;
    (split_and!; [| done..]); intros []; cbn; by rewrite ?H1, ?H2, ?H3, ?H4.
Qed.

Lemma validate_config_fields (c : Settings) :
  let c' := _validate_config c in
  (∀ key, get_numeric c' key
          = if get_numeric c key <=? 0 then default_numeric key
            else get_numeric c key)
  ∧ humor_temperature c'
    = (if temperature_in_range (humor_temperature c)
       then humor_temperature c else default_temperature)
  ∧ output_format c'
    = (if bool_decide (output_format c ∈ [lit "markdown"; lit "html"])
       then output_format c else lit "markdown")
  ∧ openai_api_key c' = openai_api_key c
  ∧ summarization_model c' = summarization_model c
  ∧ humor_model c' = humor_model c
  ∧ output_directory c' = output_directory c.
Proof.
  pose proof (validate_numeric_loop c) as Hloop. cbn zeta in Hloop.
  destruct Hloop as (Hnum & Hkey & Hsm & Ht & Hhm & Hfmt & Hdir).
  cbn zeta. unfold _validate_config.
  set (c1 := fold_left validate_numeric _ c) in *.
  rewrite Ht.
  destruct (temperature_in_range (humor_temperature c)); cbn [negb];
    cbn [output_format]; rewrite Hfmt;
    (destruct (decide (output_format c ∈ [lit "markdown"; lit "html"]))
      as [Hin | Hout];
     [rewrite (bool_decide_eq_false_2 (_ ∉ _)) by tauto;
      rewrite (bool_decide_eq_true_2 _ Hin)
     |rewrite (bool_decide_eq_true_2 (_ ∉ _)) by done;
      rewrite (bool_decide_eq_false_2 _ Hout)]);
    (split_and!; [| done..]); intros key; rewrite <- (Hnum key);
    by destruct key.
Qed.

Lemma validate_config_valid (c : Settings) : valid (_validate_config c).
Proof.
  pose proof (validate_config_fields c) as Hfields. cbn zeta in *.
  destruct Hfields as (Hnum & Ht & Hfmt & Hrest).
  assert (∀ key, 0 < get_numeric (_validate_config c) key) as Hpos.
  { intros key. rewrite Hnum.
    destruct (Z.leb_spec (get_numeric c key) 0); [by destruct key | done]. }
  unfold valid. split_and!.
  - apply (Hpos MaxArticlesPerSource).
  - apply (Hpos DaysToLookBack).
  - apply (Hpos SummaryMinLength).
  - apply (Hpos SummaryMaxLength).
  - rewrite Ht.
    by destruct (temperature_in_range (humor_temperature c)) eqn:Hrange.
  - rewrite Hfmt. case_bool_decide as Hin; [| by left].
    apply elem_of_cons in Hin as [-> | Hin]; [by left |].
    apply list_elem_of_singleton in Hin as ->. by right.
Qed.

Lemma validate_config_fixpoint (c : Settings) :
  valid c → _validate_config c = c.
Proof.
  intros (H1 & H2 & H3 & H4 & Ht & Hfmt).
  unfold _validate_config. cbn [fold_left]. unfold validate_numeric.
  cbn [get_numeric].
  rewrite (proj2 (Z.leb_gt _ _) H1), (proj2 (Z.leb_gt _ _) H2),
    (proj2 (Z.leb_gt _ _) H3), (proj2 (Z.leb_gt _ _) H4), Ht.
  cbn [negb]. rewrite bool_decide_eq_false_2; [done |].
  intros Hout. apply Hout. destruct Hfmt as [-> | ->].
  - apply list_elem_of_here.
  - apply list_elem_of_further, list_elem_of_here.
Qed.

(** X16. After [_validate_config] the four numeric settings are positive,
    the temperature lies in [0, 1] and the output format is ["markdown"]
    or ["html"].  A setting that already was so is kept; otherwise it is
    the default: 5, 3, 50, 150, 0.7, ["markdown"].  The API key, the model
    names and the output directory are never changed. *)
Theorem validate_config_establishes (c : Settings) :
  let c' := _validate_config c in
  valid c'
  ∧ (∀ key, get_numeric c' key
            = if get_numeric c key <=? 0 then default_numeric key
              else get_numeric c key)
  ∧ humor_temperature c'
    = (if temperature_in_range (humor_temperature c)
       then humor_temperature c else default_temperature)
  ∧ output_format c'
    = (if bool_decide (output_format c ∈ [lit "markdown"; lit "html"])
       then output_format c else lit "markdown")
  ∧ openai_api_key c' = openai_api_key c
  ∧ summarization_model c' = summarization_model c
  ∧ humor_model c' = humor_model c
  ∧ output_directory c' = output_directory c.
Proof.
  cbn zeta. split; [apply validate_config_valid |].
  apply validate_config_fields.
Qed.

(** X17. [_validate_config] changes nothing in settings that are valid,
    and validating twice is the same as validating once.  In particular
    it does not compare the two summary lengths: a minimum above the
    maximum stays. *)
Theorem validate_config_idempotent (c : Settings) :
  (valid c → _validate_config c = c)
  ∧ _validate_config (_validate_config c) = _validate_config c
  ∧ (valid c → summary_max_length c < summary_min_length c →
     summary_max_length (_validate_config c)
     < summary_min_length (_validate_config c)).
Proof.
  split_and!.
  - apply validate_config_fixpoint.
  - apply validate_config_fixpoint, validate_config_valid.
  - intros Hvalid Hlt. by rewrite validate_config_fixpoint.
Qed.

Lemma validate_config_idempotent_witness :
  _validate_config test_settings = test_settings.
Proof.
  destruct (validate_config_idempotent test_settings) as [Hfix _].
  apply Hfix. unfold valid. split_and!; try reflexivity. by right.
Defined.

(** The checks of [tests/test_config.py] on out-of-range values, all at
    once. *)
Example validate_bad_settings :
  let c := _validate_config bad_settings in
  max_articles_per_source c = 5 ∧ days_to_look_back c = 3
  ∧ summary_min_length c = 50 ∧ summary_max_length c = 150
  ∧ humor_temperature c = default_temperature
  ∧ output_format c = lit "markdown".
Proof. cbn zeta. by split_and!. Qed.

(** X18. [Config.get(key, default)] gives the default exactly for a key
    that is not one of the ten keys of the dictionary; for one of the ten
    the default plays no role.  So for an unset API key it returns [None],
    not the default; and on validated settings the four numeric keys give
    positive integers. *)
Theorem config_get (c : Settings) (key : list N) (default : value) :
  (key ∉ keys → get c key default = default)
  ∧ (key ∈ keys →
     ∀ default', get c key default = get c key default')
  ∧ (openai_api_key c = None →
     get c (lit "openai_api_key") default = VNone)
  ∧ (∃ k d m n,
       get (_validate_config c) (lit "max_articles_per_source") default
       = VInt k
       ∧ get (_validate_config c) (lit "days_to_look_back") default = VInt d
       ∧ get (_validate_config c) (lit "summary_min_length") default = VInt m
       ∧ get (_validate_config c) (lit "summary_max_length") default = VInt n
       ∧ 0 < k ∧ 0 < d ∧ 0 < m ∧ 0 < n).
Proof.
  split_and!.
  - unfold keys. rewrite !not_elem_of_cons. intros Hkey.
    unfold get, lookup.
    repeat (rewrite bool_decide_eq_false_2 by tauto). done.
  - unfold keys. intros Hkey default'. unfold get, lookup.
    repeat (apply elem_of_cons in Hkey as [-> | Hkey]; [done |]).
    by apply elem_of_nil in Hkey.
  - intros Hnone. unfold get, lookup. simpl. by rewrite Hnone.
  - destruct (validate_config_valid c) as (Hk & Hd & Hm & Hn & _).
    by eexists _, _, _, _.
Qed.

Lemma config_get_witness :
  get test_settings (lit "nonexistent_key") (VStr (lit "default"))
  = VStr (lit "default")
  ∧ get bad_settings (lit "openai_api_key") (VStr (lit "default")) = VNone.
Proof.
  split.
  - destruct (config_get test_settings (lit "nonexistent_key")
                (VStr (lit "default"))) as [Hmissing _].
    apply Hmissing. by apply (bool_decide_unpack _).
  - destruct (config_get bad_settings (lit "openai_api_key")
                (VStr (lit "default"))) as (_ & _ & Hnone & _).
    by apply Hnone.
Defined.

Section LoadFacts.

Variable py_int : list N → option Z.
Variable py_float : list N → option float.

(** X19. [Config(...)] raises exactly when one of the four integer
    variables or the temperature does not parse (after the defaults
    ["5"], ["3"], ["50"], ["150"], ["0.7"] for unset variables); otherwise
    it returns valid settings that hold the API key of the environment,
    [None] when there is none. *)
Theorem config_init (environ : gmap (list N) (list N)) :
  let parses :=
    is_Some (py_int (getenv environ (lit "MAX_ARTICLES_PER_SOURCE") (lit "5")))
    ∧ is_Some (py_int (getenv environ (lit "DAYS_TO_LOOK_BACK") (lit "3")))
    ∧ is_Some (py_int (getenv environ (lit "SUMMARY_MIN_LENGTH") (lit "50")))
    ∧ is_Some (py_int (getenv environ (lit "SUMMARY_MAX_LENGTH") (lit "150")))
    ∧ is_Some (py_float (getenv environ (lit "HUMOR_TEMPERATURE")
                           (lit "0.7"))) in
  match __init__ py_int py_float environ with
  | Returns c =>
      parses ∧ valid c
      ∧ openai_api_key c = environ !! lit "OPENAI_API_KEY"
      ∧ output_directory c
        = getenv environ (lit "OUTPUT_DIRECTORY") (lit "./output")
  | Raises _ => ¬ parses
  end.
Proof.
  cbn zeta. unfold __init__, _load_config, int_env, float_env.
  destruct (py_int (getenv environ (lit "MAX_ARTICLES_PER_SOURCE") _));
    [| by intros ([? ?] & _)].
  destruct (py_int (getenv environ (lit "DAYS_TO_LOOK_BACK") _));
    [| by intros (_ & [? ?] & _)].
  destruct (py_int (getenv environ (lit "SUMMARY_MIN_LENGTH") _));
    [| by intros (_ & _ & [? ?] & _)].
  destruct (py_int (getenv environ (lit "SUMMARY_MAX_LENGTH") _));
    [| by intros (_ & _ & _ & [? ?] & _)].
  destruct (py_float (getenv environ (lit "HUMOR_TEMPERATURE") _));
    [| by intros (_ & _ & _ & _ & [? ?])].
  split; [by split_and! |]. split; [apply validate_config_valid |].
  match goal with
  | |- context [_validate_config ?c0] =>
      pose proof (validate_config_fields c0) as Hfields
  end.
  cbn zeta in Hfields.
  destruct Hfields as (_ & _ & _ & Hkey & _ & _ & Hdir).
  by rewrite Hkey, Hdir.
Qed.

End LoadFacts.

End ConfigFacts.

(** ** Output *)

Section FormatterFacts.

Import Formatter.

Variable world : World.

Ltac run :=
  unfold now_strftime; unfold bind, try_except, external, ret, raise;
  cbn [List.find fst snd].

Lemma markdown_step_spec (newsletter : list N)
    (article : gmap (list N) (list N)) (log : list call) :
  markdown_step newsletter article log
  = (Returns (newsletter ++ markdown_entry article), log).
Proof.
  unfold markdown_step, markdown_entry, has_key, getitem. run.
  destruct (article !! lit "humorous_content") as [content |] eqn:Hc.
  2:{ rewrite bool_decide_eq_false_2 by (by intros [? ?]).
      by rewrite app_nil_r. }
  rewrite bool_decide_eq_true_2 by done.
  destruct (article !! lit "url") as [url |] eqn:Hu;
    destruct (article !! lit "source") as [source |] eqn:Hs;
    rewrite ?(bool_decide_eq_true_2 (is_Some (Some _))) by done;
    rewrite ?(bool_decide_eq_false_2 (is_Some None)) by (by intros [? ?]);
    cbn [andb]; rewrite ?app_nil_l; by rewrite <- ?app_assoc.
Qed.

Lemma markdown_loop_spec (articles : list (gmap (list N) (list N)))
    (newsletter : list N) (log : list call) :
  markdown_loop articles newsletter log
  = (Returns (newsletter ++ concat (markdown_entry <$> articles)), log).
Proof.
  revert newsletter. induction articles as [|article articles IH];
    intros newsletter; simpl.
  - by rewrite app_nil_r.
  - unfold bind. by rewrite markdown_step_spec, IH, <- app_assoc.
Qed.

Lemma html_step_spec (html : list N) (article : gmap (list N) (list N))
    (log : list call) :
  html_step html article log = (Returns (html ++ html_entry article), log).
Proof.
  unfold html_step, html_entry, has_key, getitem. run.
  destruct (article !! lit "humorous_content") as [content |] eqn:Hc.
  2:{ rewrite bool_decide_eq_false_2 by (by intros [? ?]).
      by rewrite app_nil_r. }
  rewrite bool_decide_eq_true_2 by done.
  destruct (article !! lit "url") as [url |] eqn:Hu;
    destruct (article !! lit "source") as [source |] eqn:Hs;
    rewrite ?(bool_decide_eq_true_2 (is_Some (Some _))) by done;
    rewrite ?(bool_decide_eq_false_2 (is_Some None)) by (by intros [? ?]);
    cbn [andb]; rewrite ?app_nil_l; by rewrite <- ?app_assoc.
Qed.

Lemma html_loop_spec (articles : list (gmap (list N) (list N)))
    (html : list N) (log : list call) :
  html_loop articles html log
  = (Returns (html ++ concat (html_entry <$> articles)), log).
Proof.
  revert html. induction articles as [|article articles IH];
    intros html; simpl.
  - by rewrite app_nil_r.
  - unfold bind. by rewrite html_step_spec, IH, <- app_assoc.
Qed.

Lemma format_markdown_spec (articles : list (gmap (list N) (list N)))
    (log : list call) :
  let log1 := log ++ [CallStrftime (lit "%Y-%m-%d")] in
  _format_markdown world articles log
  = (Returns (lit "# AI News with a Twist - "
              ++ strftime world log (lit "%Y-%m-%d") ++ nl ++ nl
              ++ concat (markdown_entry <$> articles)
              ++ nl ++ nl ++ lit "*Generated on "
              ++ strftime world log1 (lit "%Y-%m-%d %H:%M:%S")
              ++ lit " by AI News Summarizer*"),
     log1 ++ [CallStrftime (lit "%Y-%m-%d %H:%M:%S")]).
Proof.
  cbn zeta. unfold _format_markdown. run.
  rewrite markdown_loop_spec. by rewrite <- !app_assoc.
Qed.

Lemma format_html_spec (articles : list (gmap (list N) (list N)))
    (log : list call) :
  let log1 := log ++ [CallStrftime (lit "%Y-%m-%d")] in
  _format_html world articles log
  = (Returns (html_head_open ++ strftime world log (lit "%Y-%m-%d")
              ++ html_head_style ++ strftime world log (lit "%Y-%m-%d")
              ++ html_head_close
              ++ concat (html_entry <$> articles)
              ++ html_footer_open
              ++ strftime world log1 (lit "%Y-%m-%d %H:%M:%S")
              ++ html_footer_close),
     log1 ++ [CallStrftime (lit "%Y-%m-%d %H:%M:%S")]).
Proof.
  cbn zeta. unfold _format_html. run.
  rewrite html_loop_spec. by rewrite <- !app_assoc.
Qed.

Lemma replace_char_spec (old : N) (new s : list N) :
  (old ∉ new → old ∉ replace_char old new s)
  ∧ (old ∉ s → replace_char old new s = s).
Proof.
  split.
  - intros Hnew. induction s as [|c s IH]; simpl; [apply not_elem_of_nil |].
    rewrite elem_of_app. intros [Hin | Hin]; [| done].
    destruct (N.eqb_spec c old) as [-> | Hc]; [done |].
    apply list_elem_of_singleton in Hin. congruence.
  - induction s as [|c s IH]; simpl; [done |].
    intros [Hc Hs]%not_elem_of_cons.
    destruct (N.eqb_spec c old) as [-> | _]; [done |].
    by rewrite IH.
Qed.

Lemma entries_of_filter (entry : gmap (list N) (list N) → list N)
    (articles : list (gmap (list N) (list N))) :
  (∀ a, a !! lit "humorous_content" = None → entry a = []) →
  concat (entry <$> filter (fun a => is_Some (a !! lit "humorous_content"))
                      articles)
  = concat (entry <$> articles).
Proof.
  intros Hnone. induction articles as [|a articles IH]; [done |].
  rewrite filter_cons. destruct (decide _) as [Hsome | Hno].
  - rewrite !fmap_cons. cbn [concat]. by rewrite IH.
  - rewrite fmap_cons. cbn [concat]. rewrite IH, Hnone; [done |].
    destruct (a !! lit "humorous_content"); [| done].
    exfalso. apply Hno. by eexists.
Qed.

Lemma markdown_entry_none (a : gmap (list N) (list N)) :
  a !! lit "humorous_content" = None → markdown_entry a = [].
Proof. intros Hnone. unfold markdown_entry. by rewrite Hnone. Qed.

Lemma html_entry_none (a : gmap (list N) (list N)) :
  a !! lit "humorous_content" = None → html_entry a = [].
Proof. intros Hnone. unfold html_entry. by rewrite Hnone. Qed.

(** X20. The markdown newsletter is a title line with the date, then
    one block per article that has a ["humorous_content"], in list order,
    then the footer with the time; the clock is read twice and nothing
    raises, whatever keys are missing.  A block is the title (or
    ["Untitled Article"] when there is none), the content, a source line
    when both ["url"] and ["source"] are there, and a rule. *)
Theorem format_markdown_structure
    (articles : list (gmap (list N) (list N))) (log : list call) :
  let log1 := log ++ [CallStrftime (lit "%Y-%m-%d")] in
  _format_markdown world articles log
  = (Returns (lit "# AI News with a Twist - "
              ++ strftime world log (lit "%Y-%m-%d") ++ nl ++ nl
              ++ concat (markdown_entry <$> articles)
              ++ nl ++ nl ++ lit "*Generated on "
              ++ strftime world log1 (lit "%Y-%m-%d %H:%M:%S")
              ++ lit " by AI News Summarizer*"),
     log1 ++ [CallStrftime (lit "%Y-%m-%d %H:%M:%S")])
  ∧ (∀ a, a !! lit "humorous_content" = None → markdown_entry a = [])
  ∧ (∀ a content title url source,
       a !! lit "humorous_content" = Some content →
       a !! lit "title" = Some title →
       a !! lit "url" = Some url → a !! lit "source" = Some source →
       markdown_entry a
       = lit "## " ++ title ++ nl ++ nl ++ content ++ nl ++ nl
         ++ lit "*Source: [" ++ source ++ lit "](" ++ url ++ lit ")*"
         ++ nl ++ nl ++ lit "---" ++ nl ++ nl)
  ∧ (∀ a content,
       a !! lit "humorous_content" = Some content →
       a !! lit "title" = None →
       a !! lit "url" = None ∨ a !! lit "source" = None →
       markdown_entry a
       = lit "## Untitled Article" ++ nl ++ nl ++ content ++ nl ++ nl
         ++ lit "---" ++ nl ++ nl).
Proof.
  cbn zeta. split_and!.
  - apply format_markdown_spec.
  - apply markdown_entry_none.
  - intros a content title url source Hc Ht Hu Hs.
    unfold markdown_entry, get_default. rewrite Hc, Ht, Hu, Hs.
    by rewrite <- !app_assoc.
  - intros a content Hc Ht Hor.
    unfold markdown_entry, get_default. rewrite Hc, Ht.
    destruct Hor as [-> | ->]; [done |].
    by destruct (a !! lit "url").
Qed.

(** X21. The HTML newsletter is the page head with the date in title and
    heading, then one block per article that has a ["humorous_content"],
    in list order, then the footer with the time; the clock is read twice
    and nothing raises.  In a block every newline of the content is
    replaced by ["<br>"], so the content is written without a newline, and
    a content without newlines is written as it is. *)
Theorem format_html_structure
    (articles : list (gmap (list N) (list N))) (log : list call) :
  let log1 := log ++ [CallStrftime (lit "%Y-%m-%d")] in
  _format_html world articles log
  = (Returns (html_head_open ++ strftime world log (lit "%Y-%m-%d")
              ++ html_head_style ++ strftime world log (lit "%Y-%m-%d")
              ++ html_head_close
              ++ concat (html_entry <$> articles)
              ++ html_footer_open
              ++ strftime world log1 (lit "%Y-%m-%d %H:%M:%S")
              ++ html_footer_close),
     log1 ++ [CallStrftime (lit "%Y-%m-%d %H:%M:%S")])
  ∧ (∀ a, a !! lit "humorous_content" = None → html_entry a = [])
  ∧ (∀ a content title url source,
       a !! lit "humorous_content" = Some content →
       a !! lit "title" = Some title →
       a !! lit "url" = Some url → a !! lit "source" = Some source →
       html_entry a
       = html_article_open ++ title ++ html_article_content
         ++ replace_char 10%N (lit "<br>") content ++ html_article_close
         ++ html_source_open ++ url ++ html_source_middle ++ source
         ++ html_source_close ++ lit "</div>")
  ∧ (∀ content, 10%N ∉ replace_char 10%N (lit "<br>") content)
  ∧ (∀ content, 10%N ∉ content →
       replace_char 10%N (lit "<br>") content = content).
Proof.
  cbn zeta. split_and!.
  - apply format_html_spec.
  - apply html_entry_none.
  - intros a content title url source Hc Ht Hu Hs.
    unfold html_entry, get_default. rewrite Hc, Ht, Hu, Hs.
    by rewrite <- !app_assoc.
  - intros content. apply replace_char_spec. by apply (bool_decide_unpack _).
  - intros content. apply replace_char_spec.
Qed.

(** X22. [format_newsletter] never raises and reads the clock twice; a
    format other than ["html"] gives the markdown newsletter; and in
    either format the articles without ["humorous_content"] leave no
    trace: the newsletter is the one of the list without them. *)
Theorem format_newsletter_omits (self : NewsletterFormatter)
    (articles : list (gmap (list N) (list N))) (log : list call) :
  (∃ text,
     format_newsletter world self articles log
     = (Returns text,
        log ++ [CallStrftime (lit "%Y-%m-%d");
                CallStrftime (lit "%Y-%m-%d %H:%M:%S")]))
  ∧ (output_format self ≠ lit "html" →
     format_newsletter world self articles log
     = _format_markdown world articles log)
  ∧ format_newsletter world self articles log
    = format_newsletter world self
        (filter (fun a => is_Some (a !! lit "humorous_content")) articles)
        log.
Proof.
  pose proof (format_markdown_spec articles log) as Hmd.
  pose proof (format_html_spec articles log) as Hhtml.
  pose proof (format_markdown_spec
                (filter (fun a => is_Some (a !! lit "humorous_content"))
                   articles) log) as Hmd'.
  pose proof (format_html_spec
                (filter (fun a => is_Some (a !! lit "humorous_content"))
                   articles) log) as Hhtml'.
  cbn zeta in *.
  rewrite entries_of_filter in Hmd' by apply markdown_entry_none.
  rewrite entries_of_filter in Hhtml' by apply html_entry_none.
  unfold format_newsletter. split_and!.
  - rewrite <- app_assoc in Hmd, Hhtml. simpl in Hmd, Hhtml.
    repeat case_bool_decide; by eexists.
  - intros Hfmt. repeat case_bool_decide; done.
  - repeat case_bool_decide; by rewrite ?Hmd, ?Hmd', ?Hhtml, ?Hhtml'.
Qed.


(** X24. For an output format that is neither ["markdown"] nor ["html"],
    [format_newsletter] gives the markdown newsletter, but
    [save_newsletter] names the file with the extension [".html"]. *)
Theorem unsupported_format_mismatch (self : NewsletterFormatter)
    (articles : list (gmap (list N) (list N))) (content : list N)
    (log log' : list call) :
  output_format self ≠ lit "markdown" →
  output_format self ≠ lit "html" →
  format_newsletter world self articles log
  = _format_markdown world articles log
  ∧ ∃ filepath,
      save_newsletter world self content log'
      = (Returns (match write_file world
                          (log' ++ [CallStrftime (lit "%Y-%m-%d")])
                          filepath content with
                  | Returns _ => filepath
                  | Raises _ => []
                  end),
         log' ++ [CallStrftime (lit "%Y-%m-%d")]
         ++ [CallWrite filepath content])
      ∧ ∃ stem, filepath = stem ++ lit ".html".
Proof.
  intros Hmd Hhtml. split.
  { unfold format_newsletter. by repeat case_bool_decide. }
  unfold save_newsletter. run.
  rewrite bool_decide_eq_false_2 by done.
  set (filename := lit "ai_news_" ++ _ ++ _).
  exists (path_join (output_directory self) filename). split.
  - rewrite <- app_assoc.
    destruct (write_file world _ _ content) as [[] | e]; by try destruct e.
  - unfold path_join. change (startswith (lit "/") filename) with false.
    cbn iota. unfold filename.
    destruct (_ || _); eexists; by rewrite ?app_assoc.
Qed.

End FormatterFacts.

Section FormatterScenarios.

Import Formatter.

Lemma format_markdown_structure_witness :
  markdown_entry test_article_1
  = lit "## Test Article 1" ++ nl ++ nl
    ++ lit "This is a humorous summary of article 1." ++ nl ++ nl
    ++ lit "*Source: [Test Source 1](https://example.com/article1)*"
    ++ nl ++ nl ++ lit "---" ++ nl ++ nl.
Proof.
  destruct (format_markdown_structure test_world [] [])
    as (_ & _ & Hfull & _).
  rewrite (Hfull test_article_1
             (lit "This is a humorous summary of article 1.")
             (lit "Test Article 1") (lit "https://example.com/article1")
             (lit "Test Source 1")); reflexivity.
Defined.

Lemma format_html_structure_witness :
  html_entry test_article_1
  = html_article_open ++ lit "Test Article 1" ++ html_article_content
    ++ lit "This is a humorous summary of article 1." ++ html_article_close
    ++ html_source_open ++ lit "https://example.com/article1"
    ++ html_source_middle ++ lit "Test Source 1" ++ html_source_close
    ++ lit "</div>".
Proof.
  destruct (format_html_structure test_world [] [])
    as (_ & _ & Hfull & _ & Hplain).
  rewrite (Hfull test_article_1
             (lit "This is a humorous summary of article 1.")
             (lit "Test Article 1") (lit "https://example.com/article1")
             (lit "Test Source 1")) by reflexivity.
  rewrite Hplain by (by apply (bool_decide_unpack _)). reflexivity.
Defined.

Lemma format_newsletter_omits_witness :
  format_newsletter test_world text_formatter
    [plain_article; untitled_article] []
  = _format_markdown test_world [plain_article; untitled_article] [].
Proof.
  destruct (format_newsletter_omits test_world text_formatter
              [plain_article; untitled_article] []) as (_ & Hmd & _).
  apply Hmd. discriminate.
Defined.

Lemma unsupported_format_mismatch_witness :
  format_newsletter test_world text_formatter [untitled_article] []
  = _format_markdown test_world [untitled_article] []
  ∧ fst (save_newsletter test_world text_formatter (lit "# Test Newsletter")
           [])
    = Returns (lit "./output/ai_news_2023-01-01.html").
Proof.
  destruct (unsupported_format_mismatch test_world text_formatter
              [untitled_article] (lit "# Test Newsletter") [] [])
    as (Hformat & filepath & Hsave & _); [discriminate.. |].
  split; [exact Hformat | reflexivity].
Defined.

(** [tests/test_formatter.py::test_save_newsletter_markdown], and the
    same on a disk that cannot be written. *)
Example test_save_newsletter_markdown :
  save_newsletter test_world md_formatter (lit "# Test Newsletter") []
  = (Returns (lit "/tmp/out/ai_news_2023-01-01.md"),
     [CallStrftime (lit "%Y-%m-%d");
      CallWrite (lit "/tmp/out/ai_news_2023-01-01.md")
        (lit "# Test Newsletter")])
  ∧ fst (save_newsletter read_only_world md_formatter
           (lit "# Test Newsletter") [])
    = Returns [].
Proof. by vm_compute. Qed.

(** An article without title and source, with a content of two lines. *)
Example format_markdown_untitled :
  fst (_format_markdown test_world [plain_article; untitled_article] [])
  = Returns (lit "# AI News with a Twist - 2023-01-01" ++ nl ++ nl
             ++ lit "## Untitled Article" ++ nl ++ nl
             ++ lit "Two" ++ nl ++ lit "lines" ++ nl ++ nl
             ++ lit "---" ++ nl ++ nl ++ nl ++ nl
             ++ lit "*Generated on 2023-01-01 12:00:00 by AI News Summarizer*").
Proof. by vm_compute. Qed.

End FormatterScenarios.

(** ** The pipeline *)

Section MainFacts.

Import Main.

Variable w : Worlds.

Lemma batch_summarize_length (self : Summarizer.ArticleSummarizer)
    (texts : list (list N)) (log : list Summarizer.call) :
  ∃ summaries log',
    Summarizer.batch_summarize (summarizer_world w) self texts log
    = (Returns summaries, log')
    ∧ length summaries = length texts.
Proof.
  revert log. induction texts as [|text texts IH]; intros log.
  - by exists [], log.
  - destruct (summarize_returns (summarizer_world w) self text log)
      as (v & l1 & Hv).
    destruct (IH l1) as (vs & l2 & Hvs & Hlen).
    exists (v :: vs), l2. split; [| simpl; by rewrite Hlen].
    cbn [Summarizer.batch_summarize]. unfold bind. by rewrite Hv, Hvs.
Qed.

Lemma zip_with_rows (articles : list Collector.Article)
    (summaries : list (list N)) :
  length summaries = length articles →
  s_article <$> zip_with (fun a s => {| s_article := a; s_summary := s |})
                  articles summaries
  = articles.
Proof.
  revert summaries. induction articles as [|a articles IH];
    intros [|s summaries] Hlen; try done.
  simpl. f_equal. apply IH. simpl in Hlen. lia.
Qed.

(** [summarize_articles] changes the logs of the constructor and of the
    summarizer only, and a frame it returns has one row per article, in
    order. *)
Lemma summarize_articles_spec (articles_df : list Collector.Article)
    (config : Config.Settings) (st : Run) :
  ∃ r st',
    summarize_articles w articles_df config st = (r, st')
    ∧ collector_log st' = collector_log st
    ∧ humor_state st' = humor_state st
    ∧ formatter_log st' = formatter_log st
    ∧ makedirs_log st' = makedirs_log st
    ∧ ∀ rows, r = Returns rows → s_article <$> rows = articles_df.
Proof.
  unfold summarize_articles. case_bool_decide as Hempty.
  { eexists _, st. split_and!; try done. by intros rows [= <-]. }
  unfold bind, zoom, ret.
  destruct (SummarizerInit.__init__ _ _ _ _ _ (init_log st))
    as [[summarizer | e] l1].
  2:{ eexists _, _. by split_and!. }
  cbn [summarizer_log set_init_log].
  destruct (batch_summarize_length summarizer
              (Collector.text <$> articles_df) (summarizer_log st))
    as (summaries & l2 & Hrun & Hlen).
  rewrite Hrun. eexists _, _. split_and!; try done.
  intros rows [= <-]. apply zip_with_rows.
  by rewrite Hlen, length_fmap.
Qed.

Lemma humor_rows_spec (generator : Humorizer.HumorGenerator)
    (rows : list Summarized) (st : Humorizer.State) :
  ∃ rows' st',
    humor_rows w generator rows st = (Returns rows', st')
    ∧ h_article <$> rows' = s_article <$> rows
    ∧ h_summary <$> rows' = s_summary <$> rows.
Proof.
  revert st. induction rows as [|row rows IH]; intros st.
  - by exists [], st.
  - destruct (add_humor_returns (humor_world w) generator
                (Collector.title (s_article row)) (s_summary row) st)
      as (h & log' & Hh).
    destruct (IH {| Humorizer.heap := Humorizer.heap st;
                    Humorizer.log := log' |})
      as (rows' & st' & Hrows & Ha & Hs).
    eexists (_ :: rows'), st'. cbn [humor_rows]. unfold bind.
    rewrite Hh, Hrows. split_and!; [done | |]; simpl; by f_equal.
Qed.

(** [add_humor] never raises, changes the state of the humor generator
    only, and keeps the rows and their summaries. *)
Lemma add_humor_spec (articles_df : list Summarized)
    (config : Config.Settings) (st : Run) :
  ∃ rows st',
    add_humor w articles_df config st = (Returns rows, st')
    ∧ collector_log st' = collector_log st
    ∧ init_log st' = init_log st
    ∧ summarizer_log st' = summarizer_log st
    ∧ formatter_log st' = formatter_log st
    ∧ makedirs_log st' = makedirs_log st
    ∧ h_article <$> rows = s_article <$> articles_df
    ∧ h_summary <$> rows = s_summary <$> articles_df.
Proof.
  unfold add_humor. case_bool_decide as Hempty.
  { exists [], st. rewrite Hempty. by split_and!. }
  unfold zoom.
  match goal with
  | |- context [humor_rows w ?g articles_df (humor_state st)] =>
      destruct (humor_rows_spec g articles_df (humor_state st))
        as (rows & h' & Hrun & Ha & Hs)
  end.
  rewrite Hrun. eexists _, _. by split_and!.
Qed.

Lemma format_newsletter_total (self : Formatter.NewsletterFormatter)
    (articles : list (gmap (list N) (list N)))
    (log : list Formatter.call) :
  ∃ content log1,
    Formatter.format_newsletter (formatter_world w) self articles log
    = (Returns content, log1).
Proof.
  pose proof (format_markdown_spec (formatter_world w) articles log) as Hmd.
  pose proof (format_html_spec (formatter_world w) articles log) as Hhtml.
  unfold Formatter.format_newsletter.
  repeat case_bool_decide; by eexists _, _.
Qed.

Lemma save_newsletter_spec (self : Formatter.NewsletterFormatter)
    (content : list N) (log : list Formatter.call) :
  ∃ filepath,
    filepath
    = path_join (Formatter.output_directory self)
        (lit "ai_news_"
         ++ Formatter.strftime (formatter_world w) log (lit "%Y-%m-%d")
         ++ (if bool_decide (Formatter.output_format self = lit "markdown")
             then lit ".md" else lit ".html"))
    ∧ filepath ≠ []
    ∧ Formatter.save_newsletter (formatter_world w) self content log
      = (Returns (match Formatter.write_file (formatter_world w)
                          (log ++ [Formatter.CallStrftime (lit "%Y-%m-%d")])
                          filepath content with
                  | Returns _ => filepath
                  | Raises _ => []
                  end),
         log ++ [Formatter.CallStrftime (lit "%Y-%m-%d");
                 Formatter.CallWrite filepath content]).
Proof.
  unfold Formatter.save_newsletter, Formatter.now_strftime.
  unfold bind, try_except, external, ret. cbn [List.find fst snd].
  set (filename := lit "ai_news_" ++ _ ++ _).
  exists (path_join (Formatter.output_directory self) filename).
  split; [done |]. split.
  - unfold path_join. change (startswith (lit "/") filename) with false.
    cbn iota.
    destruct (_ || _); intros [_ Hnil]%app_eq_nil; discriminate.
  - rewrite <- app_assoc.
    destruct (Formatter.write_file _ _ _ content) as [[] | e];
      by try destruct e.
Qed.

(** [format_and_save] on a frame with rows: it raises only when the
    output directory cannot be made; otherwise it formats the dictionaries
    of the rows, writes once, and returns the path, or the empty string
    when the write raises. *)
Lemma format_and_save_spec (articles_df : list Stylized)
    (config : Config.Settings) (st : Run) :
  articles_df ≠ [] →
  ∃ r st',
    format_and_save w articles_df config st = (r, st')
    ∧ collector_log st' = collector_log st
    ∧ init_log st' = init_log st
    ∧ summarizer_log st' = summarizer_log st
    ∧ humor_state st' = humor_state st
    ∧ makedirs_log st' = makedirs_log st ++ [Config.output_directory config]
    ∧ match makedirs w (makedirs_log st) (Config.output_directory config) with
      | Raises e => r = Raises e ∧ formatter_log st' = formatter_log st
      | Returns _ =>
          ∃ content filepath log1,
            Formatter.format_newsletter (formatter_world w)
              {| Formatter.output_format :=
                   ascii_lower (Config.output_format config);
                 Formatter.output_directory :=
                   Config.output_directory config |}
              (to_dict w <$> articles_df) (formatter_log st)
            = (Returns content, log1)
            ∧ filepath
              = path_join (Config.output_directory config)
                  (lit "ai_news_"
                   ++ Formatter.strftime (formatter_world w) log1
                        (lit "%Y-%m-%d")
                   ++ (if bool_decide
                            (ascii_lower (Config.output_format config)
                             = lit "markdown")
                       then lit ".md" else lit ".html"))
            ∧ filepath ≠ []
            ∧ formatter_log st'
              = log1 ++ [Formatter.CallStrftime (lit "%Y-%m-%d");
                         Formatter.CallWrite filepath content]
            ∧ r = Returns
                    (Some (match Formatter.write_file (formatter_world w)
                                   (log1 ++ [Formatter.CallStrftime
                                               (lit "%Y-%m-%d")])
                                   filepath content with
                           | Returns _ => filepath
                           | Raises _ => []
                           end))
      end.
Proof.
  intros Hrows. unfold format_and_save.
  rewrite bool_decide_eq_false_2 by done.
  unfold new_formatter, bind, zoom, external, ret.
  destruct (makedirs w (makedirs_log st) (Config.output_directory config))
    as [[] | e].
  2:{ eexists _, _. by split_and!. }
  cbn [formatter_log set_makedirs_log].
  set (formatter := {| Formatter.output_format := _;
                       Formatter.output_directory := _ |}).
  destruct (format_newsletter_total formatter (to_dict w <$> articles_df)
              (formatter_log st)) as (content & log1 & Hformat).
  rewrite Hformat. cbn [formatter_log set_formatter_log].
  destruct (save_newsletter_spec formatter content log1)
    as (filepath & Hfile & Hpath & Hsave).
  rewrite Hsave. eexists _, _. split_and!; try done.
  by exists content, filepath, log1.
Qed.

(** The collector stage changes the collector's log only. *)
Lemma collect_news_stage (config : Config.Settings) (st : Run) :
  ∃ r l', collect_news w config st = (r, set_collector_log l' st).
Proof.
  unfold collect_news, zoom.
  destruct (Collector.collect_news _ _ (collector_log st)) as [r l'].
  by exists r, l'.
Qed.

(** X25. [main] exits with status 1 before any later stage when there is
    nothing to work on.  When the configuration does not load, nothing at
    all is done.  When ingestion returns no article, only the collector
    has run: no model is loaded, no summary or stylization is requested,
    no directory is made and no file is written. *)
Theorem main_aborts_without_articles (environ : gmap (list N) (list N))
    (st : Run) :
  (∀ e, Config.__init__ (py_int w) (py_float w) environ = Raises e →
        main w environ st = (Returns 1, st))
  ∧ (∀ config l',
       Config.__init__ (py_int w) (py_float w) environ = Returns config →
       Collector.collect_news (collector_world w)
         {| Collector.sources := AI_NEWS_SOURCES;
            Collector.max_articles_per_source :=
              Config.max_articles_per_source config;
            Collector.days_to_look_back :=
              Config.days_to_look_back config |}
         (collector_log st)
       = (Returns [], l') →
       main w environ st = (Returns 1, set_collector_log l' st)).
Proof.
  split.
  - intros e He. unfold main, try_except, bind, load_config.
    rewrite He. by destruct e.
  - intros config l' Hconfig Hcollect.
    unfold main, try_except, bind, load_config. rewrite Hconfig.
    unfold collect_news, zoom. by rewrite Hcollect.
Qed.

(** X26. [main] never raises: its exit status is 0 or 1.  It is 0 only
    when a newsletter was written: the output directory was made, the
    last call of the formatter is a write to a non-empty path, and that
    write returned. *)
Theorem main_exit_status (environ : gmap (list N) (list N)) (st : Run) :
  ∃ code st',
    main w environ st = (Returns code, st')
    ∧ (code = 0 ∨ code = 1)
    ∧ (code = 0 →
       ∃ config log1 filepath content,
         Config.__init__ (py_int w) (py_float w) environ = Returns config
         ∧ makedirs_log st'
           = makedirs_log st ++ [Config.output_directory config]
         ∧ formatter_log st'
           = log1 ++ [Formatter.CallStrftime (lit "%Y-%m-%d");
                      Formatter.CallWrite filepath content]
         ∧ filepath ≠ []
         ∧ Formatter.write_file (formatter_world w)
             (log1 ++ [Formatter.CallStrftime (lit "%Y-%m-%d")])
             filepath content
           = Returns tt).
Proof.
  unfold main, try_except. unfold bind at 1, load_config.
  destruct (Config.__init__ (py_int w) (py_float w) environ)
    as [config | e] eqn:Hconfig.
  2:{ exists 1, st. cbn [List.find fst snd is_Exception].
      split_and!; [done | by right | done]. }
  unfold bind at 1.
  destruct (collect_news_stage config st) as (r1 & l1 & Hcollect).
  rewrite Hcollect. set (st1 := set_collector_log l1 st).
  destruct r1 as [batch | e1].
  2:{ exists 1, st1. cbn [List.find fst snd is_Exception].
      split_and!; [done | by right | done]. }
  case_bool_decide as Hbatch.
  { exists 1, st1. split_and!; [done | by right | done]. }
  unfold bind at 1.
  destruct (summarize_articles_spec batch config st1)
    as (r2 & st2 & Hsum & _ & _ & Hf2 & Hm2 & Hrows2).
  rewrite Hsum. destruct r2 as [rows2 | e2].
  2:{ exists 1, st2. cbn [List.find fst snd is_Exception].
      split_and!; [done | by right | done]. }
  unfold bind at 1.
  destruct (add_humor_spec rows2 config st2)
    as (rows3 & st3 & Hhum & _ & _ & _ & Hf3 & Hm3 & Hrows3 & _).
  rewrite Hhum.
  assert (rows3 ≠ []) as Hne.
  { intros ->. specialize (Hrows2 rows2 eq_refl).
    destruct rows2; [by subst batch | discriminate]. }
  unfold bind at 1.
  destruct (format_and_save_spec rows3 config st3 Hne)
    as (r4 & st4 & Hsave & _ & _ & _ & _ & Hm4 & Hcases).
  rewrite Hsave.
  destruct (makedirs w (makedirs_log st3) (Config.output_directory config))
    as [[] | e4].
  2:{ destruct Hcases as [-> _]. exists 1, st4.
      cbn [List.find fst snd is_Exception].
      split_and!; [done | by right | done]. }
  destruct Hcases as (content & filepath & log1 & _ & _ & Hpath & Hlog & ->).
  destruct (Formatter.write_file (formatter_world w) _ filepath content)
    as [[] | e5] eqn:Hwrite.
  - rewrite bool_decide_eq_false_2 by done.
    exists 0, st4. split_and!; [done | by left |].
    intros _. exists config, log1, filepath, content.
    split_and!; [done | | done | done | done].
    rewrite Hm4, Hm3, Hm2. done.
  - rewrite bool_decide_eq_true_2 by done.
    exists 1, st4. split_and!; [done | by right | done].
Qed.

(** X27. The frame keeps its rows through the stages: a frame returned
    by [summarize_articles] has one row per ingested article, in order
    (when it raises instead, the constructor of the summarizer raised);
    [add_humor] never raises and returns the same rows with the same
    summaries. *)
Theorem pipeline_rows (articles_df : list Collector.Article)
    (config : Config.Settings) (st : Run) :
  (∀ rows st',
     summarize_articles w articles_df config st = (Returns rows, st') →
     s_article <$> rows = articles_df)
  ∧ (∀ e st',
       summarize_articles w articles_df config st = (Raises e, st') →
       ∃ l, SummarizerInit.__init__ (init_world w)
              (Config.summarization_model config)
              (Config.summary_min_length config)
              (Config.summary_max_length config) true (init_log st)
            = (Raises e, l))
  ∧ (∀ rows, ∃ rows' st',
       add_humor w rows config st = (Returns rows', st')
       ∧ h_article <$> rows' = s_article <$> rows
       ∧ h_summary <$> rows' = s_summary <$> rows).
Proof.
  split_and!.
  - intros rows st' Hrun.
    destruct (summarize_articles_spec articles_df config st)
      as (r & st2 & Hsum & _ & _ & _ & _ & Hrows).
    rewrite Hrun in Hsum. injection Hsum as <- _. by apply Hrows.
  - intros e st'. unfold summarize_articles.
    case_bool_decide; [done |]. unfold bind, zoom, ret.
    destruct (SummarizerInit.__init__ _ _ _ _ _ (init_log st))
      as [[summarizer | e'] l1].
    + cbn [summarizer_log set_init_log].
      destruct (batch_summarize_length summarizer
                  (Collector.text <$> articles_df) (summarizer_log st))
        as (summaries & l2 & Hrun & _).
      by rewrite Hrun.
    + intros [= <- _]. by exists l1.
  - intros rows.
    destruct (add_humor_spec rows config st)
      as (rows' & st' & Hrun & _ & _ & _ & _ & _ & Ha & Hs).
    by exists rows', st'.
Qed.

(** The dictionary of a row has every key the formatter looks for, so
    the row is rendered in full. *)
Lemma to_dict_entries (row : Stylized) :
  Formatter.markdown_entry (to_dict w row)
  = lit "## " ++ Collector.title (h_article row) ++ nl ++ nl
    ++ h_humorous_content row ++ nl ++ nl
    ++ (lit "*Source: [" ++ Collector.source (h_article row) ++ lit "]("
        ++ Collector.url (h_article row) ++ lit ")*" ++ nl ++ nl)
    ++ lit "---" ++ nl ++ nl
  ∧ Formatter.html_entry (to_dict w row)
    = Formatter.html_article_open ++ Collector.title (h_article row)
      ++ Formatter.html_article_content
      ++ replace_char 10%N (lit "<br>") (h_humorous_content row)
      ++ Formatter.html_article_close
      ++ (Formatter.html_source_open ++ Collector.url (h_article row)
          ++ Formatter.html_source_middle
          ++ Collector.source (h_article row)
          ++ Formatter.html_source_close)
      ++ lit "</div>".
Proof.
  assert (to_dict w row !! lit "title"
          = Some (Collector.title (h_article row))) as Htitle.
  { unfold to_dict. by rewrite lookup_insert_eq. }
  assert (to_dict w row !! lit "url"
          = Some (Collector.url (h_article row))) as Hurl.
  { unfold to_dict. repeat (rewrite lookup_insert_ne by done).
    by rewrite lookup_insert_eq. }
  assert (to_dict w row !! lit "source"
          = Some (Collector.source (h_article row))) as Hsource.
  { unfold to_dict. repeat (rewrite lookup_insert_ne by done).
    by rewrite lookup_insert_eq. }
  assert (to_dict w row !! lit "humorous_content"
          = Some (h_humorous_content row)) as Hcontent.
  { unfold to_dict. repeat (rewrite lookup_insert_ne by done).
    by rewrite lookup_insert_eq. }
  unfold Formatter.markdown_entry, Formatter.html_entry,
    Formatter.get_default.
  by rewrite Htitle, Hurl, Hsource, Hcontent.
Qed.

(** X28. In the pipeline the newsletter holds every row and the file
    name agrees with the body.  On validated settings and a frame with
    rows, when the output directory can be made, [format_and_save] reads
    the clock three times and writes once; what it writes is either the
    markdown newsletter to a [.md] file or the HTML newsletter to a [.html]
    file, by the configured format; and every row of the frame is rendered
    with its title, its humorous content and its source line, none being
    left out. *)
Theorem format_and_save_renders_rows (articles_df : list Stylized)
    (config : Config.Settings) (st : Run) :
  Config.valid config →
  articles_df ≠ [] →
  makedirs w (makedirs_log st) (Config.output_directory config)
  = Returns tt →
  let fw := formatter_world w in
  let log0 := formatter_log st in
  let log1 := log0 ++ [Formatter.CallStrftime (lit "%Y-%m-%d")] in
  let log2 := log1 ++ [Formatter.CallStrftime (lit "%Y-%m-%d %H:%M:%S")] in
  let entries f := concat (f <$> (to_dict w <$> articles_df)) in
  ∃ r st' filepath content,
    format_and_save w articles_df config st = (r, st')
    ∧ formatter_log st'
      = log0 ++ [Formatter.CallStrftime (lit "%Y-%m-%d");
                 Formatter.CallStrftime (lit "%Y-%m-%d %H:%M:%S");
                 Formatter.CallStrftime (lit "%Y-%m-%d");
                 Formatter.CallWrite filepath content]
    ∧ ((Config.output_format config = lit "markdown"
        ∧ filepath
          = path_join (Config.output_directory config)
              (lit "ai_news_" ++ Formatter.strftime fw log2 (lit "%Y-%m-%d")
               ++ lit ".md")
        ∧ content
          = lit "# AI News with a Twist - "
            ++ Formatter.strftime fw log0 (lit "%Y-%m-%d") ++ nl ++ nl
            ++ entries Formatter.markdown_entry
            ++ nl ++ nl ++ lit "*Generated on "
            ++ Formatter.strftime fw log1 (lit "%Y-%m-%d %H:%M:%S")
            ++ lit " by AI News Summarizer*")
       ∨ (Config.output_format config = lit "html"
          ∧ filepath
            = path_join (Config.output_directory config)
                (lit "ai_news_"
                 ++ Formatter.strftime fw log2 (lit "%Y-%m-%d")
                 ++ lit ".html")
          ∧ content
            = Formatter.html_head_open
              ++ Formatter.strftime fw log0 (lit "%Y-%m-%d")
              ++ Formatter.html_head_style
              ++ Formatter.strftime fw log0 (lit "%Y-%m-%d")
              ++ Formatter.html_head_close
              ++ entries Formatter.html_entry
              ++ Formatter.html_footer_open
              ++ Formatter.strftime fw log1 (lit "%Y-%m-%d %H:%M:%S")
              ++ Formatter.html_footer_close))
    ∧ ∀ row, row ∈ articles_df →
        Formatter.markdown_entry (to_dict w row)
        = lit "## " ++ Collector.title (h_article row) ++ nl ++ nl
          ++ h_humorous_content row ++ nl ++ nl
          ++ (lit "*Source: [" ++ Collector.source (h_article row)
              ++ lit "](" ++ Collector.url (h_article row) ++ lit ")*"
              ++ nl ++ nl)
          ++ lit "---" ++ nl ++ nl
        ∧ Formatter.html_entry (to_dict w row)
          = Formatter.html_article_open ++ Collector.title (h_article row)
            ++ Formatter.html_article_content
            ++ replace_char 10%N (lit "<br>") (h_humorous_content row)
            ++ Formatter.html_article_close
            ++ (Formatter.html_source_open ++ Collector.url (h_article row)
                ++ Formatter.html_source_middle
                ++ Collector.source (h_article row)
                ++ Formatter.html_source_close)
            ++ lit "</div>".
Proof.
  intros Hvalid Hrows Hmk. cbn zeta.
  destruct (format_and_save_spec articles_df config st Hrows)
    as (r & st' & Hrun & _ & _ & _ & _ & _ & Hcases).
  rewrite Hmk in Hcases.
  destruct Hcases
    as (content & filepath & log1 & Hformat & Hfile & _ & Hlog & _).
  exists r, st', filepath, content. split; [done |].
  pose proof (format_markdown_spec (formatter_world w)
                (to_dict w <$> articles_df) (formatter_log st)) as Hmd.
  pose proof (format_html_spec (formatter_world w)
                (to_dict w <$> articles_df) (formatter_log st)) as Hhtml.
  cbn zeta in Hmd, Hhtml.
  unfold Formatter.format_newsletter in Hformat.
  cbn [Formatter.output_format] in Hformat.
  destruct Hvalid as (_ & _ & _ & _ & _ & [Hfmt | Hfmt]);
    rewrite Hfmt in Hformat, Hfile.
  - change (ascii_lower (lit "markdown")) with (lit "markdown")
      in Hformat, Hfile.
    rewrite bool_decide_eq_true_2 in Hformat, Hfile by done.
    rewrite Hmd in Hformat. injection Hformat as <- <-.
    split_and!.
    + by rewrite Hlog, <- !app_assoc.
    + left. by split_and!.
    + intros row _. apply to_dict_entries.
  - change (ascii_lower (lit "html")) with (lit "html") in Hformat, Hfile.
    rewrite bool_decide_eq_false_2 in Hformat, Hfile by done.
    rewrite bool_decide_eq_true_2 in Hformat by done.
    rewrite Hhtml in Hformat. injection Hformat as <- <-.
    split_and!.
    + by rewrite Hlog, <- !app_assoc.
    + right. by split_and!.
    + intros row _. apply to_dict_entries.
Qed.

End MainFacts.

Section MainScenarios.

Import Main.

Lemma config_init_witness :
  ∃ c, Config.__init__ digits_int default_float ∅ = Returns c
       ∧ Config.valid c
       ∧ Config.openai_api_key c = None
       ∧ Config.output_directory c = lit "./output".
Proof.
  pose proof (config_init digits_int default_float ∅) as Hinit.
  cbn zeta in Hinit.
  destruct (Config.__init__ digits_int default_float ∅) as [c | e].
  - destruct Hinit as (_ & Hvalid & Hkey & Hdir). exists c.
    split_and!; [reflexivity | exact Hvalid | exact Hkey | exact Hdir].
  - exfalso. apply Hinit. vm_compute.
    repeat split; eexists; reflexivity.
Defined.

Lemma main_aborts_without_articles_witness :
  main offline bad_environ fresh = (Returns 1, fresh)
  ∧ ∃ l', main offline ∅ fresh = (Returns 1, set_collector_log l' fresh)
          ∧ length l' = 7%nat.
Proof.
  destruct (main_aborts_without_articles offline bad_environ fresh)
    as [Hconfig _].
  destruct (main_aborts_without_articles offline ∅ fresh) as [_ Hempty].
  split.
  - by apply (Hconfig OtherException).
  - eexists. split.
    + apply Hempty with (config := Config._validate_config
                                     {| Config.openai_api_key := None;
                                        Config.max_articles_per_source := 5;
                                        Config.days_to_look_back := 3;
                                        Config.summary_min_length := 50;
                                        Config.summary_max_length := 150;
                                        Config.summarization_model :=
                                          lit "google/pegasus-cnn_dailymail";
                                        Config.humor_temperature :=
                                          Config.default_temperature;
                                        Config.humor_model := lit "gpt-4";
                                        Config.output_format :=
                                          lit "markdown";
                                        Config.output_directory :=
                                          lit "./output" |});
        vm_compute; reflexivity.
    + reflexivity.
Defined.

Lemma main_exit_status_witness :
  ∃ st' log1 filepath content,
    main online ∅ fresh = (Returns 0, st')
    ∧ makedirs_log st' = [lit "./output"]
    ∧ formatter_log st'
      = log1 ++ [Formatter.CallStrftime (lit "%Y-%m-%d");
                 Formatter.CallWrite filepath content]
    ∧ filepath ≠ [].
Proof.
  destruct (main_exit_status online ∅ fresh)
    as (code & st' & Hrun & _ & Hzero).
  assert (code = 0) as ->.
  { assert (fst (main online ∅ fresh) = Returns 0) as Hfst
      by (vm_compute; reflexivity).
    rewrite Hrun in Hfst. by injection Hfst. }
  destruct (Hzero eq_refl)
    as (config & log1 & filepath & content & Hconfig & Hmk & Hlog & Hne & _).
  exists st', log1, filepath, content. split_and!; try done.
  vm_compute in Hconfig. injection Hconfig as <-. exact Hmk.
Defined.

Lemma pipeline_rows_witness :
  ∃ rows st',
    summarize_articles online [h_article story_row] Config.test_settings
      fresh
    = (Returns rows, st')
    ∧ s_article <$> rows = [h_article story_row].
Proof.
  destruct (pipeline_rows online [h_article story_row] Config.test_settings
              fresh) as (Hrows & _).
  eexists _, _. split; [vm_compute; reflexivity |].
  eapply Hrows. vm_compute. reflexivity.
Defined.

Lemma format_and_save_renders_rows_witness :
  ∃ st' content,
    format_and_save online [story_row] Config.test_settings fresh
    = (Returns (Some (lit "./test_output/ai_news_2023-01-01.html")), st')
    ∧ formatter_log st'
      = [Formatter.CallStrftime (lit "%Y-%m-%d");
         Formatter.CallStrftime (lit "%Y-%m-%d %H:%M:%S");
         Formatter.CallStrftime (lit "%Y-%m-%d");
         Formatter.CallWrite (lit "./test_output/ai_news_2023-01-01.html")
           content].
Proof.
  destruct (format_and_save_renders_rows online [story_row]
              Config.test_settings fresh)
    as (r & st' & filepath & content & Hrun & Hlog & Hcases & _).
  - unfold Config.valid. split_and!; try reflexivity. by right.
  - done.
  - reflexivity.
  - destruct Hcases as [(Hfmt & _) | (_ & Hfile & _)]; [discriminate Hfmt |].
    vm_compute in Hfile. subst filepath.
    exists st', content. split; [| exact Hlog].
    assert (fst (format_and_save online [story_row] Config.test_settings
                   fresh)
            = Returns (Some (lit "./test_output/ai_news_2023-01-01.html")))
      as Hfst by (vm_compute; reflexivity).
    rewrite Hrun in Hfst. simpl in Hfst. by rewrite Hrun, Hfst.
Defined.

End MainScenarios.
